(** * ollin / pycamtrap: movement kernel and calibration harness

    A shallow embedding of the movement-simulation kernels
    ([pycamtrap/core/movement.py], [pycamtrap/movement_models/constant_brownian.py]),
    of the link functions of [pycamtrap/core/utils.py] and of the calibration
    harnesses ([pycamtrap/calibration/velocity.py], [.../home_range.py],
    [ollin/calibration/occupancy.py]).

    Numbers.  The kernels compute on [float64]; the properties below are
    stated over exact real arithmetic, so a float is an [R], a float literal
    denotes its decimal value, and the operations that raise in the source
    (division and modulo by zero, [math.pow] outside its domain, an array
    index out of range in interpreted code) return [None].  Where a
    non-finite value can reach a computation without an exception, namely in
    the arrays handed to the heatmap-weighted kernel and in the fitting step
    of the occupancy calibrator, an array element is an [xreal]: a real, an
    infinity or NaN.
    Sizes and loop counters are [nat]. *)

From Stdlib Require Import Reals Lra Lia ZArith.
From stdpp Require Import base option list gmap strings.

(* ================================================================== *)
(** ** Float operations, read over the reals *)

Module Numeric.

(** [a / b] on floats inside a jitted kernel: ZeroDivisionError when the
    divisor is zero. *)
Definition fdiv (a b : R) : option R :=
  if Req_dec_T b 0 then None else Some (a / b)%R.

(** [a // b]: the floor of the quotient, still a float. *)
Definition floordiv (a b : R) : option R :=
  if Req_dec_T b 0 then None else Some (IZR (Zfloor (a / b)))%R.

(** [a % b]: the remainder takes the sign of the divisor. *)
Definition fmod (a b : R) : option R :=
  if Req_dec_T b 0 then None
  else Some (a - IZR (Zfloor (a / b)) * b)%R.

(** [int(x)]: truncation toward zero. *)
Definition int (x : R) : Z :=
  if Rle_dec 0 x then Zfloor x else Zceil x.

(** [math.pow(x, y)]: defined for a positive base; for a zero base with a
    non-negative exponent; for a negative base only with an integral
    exponent.  No other case has a real value (ValueError in the
    interpreter, a non-finite float in jitted code). *)
Definition math_pow (x y : R) : option R :=
  if Rlt_dec 0 x then Some (Rpower x y)
  else if Req_dec_T x 0 then
    (if Rlt_dec 0 y then Some 0%R
     else if Req_dec_T y 0 then Some 1%R else None)
  else if Req_dec_T y (IZR (Zfloor y)) then Some (powerRZ x (Zfloor y))
  else None.

End Numeric.

(* ================================================================== *)
(** ** [pycamtrap/core/utils.py] *)

Module Utils.

(** [1 / (1 + np.exp(-x))] *)
Definition sigmoid (x : R) : R := (1 / (1 + exp (- x)))%R.

(** [-np.log((1/y) - 1)] *)
Definition logit (y : R) : R := (- ln (1 / y - 1))%R.

End Utils.

(* ================================================================== *)
(** ** The boundary rule shared by both kernels *)

Module Boundary.
Import Numeric.

(** One axis of
<<
    tmp2 = tmp1 % (2 * range_)
    if tmp2 < range_: pos = tmp2 % range_
    else:             pos = (-tmp2) % range_
>> *)
Definition reflect (tmp1 range_ : R) : option R :=
  tmp2 ← fmod tmp1 (2 * range_)%R;
  if Rlt_dec tmp2 range_ then fmod tmp2 range_
  else fmod (- tmp2)%R range_.

(** Both axes, each against its own extent. *)
Definition remap (tmp1 : R * R) (rangex rangey : R) : option (R * R) :=
  x ← reflect tmp1.1 rangex;
  y ← reflect tmp1.2 rangey;
  Some (x, y).

End Boundary.

(* ================================================================== *)
(** ** Array arithmetic with the non-finite values of numpy *)

Module NumpyFloat.

(** A [float64] read over the reals, with the values that array arithmetic
    produces instead of raising: the two infinities and NaN.  Zero is
    unsigned (the harness divides and takes logarithms of non-negative
    quantities). *)
Inductive xreal : Type :=
| Fin (r : R) | PInf | MInf | NaN.

Definition xneg (a : xreal) : xreal :=
  match a with
  | Fin r => Fin (- r)
  | PInf => MInf
  | MInf => PInf
  | NaN => NaN
  end.

(** [a - b] *)
Definition xsub (a b : xreal) : xreal :=
  match a, b with
  | Fin x, Fin y => Fin (x - y)
  | Fin _, PInf => MInf
  | Fin _, MInf => PInf
  | PInf, (Fin _ | MInf) => PInf
  | MInf, (Fin _ | PInf) => MInf
  | _, _ => NaN
  end.

(** [a / b]: a finite non-zero value over zero is an infinity, zero over
    zero is NaN. *)
Definition xdiv (a b : xreal) : xreal :=
  match a, b with
  | Fin x, Fin y =>
      if Req_dec_T y 0 then
        (if Rlt_dec 0 x then PInf else if Rlt_dec x 0 then MInf else NaN)
      else Fin (x / y)
  | Fin _, (PInf | MInf) => Fin 0
  | PInf, Fin y => if Rlt_dec y 0 then MInf else PInf
  | MInf, Fin y => if Rlt_dec y 0 then PInf else MInf
  | _, _ => NaN
  end.

(** [a + b] *)
Definition xadd (a b : xreal) : xreal :=
  match a, b with
  | Fin x, Fin y => Fin (x + y)
  | Fin _, PInf | PInf, Fin _ | PInf, PInf => PInf
  | Fin _, MInf | MInf, Fin _ | MInf, MInf => MInf
  | _, _ => NaN
  end.

(** [a * b]: zero times an infinity is NaN. *)
Definition xmul (a b : xreal) : xreal :=
  match a, b with
  | Fin x, Fin y => Fin (x * y)
  | Fin x, PInf | PInf, Fin x =>
      if Rlt_dec 0 x then PInf else if Rlt_dec x 0 then MInf else NaN
  | Fin x, MInf | MInf, Fin x =>
      if Rlt_dec 0 x then MInf else if Rlt_dec x 0 then PInf else NaN
  | PInf, PInf | MInf, MInf => PInf
  | PInf, MInf | MInf, PInf => MInf
  | _, _ => NaN
  end.

(** [np.log(a)] *)
Definition xlog (a : xreal) : xreal :=
  match a with
  | Fin x => if Rlt_dec 0 x then Fin (ln x)
             else if Req_dec_T x 0 then MInf else NaN
  | PInf => PInf
  | _ => NaN
  end.

Definition is_finite (a : xreal) : Prop :=
  match a with Fin _ => True | _ => False end.

(** [logit] of [pycamtrap/core/utils.py] applied to an array element:
    [-np.log((1/y) - 1)]. *)
Definition logit (y : xreal) : xreal :=
  xneg (xlog (xsub (xdiv (Fin 1) y) (Fin 1))).

End NumpyFloat.

(* ================================================================== *)
(** ** [pycamtrap/core/movement.py]: the heatmap-weighted kernel *)

Module Movement.
Import Numeric Boundary NumpyFloat.

Abbreviation heatmap_t := (list (list R)).

(** [heatmap[a, b]] with integer indices: a negative index counts from the
    end; an index outside the grid is not checked by the jitted code and
    has no defined value. *)
Definition wrap_index (len : nat) (a : Z) : option nat :=
  let a' := (if Z.ltb a 0 then a + Z.of_nat len else a)%Z in
  if (Z.leb 0 a' && Z.ltb a' (Z.of_nat len))%bool
  then Some (Z.to_nat a') else None.

Definition heatmap_get {A} (heatmap : list (list A)) (a b : Z) : option A :=
  i ← wrap_index (length heatmap) a;
  row ← heatmap !! i;
  j ← wrap_index (length row) b;
  row !! j.

(** [index = (pos[0] // resolution, pos[1] // resolution)] followed by
    [int(index[0]), int(index[1])]. *)
Definition grid_index (pos : R * R) (resolution : R) : option (Z * Z) :=
  ix ← floordiv pos.1 resolution;
  iy ← floordiv pos.2 resolution;
  Some (int ix, int iy).

Definition lookup_value {A} (heatmap : list (list A)) (pos : R * R)
    (resolution : R) : option A :=
  idx ← grid_index pos resolution;
  heatmap_get heatmap idx.1 idx.2.

(** [exponent = 1.1 + 0.9 * value] *)
Definition exponent_of (value : R) : R := (1.1 + 0.9 * value)%R.

(** [math.pow((1 - u), 1/exponent) * exponent], the divisor of the draw. *)
Definition divisor (exponent u : R) : option R :=
  inv ← fdiv 1 exponent;
  pw ← math_pow (1 - u)%R inv;
  Some (pw * exponent)%R.

(** [magnitude = (velocity * (exponent - 1)) / divisor] *)
Definition magnitude (velocity value u : R) : option R :=
  let exponent := exponent_of value in
  d ← divisor exponent u;
  fdiv (velocity * (exponent - 1))%R d.

(** *** The arrays of the kernel

    [heatmap] and [random_positions] are [float64] arrays: their elements
    are [xreal]s.  The scalar arguments are numbers. *)

Abbreviation position := (xreal * xreal)%type.

(** A position, and a heatmap, all of whose entries are numbers. *)
Definition point (pos : R * R) : position := (Fin pos.1, Fin pos.2).

Definition cells (heatmap : heatmap_t) : list (list xreal) :=
  (λ row : list R, Fin <$> row) <$> heatmap.

(** [x // resolution] for an array element [x]: ZeroDivisionError for a
    zero resolution, whatever [x]; NaN for a non-finite [x]. *)
Definition floordiv64 (x : xreal) (resolution : R) : option xreal :=
  match x with
  | Fin a => Fin <$> floordiv a resolution
  | _ => if Req_dec_T resolution 0 then None else Some NaN
  end.

(** [int(x)]: the cast of a non-finite float has no defined value. *)
Definition cast (x : xreal) : option Z :=
  match x with
  | Fin a => Some (int a)
  | _ => None
  end.

(** [heatmap[int(index[0]), int(index[1])]] as the jitted kernel performs
    it: a negative index counts from the end, and the bounds are not
    checked, so that an index outside the grid (or the undefined cast of a
    non-finite index) reads whatever float lies at that place in memory:
    the value [stray]. *)
Definition read (heatmap : list (list xreal)) (stray : xreal)
    (index : xreal * xreal) : xreal :=
  match cast index.1, cast index.2 with
  | Some a, Some b => default stray (heatmap_get heatmap a b)
  | _, _ => stray
  end.

(** The step length for a value read from the array.  For a number it is
    [magnitude].  For an infinite [value] the exponent is infinite,
    [1/exponent] is zero, the power is 1 and the divisor infinite, while
    [velocity * (exponent - 1)] is infinite or (for a zero velocity) NaN;
    for a NaN [value] the exponent and the divisor are NaN.  In each case
    the quotient is NaN, and no exception is raised. *)
Definition magnitude64 (velocity : R) (value : xreal) (u : R)
    : option xreal :=
  match value with
  | Fin v => Fin <$> magnitude velocity v u
  | _ => Some NaN
  end.

(** The boundary rule on one axis for a proposed coordinate that may be
    non-finite: [tmp1 % (2 * range_)] is then NaN, the test
    [tmp2 < range_] fails, and [(-tmp2) % range_] is NaN; the modulo still
    raises ZeroDivisionError for a zero extent. *)
Definition reflect64 (tmp1 : xreal) (range_ : R) : option xreal :=
  match tmp1 with
  | Fin x => Fin <$> reflect x range_
  | _ => if Req_dec_T range_ 0 then None else Some NaN
  end.

(** The body of the inner loop for one individual: [angle] is
    [random_angles[k, j]], [u] the value of [np.random.rand()] and [stray]
    the float that an unchecked read outside the grid finds. *)
Definition step_one (heatmap : list (list xreal)) (stray : xreal)
    (resolution velocity range_ : R) (angle u : R) (pos : position)
    : option position :=
  let heading := (cos angle, sin angle) in
  ix ← floordiv64 pos.1 resolution;
  iy ← floordiv64 pos.2 resolution;
  let value := read heatmap stray (ix, iy) in
  m ← magnitude64 velocity value u;
  let direction := (xmul m (Fin heading.1), xmul m (Fin heading.2)) in
  let tmp1 := (xadd pos.1 direction.1, xadd pos.2 direction.2) in
  x ← reflect64 tmp1.1 range_;
  y ← reflect64 tmp1.2 range_;
  Some (x, y).

(** [for j in xrange(num)]: row [j] of [random_positions] is read and
    overwritten by iteration [j] only. *)
Fixpoint step_all {P} (step : nat → P → option P) (j : nat)
    (positions : list P) : option (list P) :=
  match positions with
  | [] => Some []
  | pos :: rest =>
      pos' ← step j pos;
      rest' ← step_all step (S j) rest;
      Some (pos' :: rest')
  end.

(** The trajectory array [movement[j, k, :]], individual-major. *)
Abbreviation trajectory := (list (list (R * R))).

(** [np.zeros((num, steps, 2))] *)
Definition zeros (num steps : nat) : trajectory :=
  replicate num (replicate steps (0%R, 0%R)).

(** The same array for the heatmap-weighted kernel, whose positions may be
    non-finite. *)
Definition zeros64 (num steps : nat) : list (list position) :=
  replicate num (replicate steps (Fin 0, Fin 0)).

(** [movement[:, k, :] = random_positions], for as many rows as
    [movement] has. *)
Definition record {P} (k : nat) (positions : list P)
    (movement : list (list P)) : list (list P) :=
  imap (λ j row, match positions !! j with
                 | Some pos => <[k := pos]> row
                 | None => row
                 end) movement.

(** [for k in xrange(steps)], with [n] iterations left. *)
Fixpoint run {P} (step : nat → nat → P → option P) (n k : nat)
    (positions : list P) (movement : list (list P))
    : option (list (list P)) :=
  match n with
  | O => Some movement
  | S n' =>
      let movement' := record k positions movement in
      positions' ← step_all (step k) 0 positions;
      run step n' (S k) positions' movement'
  end.

(** The jitted kernel.  [random_angles k j] and [rand k j] are the draws
    [random_angles[k, j]] and [np.random.rand()] of iteration [(k, j)], and
    [stray k j] is what the heatmap read of that iteration finds if it
    leaves the grid.

    The loops do not run when there are no steps, and the array of zeros
    is returned whatever [random_positions] holds.  Otherwise the
    assignment [movement[:, k, :] = random_positions] copies the rows when
    there are [num] of them; the jitted code broadcasts a single row to
    the rows of the slice, and raises ValueError for any other number of
    rows.  A single row with no individual ([num = 0]) leaves the empty
    array; with [num >= 2] the inner loop goes on to read and write rows
    of [random_positions] that do not exist, which has no defined
    behaviour. *)
Definition _movement (random_angles rand : nat → nat → R)
    (stray : nat → nat → xreal)
    (heatmap : list (list xreal)) (random_positions : list position)
    (resolution : R) (num : nat) (velocity range_ : R)
    (days steps_per_day : nat) : option (list (list position)) :=
  let steps := days * steps_per_day in
  let movement := zeros64 num steps in
  velocity ← fdiv velocity (INR steps_per_day);
  if decide (steps = 0 ∨ length random_positions = num) then
    run (λ k j, step_one heatmap (stray k j) resolution velocity range_
                  (random_angles k j) (rand k j))
        steps 0 random_positions movement
  else if decide (length random_positions = 1 ∧ num = 0) then
    Some movement
  else None.

End Movement.

(* ================================================================== *)
(** ** [pycamtrap/movement_models/constant_brownian.py] *)

Module ConstantBrownian.
Import Numeric Boundary.

(** The literal [1.2533141373155003]. *)
Definition sigma_divisor : R := 1.2533141373155003%R.

(** [sigma = velocity / 1.2533141373155003] *)
Definition sigma_of (velocity : R) : R := (velocity / sigma_divisor)%R.

(** [np.random.normal(0, sigma, size=(steps, num, 2))]: location plus
    scale times a standard normal draw [z k j c]. *)
Definition directions (z : nat → nat → nat → R) (sigma : R)
    (k j : nat) : R * R :=
  ((0 + sigma * z k j 0%nat)%R, (0 + sigma * z k j 1%nat)%R).

Definition step_one (rangex rangey : R) (direction pos : R * R)
    : option (R * R) :=
  let tmp1 := (pos.1 + direction.1, pos.2 + direction.2)%R in
  remap tmp1 rangex rangey.

(** The jitted kernel; [num] is read off the shape of
    [random_positions]. *)
Definition _movement (z : nat → nat → nat → R)
    (random_positions : list (R * R)) (velocity : R) (range_ : R * R)
    (steps : nat) : option Movement.trajectory :=
  let num := length random_positions in
  let movement := Movement.zeros num steps in
  let sigma := sigma_of velocity in
  let '(rangex, rangey) := range_ in
  Movement.run (λ k j, step_one rangex rangey (directions z sigma k j))
    steps 0 random_positions movement.

End ConstantBrownian.

(* ================================================================== *)
(** ** Properties of positions and trajectories *)

Module Habitat.
Import NumpyFloat Movement.

(** What the boundary rule guarantees of its result [y] on an axis of
    extent [r], for the proposed coordinate [x]. *)
Definition reflects (x r y : R) : Prop :=
  (0 <= y < r ∧ (0 <= x < r → y = x) ∧ (r < x < 2 * r → y = 2 * r - x))%R.

(** A position inside the habitat [[0, rangex) x [0, rangey)]. *)
Definition in_habitat (rangex rangey : R) (pos : R * R) : Prop :=
  (0 <= pos.1 < rangex ∧ 0 <= pos.2 < rangey)%R.

(** The trajectory in which every individual stays at its initial
    position during all [steps] steps. *)
Definition frozen {P} (steps : nat) (initial : list P) : list (list P) :=
  (λ pos, replicate steps pos) <$> initial.

(** Columns [k .. k + n - 1] of a row overwritten with [pos]. *)
Fixpoint fill {P} (k n : nat) (pos : P) (row : list P) : list P :=
  match n with
  | O => row
  | S n' => fill (S k) n' pos (<[k := pos]> row)
  end.

(** The array after [n] iterations that record the same positions. *)
Definition filled {P} (k n : nat) (positions : list P)
    (movement : list (list P)) : list (list P) :=
  imap (λ j row, match positions !! j with
                 | Some pos => fill k n pos row
                 | None => row
                 end) movement.



(** A position of numbers inside the habitat. *)
Definition inside (range_ : R) (pos : position) : Prop :=
  ∃ q, pos = point q ∧ in_habitat range_ range_ q.

(** A heatmap of [rows] by [cols] cells of width [resolution] that covers
    the extent [range_] on both axes. *)
Definition covers (heatmap : heatmap_t) (rows cols : nat)
    (resolution range_ : R) : Prop :=
  length heatmap = rows ∧ Forall (λ row, length row = cols) heatmap ∧
  (range_ <= INR rows * resolution)%R ∧
  (range_ <= INR cols * resolution)%R.

(** Every cell holds a suitability value in [[0, 1]]. *)
Definition suitability (heatmap : heatmap_t) : Prop :=
  Forall (Forall (λ v, 0 <= v <= 1)%R) heatmap.

End Habitat.

(* ================================================================== *)
(** ** Exceptions and the worker pool *)

Module Effects.

Inductive exn : Set :=
| KeyboardInterrupt | SystemExit | IndexError | ValueError
| WorkerError.

Global Instance exn_eq_dec : EqDecision exn.
Proof. solve_decision. Defined.

(** A computation that can raise. *)
Definition result : Type → Type := sum exn.

Global Instance result_ret : MRet result := λ A a, inr a.
Global Instance result_bind : MBind result := λ A B f m,
  match m with inl e => inl e | inr a => f a end.

(** The calls made on the [multiprocessing.Pool]. *)
Inductive pool_event : Set :=
| Pool_create | Pool_map | Pool_map_async_get
| Pool_close | Pool_join | Pool_terminate.

(** A harness computation: the pool calls it made, in order, and either
    the exception that left it or its value. *)
Definition M (A : Type) : Type := (list pool_event * result A)%type.

Global Instance M_ret : MRet M := λ A a, ([], inr a).
Global Instance M_bind : MBind M := λ A B f m,
  match m with
  | (t, inl e) => (t, inl e)
  | (t, inr a) => let '(t', r) := f a in (t ++ t', r)
  end.

Definition emit (ev : pool_event) : M () := ([ev], inr ()).
Definition raise {A} (e : exn) : M A := ([], inl e).
Definition lift {A} (r : result A) : M A := ([], r).

(** [try: body except KeyboardInterrupt: handler] *)
Definition try_except_KeyboardInterrupt {A} (body handler : M A) : M A :=
  match body with
  | (t, inl KeyboardInterrupt) => let '(t', r) := handler in (t ++ t', r)
  | other => other
  end.

(** [sys.exit()] and [quit()] raise SystemExit. *)
Definition sys_exit {A} : M A := raise SystemExit.
Definition quit {A} : M A := raise SystemExit.

(** What happens while the harness is blocked in the collecting call: all
    workers return, the user interrupts, or a worker raises. *)
Inductive collect : Set :=
| Returned | Interrupted | Failed (e : exn).

(** [pool.map(worker, arguments)]: the results in the order of the
    arguments.  [worker p a] is the value returned by the task submitted
    in position [p]; every task runs in its own process with its own
    random stream. *)
Definition pool_map {A B} (how : collect) (worker : nat → A → B)
    (arguments : list A) : M (list B) :=
  emit Pool_map;;
  match how with
  | Returned => mret (imap worker arguments)
  | Interrupted => raise KeyboardInterrupt
  | Failed e => raise e
  end.

(** [pool.map_async(worker, arguments).get(timeout)] *)
Definition pool_map_async_get {A B} (how : collect) (worker : nat → A → B)
    (arguments : list A) : M (list B) :=
  emit Pool_map_async_get;;
  match how with
  | Returned => mret (imap worker arguments)
  | Interrupted => raise KeyboardInterrupt
  | Failed e => raise e
  end.

End Effects.

(* ================================================================== *)
(** ** The dense arrays of the harness *)

Module Numpy.
Import Effects.

(** [[f x y z for x in xs for y in ys for z in zs]] *)
Definition for3 {A B C D} (xs : list A) (ys : list B) (zs : list C)
    (f : A → B → C → D) : list D :=
  x ← xs; y ← ys; z ← zs; [f x y z].

(** [xrange(n)] *)
Definition xrange (n : nat) : list nat := seq 0 n.

(** Broadcasting a one-dimensional value to length [d]: the same length,
    or a single element repeated. *)
Definition broadcast {A} (d : nat) (res : list A) : result (list A) :=
  if decide (length res = d) then inr res
  else match res with
       | [x] => inr (replicate d x)
       | _ => inl ValueError
       end.

(** A four-dimensional array: its shape and its cells, outermost axis
    first. *)
Record ndarray4 := {
  shape4 : nat * nat * nat * nat;
  cells4 : list (list (list (list R)))
}.

(** [np.zeros([a, b, c, d])] *)
Definition zeros4 (a b c d : nat) : ndarray4 :=
  {| shape4 := (a, b, c, d);
     cells4 := replicate a (replicate b (replicate c (replicate d 0%R))) |}.

(** [arr[i, j, k, :] = res] *)
Definition setitem4 (idx : nat * nat * nat) (res : list R)
    (arr : ndarray4) : result ndarray4 :=
  let '(i, j, k) := idx in
  let '(a, b, c, d) := shape4 arr in
  if decide (i < a ∧ j < b ∧ k < c) then
    row ← broadcast d res;
    inr {| shape4 := shape4 arr;
           cells4 := alter (alter (<[k := row]>) j) i (cells4 arr) |}
  else inl IndexError.

(** [arr[i, j, k, :]] *)
Definition getitem4 (idx : nat * nat * nat) (arr : ndarray4)
    : option (list R) :=
  let '(i, j, k) := idx in
  plane ← cells4 arr !! i; rows ← plane !! j; rows !! k.

(** A five-dimensional array. *)
Record ndarray5 := {
  shape5 : nat * nat * nat * nat * nat;
  cells5 : list (list (list (list (list R))))
}.

(** [np.zeros([a, b, c, d, e])] *)
Definition zeros5 (a b c d e : nat) : ndarray5 :=
  {| shape5 := (a, b, c, d, e);
     cells5 := replicate a (replicate b (replicate c
                 (replicate d (replicate e 0%R)))) |}.

(** Broadcasting a two-dimensional value to shape [(c, e)]. *)
Definition broadcast2 (c e : nat) (res : list (list R))
    : result (list (list R)) :=
  rows ← mapM (broadcast e) res;
  broadcast c rows.

(** [arr[i, j, :, k, :] = res] *)
Definition setitem5 (idx : nat * nat * nat) (res : list (list R))
    (arr : ndarray5) : result ndarray5 :=
  let '(i, j, k) := idx in
  let '(a, b, c, d, e) := shape5 arr in
  if decide (i < a ∧ j < b ∧ k < d) then
    rows ← broadcast2 c e res;
    inr {| shape5 := shape5 arr;
           cells5 :=
             alter (alter (λ planes,
                      zip_with (λ plane row, <[k := row]> plane)
                        planes rows) j) i (cells5 arr) |}
  else inl IndexError.

(** [arr[i, j, :, k, :]] *)
Definition getslice5 (idx : nat * nat * nat) (arr : ndarray5)
    : option (list (list R)) :=
  let '(i, j, k) := idx in
  block ← cells5 arr !! i; planes ← block !! j;
  mapM (λ plane : list (list R), plane !! k) planes.

(** [arr[a, b, c, :, :].ravel()] *)
Definition ravel5 (a b c : nat) (arr : ndarray5) : result (list R) :=
  match (block ← cells5 arr !! a; planes ← block !! b; planes !! c) with
  | Some plane => inr (concat plane)
  | None => inl IndexError
  end.

(** [for idx, res in zip(arguments, results): setitem idx res] *)
Fixpoint write_all {K V T} (setitem : K → V → T → result T)
    (items : list (K * V)) (arr : T) : result T :=
  match items with
  | [] => inr arr
  | (idx, res) :: rest =>
      arr' ← setitem idx res arr;
      write_all setitem rest arr'
  end.

(** The cells of an array agree with its shape on the leading axes. *)
Definition wf4 (arr : ndarray4) : Prop :=
  let '(a, b, c, d) := shape4 arr in
  length (cells4 arr) = a ∧
  Forall (λ plane, length plane = b ∧
                   Forall (λ rows : list (list R), length rows = c) plane)
    (cells4 arr).

Definition wf5 (arr : ndarray5) : Prop :=
  let '(a, b, c, d, e) := shape5 arr in
  length (cells5 arr) = a ∧
  Forall (λ block, length block = b ∧
            Forall (λ planes : list (list (list R)), length planes = c ∧
                      Forall (λ plane, length plane = d) planes) block)
    (cells5 arr).

(** [idx] is inside the shape and [res] broadcasts to the row [w]. *)
Definition fits4 (s : nat * nat * nat * nat) (idx : nat * nat * nat)
    (res w : list R) : Prop :=
  let '(a, b, c, d) := s in
  idx.1.1 < a ∧ idx.1.2 < b ∧ idx.2 < c ∧ broadcast d res = inr w.

Definition fits5 (s : nat * nat * nat * nat * nat) (idx : nat * nat * nat)
    (res w : list (list R)) : Prop :=
  let '(a, b, c, d, e) := s in
  idx.1.1 < a ∧ idx.1.2 < b ∧ idx.2 < d ∧ broadcast2 c e res = inr w.

End Numpy.

(* ================================================================== *)
(** ** [pycamtrap/calibration/velocity.py] and [home_range.py] *)

Module Calibration.
Import Effects Numpy.

Section WithModel.
Context {model : Type}.

(** [class Info]: the argument of one task. *)
Record Info := mkInfo {
  info_movement_model : model;
  info_velocity : R;
  info_niche_size : R;
  info_num : nat;
  info_range : R
}.

(** The attributes set by [__init__] of both calibrators. *)
Record Calibrator := mkCalibrator {
  movement_model : model;
  velocities : list R;
  niche_sizes : list R;
  trials_per_world : nat;
  num_worlds : nat;
  range : R
}.

(** The list of tasks built by [calculate_velocity_info] and
    [calculate_hr_info]. *)
Definition task_arguments (self : Calibrator) : list Info :=
  let num := trials_per_world self in
  let mov := movement_model self in
  for3 (velocities self) (niche_sizes self) (xrange (num_worlds self))
    (λ vel nsz k, mkInfo mov vel nsz num (range self)).

(** The index tuples built after the results are in. *)
Definition index_arguments (self : Calibrator)
    : list (nat * nat * nat) :=
  let n_vel := length (velocities self) in
  let n_nsz := length (niche_sizes self) in
  for3 (xrange n_vel) (xrange n_nsz) (xrange (num_worlds self))
    (λ i j k, (i, j, k)).

(** The body shared, line for line, by [calculate_velocity_info] and
    [calculate_hr_info]; [worker] is [get_single_velocity_info] or
    [get_single_hr_info]. *)
Definition calculate_info (self : Calibrator) (how : collect)
    (worker : nat → Info → list R) : M ndarray4 :=
  let n_vel := length (velocities self) in
  let n_nsz := length (niche_sizes self) in
  let all_info :=
    zeros4 n_vel n_nsz (num_worlds self) (trials_per_world self) in
  let arguments := task_arguments self in
  emit Pool_create;;
  results ← try_except_KeyboardInterrupt
    (results ← pool_map how worker arguments;
     emit Pool_close;;
     emit Pool_join;;
     mret results)
    (emit Pool_terminate;;
     (sys_exit : M ());;
     quit);
  let arguments := index_arguments self in
  lift (write_all setitem4 (zip arguments results) all_info).

End WithModel.

Global Arguments Info : clear implicits.
Global Arguments Calibrator : clear implicits.

End Calibration.

Module Velocity.
Import Effects Numpy Calibration.

Section WithModel.
Context {model : Type}.

(** [VelocityCalibrator.__init__] with every argument given. *)
Definition VelocityCalibrator (movement_model : model)
    (velocities niche_sizes : list R) (trials_per_world num_worlds : nat)
    (range : R) : Calibrator model :=
  {| movement_model := movement_model;
     velocities := velocities;
     niche_sizes := niche_sizes;
     trials_per_world := trials_per_world;
     num_worlds := num_worlds;
     range := range |}.

Definition calculate_velocity_info (self : Calibrator model)
    (how : collect) (get_single_velocity_info : nat → Info model → list R)
    : M ndarray4 :=
  calculate_info self how get_single_velocity_info.

End WithModel.
End Velocity.

Module HomeRange.
Import Effects Numpy Calibration.

Definition TRIALS_PER_WORLD : nat := 1000.
Definition NUM_WORLDS : nat := 10.

Section WithModel.
Context {model : Type}.

(** [HomeRangeCalibrator.__init__] with every argument given: the two
    counts are set from the module constants. *)
Definition HomeRangeCalibrator (movement_model : model)
    (velocities niche_sizes : list R) (trials_per_world num_worlds : nat)
    (range : R) : Calibrator model :=
  {| movement_model := movement_model;
     velocities := velocities;
     niche_sizes := niche_sizes;
     Calibration.trials_per_world := TRIALS_PER_WORLD;
     Calibration.num_worlds := NUM_WORLDS;
     range := range |}.

Definition calculate_hr_info (self : Calibrator model)
    (how : collect) (get_single_hr_info : nat → Info model → list R)
    : M ndarray4 :=
  calculate_info self how get_single_hr_info.

End WithModel.
End HomeRange.

(* ================================================================== *)
(** ** [ollin/calibration/occupancy.py] *)

Module Occupancy.
Import Effects Numpy NumpyFloat.

(** The merged configuration dictionary, one field per key read. *)
Record Config := mkConfig {
  trials_per_world : nat;
  max_individuals : nat;
  niche_sizes : list R;
  home_ranges : list R;
  num_worlds : nat;
  nums : list nat;
  season : nat;
  range : R * R
}.

(** [enumerate(l)] *)
Definition enumerate {A} (l : list A) : list (nat * A) := imap pair l.

(** The dictionary returned by [fit]. *)
Record FittedParameters := mkFitted {
  alpha : xreal;
  hr_exp : xreal;
  density_exp : xreal;
  niche_size_exp : xreal
}.

(** The rows of the design matrix and the targets contributed by one
    iteration of the loops of [fit], from its block [oc_data]. *)
Definition fit_block (loop : (nat * R) * (nat * xreal) * (nat * xreal))
    (oc_data : list R)
    : list (xreal * xreal * xreal) * list xreal :=
  let '((_, nsz), (_, hr), (_, dens)) := loop in
  (zip (zip (xlog <$> ((λ _, hr) <$> oc_data))
            (xlog <$> ((λ _, dens) <$> oc_data)))
       (xlog <$> ((λ _, Fin nsz) <$> oc_data)),
   (λ y, logit (Fin y)) <$> oc_data).

Section WithModel.
(** The movement model, the simulated movement, and the two external
    collaborators of a task: the simulator ([ollin.Site.make_random]
    followed by [ollin.Movement.simulate], on the random stream of the
    task in position [p]) and the occupancy of the sample drawn in
    iteration [(n, k)] ([mov.sample(num)] followed by
    [ollin.Occupancy(submov).occupancy]). *)
Context {model movement : Type}.
Variable simulate : nat → R → R * R → nat → R → nat → model → movement.
Variable sample_occupancy : movement → nat → nat → nat → R.

Record OccupancyCalibrator := mkOccupancyCalibrator {
  config : Config;
  movement_model : model
}.

(** [_get_single_oc_info]: the [[n_nums, trials]] array of occupancies. *)
Definition _get_single_oc_info (p : nat) (args : R * R) (model : model)
    (range_ : R * R) (season trials max_individuals : nat)
    (nums : list nat) : list (list R) :=
  let '(home_range, niche_size) := args in
  let mov :=
    simulate p niche_size range_ max_individuals home_range season model in
  imap (λ n num, (λ k, sample_occupancy mov n k num) <$> xrange trials)
    nums.

Definition task_arguments (self : OccupancyCalibrator) : list (R * R) :=
  for3 (home_ranges (config self)) (niche_sizes (config self))
    (xrange (num_worlds (config self)))
    (λ home_range niche_size k, (home_range, niche_size)).

Definition index_arguments (self : OccupancyCalibrator)
    : list (nat * nat * nat) :=
  for3 (xrange (length (home_ranges (config self))))
    (xrange (length (niche_sizes (config self))))
    (xrange (num_worlds (config self)))
    (λ i j k, (i, j, k)).

(** The task in position [p], as handed to the pool through [partial]. *)
Definition worker (self : OccupancyCalibrator) (p : nat) (args : R * R)
    : list (list R) :=
  _get_single_oc_info p args (movement_model self)
    (range (config self)) (season (config self))
    (trials_per_world (config self)) (max_individuals (config self))
    (nums (config self)).

Definition calculate_oc_info (self : OccupancyCalibrator)
    (how : collect) : M ndarray5 :=
  let num_niches := length (niche_sizes (config self)) in
  let num_home_ranges := length (home_ranges (config self)) in
  let num_densities := length (nums (config self)) in
  let all_info :=
    zeros5 num_home_ranges num_niches num_densities
      (num_worlds (config self)) (trials_per_world (config self)) in
  let arguments := task_arguments self in
  emit Pool_create;;
  results ← try_except_KeyboardInterrupt
    (results ← pool_map_async_get how (worker self) arguments;
     emit Pool_close;;
     emit Pool_join;;
     mret results)
    (emit Pool_terminate;;
     raise KeyboardInterrupt);
  let arguments := index_arguments self in
  lift (write_all setitem5 (zip arguments results) all_info).

(** The three nested loops of [fit], in iteration order. *)
Definition fit_loops (self : OccupancyCalibrator)
    : list ((nat * R) * (nat * xreal) * (nat * xreal)) :=
  let area := ((range (config self)).1 * (range (config self)).2)%R in
  let density :=
    (λ n : nat, xdiv (Fin (INR n)) (Fin area)) <$> nums (config self) in
  let hr_proportions :=
    (λ hr, xdiv (Fin hr) (Fin area)) <$> home_ranges (config self) in
  for3 (enumerate (niche_sizes (config self)))
    (enumerate hr_proportions) (enumerate density)
    (λ nsz hr dens, (nsz, hr, dens)).

(** The blocks [oc_data = data[j, i, k, :, :].ravel()], one per
    iteration. *)
Definition fit_samples (self : OccupancyCalibrator) (data : ndarray5)
    : result (list (list R)) :=
  mapM (λ '((i, _), (j, _), (k, _)), ravel5 j i k data)
    (fit_loops self).

(** [np.concatenate(blocks, 0)]: at least one block is needed. *)
Definition concatenate {A} (blocks : list (list A)) : result (list A) :=
  match blocks with
  | [] => inl ValueError
  | _ => inr (concat blocks)
  end.

(** [fit] up to the call [lrm.fit(X, Y)]: the design matrix and the
    target vector handed to the regression. *)
Definition fit_inputs (self : OccupancyCalibrator) (data : ndarray5)
    : result (list (xreal * xreal * xreal) * list xreal) :=
  blocks ← mapM (λ '((i, nsz), (j, hr), (k, dens)),
              oc_data ← ravel5 j i k data;
              let hr_data := (λ _, hr) <$> oc_data in
              let dens_data := (λ _, dens) <$> oc_data in
              let nsz_data := (λ _, Fin nsz) <$> oc_data in
              mret (zip (zip (xlog <$> hr_data) (xlog <$> dens_data))
                      (xlog <$> nsz_data),
                    (λ y, logit (Fin y)) <$> oc_data))
            (fit_loops self);
  X ← concatenate (blocks.*1);
  Y ← concatenate (blocks.*2);
  mret (X, Y).

(** [fit], given the least-squares solver of [LinearRegression]. *)
Definition fit (self : OccupancyCalibrator) (data : ndarray5)
    (lrm_fit : list (xreal * xreal * xreal) → list xreal →
               result (xreal * (xreal * xreal * xreal)))
    : result FittedParameters :=
  '(X, Y) ← fit_inputs self data;
  '(intercept_, coef_) ← lrm_fit X Y;
  mret {| alpha := intercept_; hr_exp := coef_.1.1;
          density_exp := coef_.1.2; niche_size_exp := coef_.2 |}.

End WithModel.

Global Arguments OccupancyCalibrator : clear implicits.

End Occupancy.

(* ================================================================== *)
(** ** Parameter dictionaries *)

Module Params.

(** Reading a dictionary: a missing key raises KeyError, the other failure
    of the scaling laws is a float result that is not a finite real (an
    exception on Python scalars, an infinity or NaN on numpy values). *)
Inductive error : Set :=
| KeyError (key : string)
| NotFinite.

Definition getitem {V} (d : gmap string V) (key : string) : error + V :=
  match d !! key with
  | Some v => inr v
  | None => inl (KeyError key)
  end.

End Params.

(* ================================================================== *)
(** ** [pycamtrap/core/utils.py]: normalisation and scaling laws *)

Module ScalingLaws.
Import Numeric Params.

(** A scaling law either raises or returns a finite real. *)
Definition law : Type → Type := sum error.

Global Instance law_ret : MRet law := λ A a, inr a.
Global Instance law_bind : MBind law := λ A B f m,
  match m with inl e => inl e | inr a => f a end.

Definition finite (o : option R) : law R :=
  match o with Some r => inr r | None => inl NotFinite end.

(** [np.power(x, y)] and [x ** y] *)
Definition power (x y : R) : law R := finite (math_pow x y).

(** [x / y] *)
Definition divide (x y : R) : law R := finite (fdiv x y).

(** [array.max()] and [array.min()]: a zero-size array has neither. *)
Definition amax (array : list R) : option R :=
  match array with
  | [] => None
  | x :: rest => Some (foldr Rmax x rest)
  end.

Definition amin (array : list R) : option R :=
  match array with
  | [] => None
  | x :: rest => Some (foldr Rmin x rest)
  end.

(** [normalize] *)
Definition normalize (array : list R) : option (list R) :=
  hi ← amax array;
  lo ← amin array;
  let extent := (hi - lo)%R in
  if Req_dec_T extent 0 then Some ((λ _, 0.5 * 1)%R <$> array)
  else lo' ← amin array; Some ((λ x, (x - lo') / extent)%R <$> array).

(** [home_range_to_velocity] *)
Definition home_range_to_velocity (home_range : R)
    (parameters : gmap string (gmap string R)) : law R :=
  exponent ← getitem parameters "home_range" ≫= (λ d, getitem d "exponent");
  alpha ← getitem parameters "home_range" ≫= (λ d, getitem d "alpha");
  p ← power home_range exponent;
  mret (alpha * p)%R.

(** [velocity_to_home_range] *)
Definition velocity_to_home_range (velocity : R)
    (parameters : gmap string (gmap string R)) : law R :=
  exponent ← getitem parameters "home_range" ≫= (λ d, getitem d "exponent");
  alpha ← getitem parameters "home_range" ≫= (λ d, getitem d "alpha");
  q ← divide velocity alpha;
  inv ← divide 1 exponent;
  power q inv.

(** [density] *)
Definition density (occupancy home_range niche_size : R) (range : R * R)
    (parameters : gmap string R) : law R :=
  alpha ← getitem parameters "alpha";
  beta ← getitem parameters "beta";
  hr_exp ← getitem parameters "hr_exp";
  occ_exp_a ← getitem parameters "occ_exp_a";
  occ_exp_b ← getitem parameters "occ_exp_b";
  let occ_exp := (occ_exp_a * niche_size + occ_exp_b)%R in
  let prop := exp (alpha * niche_size + beta) in
  let area := (range.1 * range.2)%R in
  hr_per ← divide home_range area;
  a ← power occupancy occ_exp;
  b ← power hr_per hr_exp;
  divide (prop * a) b.

(** [density_to_occupancy] *)
Definition density_to_occupancy (density home_range niche_size : R)
    (range : R * R) (parameters : gmap string R) : law R :=
  alpha ← getitem parameters "alpha";
  beta ← getitem parameters "beta";
  hr_exp ← getitem parameters "hr_exp";
  occ_exp_a ← getitem parameters "occ_exp_a";
  occ_exp_b ← getitem parameters "occ_exp_b";
  let occ_exp := (occ_exp_a * niche_size + occ_exp_b)%R in
  let prop := exp (alpha * niche_size + beta) in
  let area := (range.1 * range.2)%R in
  hr_per ← divide home_range area;
  a ← power density occ_exp;
  b ← power hr_per hr_exp;
  mret (Utils.sigmoid (prop * a * b)).

(** [velocity_modification] *)
Definition velocity_modification (niche_size : R)
    (parameters : gmap string (gmap string R)) : law R :=
  alpha ← getitem parameters "velocity" ≫= (λ d, getitem d "alpha");
  beta ← getitem parameters "velocity" ≫= (λ d, getitem d "beta");
  mret (beta + alpha * niche_size)%R.

End ScalingLaws.

(* ================================================================== *)
(** ** [constant_brownian.py]: the default parameters of the model *)

Module BrownianModel.

(** [Model.default_parameters] *)
Definition default_parameters : gmap string (gmap string R) :=
  {[ "velocity" := {[ "beta" := 1.05%R; "alpha" := 0%R ]};
     "home_range" := {[ "alpha" := 35.0%R; "exponent" := 0.54%R ]};
     "density" := {[ "alpha" := 0.0%R; "beta" := 22.0%R; "hr_exp" := 1.2%R;
                     "den_exp_a" := 1.75%R; "den_exp_b" := 1.75%R ]};
     "movement" := ∅ ]}.

End BrownianModel.

(* ================================================================== *)
(** ** Reading a trajectory *)

Module Trajectory.
Import Movement.

(** [movement[j, k, :]] *)
Definition recorded {P} (traj : list (list P)) (j k : nat) : option P :=
  row ← traj !! j; row !! k.

(** An array of shape [[num, steps, 2]]. *)
Definition has_shape {P} (num steps : nat) (traj : list (list P)) : Prop :=
  length traj = num ∧ Forall (λ row, length row = steps) traj.

End Trajectory.

(* ================================================================== *)
(** ** [pycamtrap/core/movement.py]: [MovementData.make_data] *)

Module MovementData.
Import Numeric ScalingLaws Movement.

(** The attributes of the initial conditions read by [make_data]. *)
Record InitialData := mkInitialData {
  initial_points : list (R * R);
  kde_approximation : heatmap_t;
  resolution : R;
  num : nat;
  velocity : R;
  range : R
}.

(** [heatmap.max()] of the two-dimensional array. *)
Definition heatmap_max (heatmap : heatmap_t) : option R :=
  amax (concat heatmap).

(** [heatmap / m], cell by cell, for a non-zero [m]. *)
Definition divide_cells (m : R) (heatmap : heatmap_t) : heatmap_t :=
  (λ row : list R, (λ v, v / m)%R <$> row) <$> heatmap.

(** [heatmap / heatmap.max()]: there is no real-valued result when the
    array is empty or its maximum is zero. *)
Definition normalize_heatmap (heatmap : heatmap_t) : option heatmap_t :=
  m ← heatmap_max heatmap;
  if Req_dec_T m 0 then None else Some (divide_cells m heatmap).

(** [make_data]: the kernel run on the normalised heatmap. *)
Definition make_data (random_angles rand : nat → nat → R)
    (stray : nat → nat → NumpyFloat.xreal)
    (initial_data : InitialData) (days steps_per_day : nat)
    : option (list (list position)) :=
  let random_positions := point <$> initial_points initial_data in
  heatmap ← normalize_heatmap (kde_approximation initial_data);
  _movement random_angles rand stray (cells heatmap) random_positions
    (resolution initial_data) (num initial_data) (velocity initial_data)
    (range initial_data) days steps_per_day.

End MovementData.

(* ================================================================== *)
(** ** [pycamtrap/calibration/occupancy.py] *)

Module OccupancyGrid.
Import Effects Numpy.

(** [[f x y z w for x in xs for y in ys for z in zs for w in ws]] *)
Definition for4 {A B C D E} (xs : list A) (ys : list B) (zs : list C)
    (ws : list D) (f : A → B → C → D → E) : list E :=
  x ← xs; y ← ys; z ← zs; w ← ws; [f x y z w].

(** [arr[i, j, l, k, :] = res] *)
Definition setitem5_row (idx : nat * nat * nat * nat) (res : list R)
    (arr : ndarray5) : result ndarray5 :=
  let '(i, j, l, k) := idx in
  let '(a, b, c, d, e) := shape5 arr in
  if decide (i < a ∧ j < b ∧ l < c ∧ k < d) then
    row ← broadcast e res;
    inr {| shape5 := shape5 arr;
           cells5 :=
             alter (alter (alter (<[k := row]>) l) j) i (cells5 arr) |}
  else inl IndexError.

(** [arr[i, j, l, k, :]] *)
Definition getitem5_row (idx : nat * nat * nat * nat) (arr : ndarray5)
    : option (list R) :=
  let '(i, j, l, k) := idx in
  block ← cells5 arr !! i; planes ← block !! j;
  plane ← planes !! l; plane !! k.

(** [idx] is inside the shape and [res] broadcasts to the row [w]. *)
Definition fits5_row (s : nat * nat * nat * nat * nat)
    (idx : nat * nat * nat * nat) (res w : list R) : Prop :=
  let '(a, b, c, d, e) := s in
  idx.1.1.1 < a ∧ idx.1.1.2 < b ∧ idx.1.2 < c ∧ idx.2 < d ∧
  broadcast e res = inr w.

Section WithModel.
Context {model : Type}.

(** [class Info]: the argument of one task. *)
Record Info := mkInfo {
  info_movement_model : model;
  info_home_range : R;
  info_niche_size : R;
  info_num : nat;
  info_trials : nat;
  info_range : R
}.

(** The attributes set by [OccupancyCalibrator.__init__]. *)
Record OccupancyCalibrator := mkOccupancyCalibrator {
  movement_model : model;
  home_ranges : list R;
  niche_sizes : list R;
  nums : list nat;
  trials_per_world : nat;
  num_worlds : nat;
  range : R
}.

Definition task_arguments (self : OccupancyCalibrator) : list Info :=
  let tpw := trials_per_world self in
  let mov := movement_model self in
  for4 (home_ranges self) (niche_sizes self) (nums self)
    (xrange (num_worlds self))
    (λ hr nsz num k, mkInfo mov hr nsz num tpw (range self)).

Definition index_arguments (self : OccupancyCalibrator)
    : list (nat * nat * nat * nat) :=
  let n_hr := length (home_ranges self) in
  let n_nsz := length (niche_sizes self) in
  let n_num := length (nums self) in
  for4 (xrange n_hr) (xrange n_nsz) (xrange n_num)
    (xrange (num_worlds self)) (λ i j l k, (i, j, l, k)).

(** [calculate_oc_info]; [worker] is [get_single_oc_info]. *)
Definition calculate_oc_info (self : OccupancyCalibrator) (how : collect)
    (worker : nat → Info → list R) : M ndarray5 :=
  let n_hr := length (home_ranges self) in
  let n_nsz := length (niche_sizes self) in
  let n_num := length (nums self) in
  let tpw := trials_per_world self in
  let nw := num_worlds self in
  let all_info := zeros5 n_hr n_nsz n_num nw tpw in
  let arguments := task_arguments self in
  emit Pool_create;;
  results ← try_except_KeyboardInterrupt
    (results ← pool_map how worker arguments;
     emit Pool_close;;
     emit Pool_join;;
     mret results)
    (emit Pool_terminate;;
     (sys_exit : M ());;
     quit);
  let arguments := index_arguments self in
  lift (write_all setitem5_row (zip arguments results) all_info).

End WithModel.

Global Arguments Info : clear implicits.
Global Arguments OccupancyCalibrator : clear implicits.

End OccupancyGrid.

(* ================================================================== *)
(** ** The samples of one grid cell of the occupancy calibration *)

Module OccupancyCell.
Import Numpy Occupancy.

Section WithModel.
Context {model movement : Type}.
Variable simulate : nat → R → R * R → nat → R → nat → model → movement.
Variable sample_occupancy : movement → nat → nat → nat → R.

(** The occupancies sampled for the [a]-th home range, the [b]-th niche
    size and the [c]-th population size: for every world [w], in order, the
    [trials_per_world] samples of the task submitted in position
    [(a * n_niches + b) * num_worlds + w]. *)
Definition occupancies_of_cell (self : OccupancyCalibrator model)
    (a b c : nat) : list R :=
  let cfg := config self in
  match home_ranges cfg !! a, niche_sizes cfg !! b, nums cfg !! c with
  | Some home_range, Some niche_size, Some num =>
      w ← xrange (num_worlds cfg);
      t ← xrange (trials_per_world cfg);
      [sample_occupancy
         (simulate ((a * length (niche_sizes cfg) + b) * num_worlds cfg + w)
            niche_size (range cfg) (max_individuals cfg) home_range
            (season cfg) (movement_model self))
         c t num]
  | _, _, _ => []
  end.

End WithModel.
End OccupancyCell.

(* ================================================================== *)
(** ** [pycamtrap/calibration/velocity.py]: [VelocityCalibrator.fit] *)

Module VelocityFit.
Import Effects Numpy Calibration.

Section WithModel.
Context {model : Type}.

(** [velocity_info[:, num, :, :]]: the index must be inside the second
    axis. *)
Definition niche_slice (num : nat) (velocity_info : ndarray4) : result () :=
  let '(a, b, c, d) := shape4 velocity_info in
  if decide (num < b) then inr () else inl IndexError.

(** [data[k, :, :].ravel()] of that slice. *)
Definition ravel4 (k num : nat) (velocity_info : ndarray4)
    : result (list R) :=
  match (block ← cells4 velocity_info !! k; block !! num) with
  | Some plane => inr (concat plane)
  | None => inl IndexError
  end.

(** One iteration of the loop over the niche sizes, up to [Y, X = data.T]:
    the simulated velocities [X] and the target velocities [Y]. *)
Definition fit_niche (self : Calibrator model) (velocity_info : ndarray4)
    (num : nat) : result (list R * list R) :=
  _ ← niche_slice num velocity_info;
  concat_ ← mapM (λ '(k, vel),
                vdata ← ravel4 k num velocity_info;
                mret (zip ((λ _, vel * 1)%R <$> vdata) vdata))
             (Occupancy.enumerate (velocities self));
  data ← Occupancy.concatenate concat_;
  let Y := data.*1 in
  let X := data.*2 in
  mret (X, Y).

(** [fit], given the least-squares solver without intercept: one
    coefficient per niche size. *)
Definition fit (self : Calibrator model) (velocity_info : ndarray4)
    (lrm_fit : list R → list R → result R) : result (list R) :=
  mapM (λ '(num, niche_size),
          '(X, Y) ← fit_niche self velocity_info num;
          lrm_fit X Y)
    (Occupancy.enumerate (niche_sizes self)).

(** The velocities simulated for the [k]-th velocity and the [n]-th niche
    size: the results of the tasks of that grid cell, world after world. *)
Definition simulated_velocities (self : Calibrator model)
    (worker : nat → Info model → list R) (k n : nat) : list R :=
  match velocities self !! k, niche_sizes self !! n with
  | Some vel, Some nsz =>
      w ← xrange (num_worlds self);
      worker ((k * length (niche_sizes self) + n) * num_worlds self + w)
        (mkInfo (movement_model self) vel nsz (trials_per_world self)
           (range self))
  | _, _ => []
  end.

End WithModel.
End VelocityFit.

(* ================================================================== *)
(** ** Link functions are mutual inverses *)

Section LinkFunctions.
Import Utils.
Local Open Scope R_scope.

Lemma sigmoid_logit (y : R) : 0 < y < 1 → sigmoid (logit y) = y.
Proof.
  intros [Hy0 Hy1]. unfold sigmoid, logit.
  assert (Hpos : 0 < 1 / y - 1).
  { apply Rlt_0_minus. rewrite <- Rdiv_1_r at 1.
    unfold Rdiv. rewrite !Rmult_1_l.
    rewrite <- Rinv_1 at 1. apply Rinv_lt_contravar; lra. }
  rewrite Ropp_involutive, exp_ln by exact Hpos.
  field. lra.
Qed.

Lemma logit_sigmoid (x : R) : logit (sigmoid x) = x.
Proof.
  unfold sigmoid, logit.
  assert (He : 0 < exp (- x)) by apply exp_pos.
  replace (1 / (1 / (1 + exp (- x))) - 1) with (exp (- x)) by (field; lra).
  rewrite ln_exp. lra.
Qed.

(** C10: over exact real arithmetic [sigmoid] and [logit] are mutual
    inverses: [sigmoid (logit y) = y] for every [0 < y < 1], and
    [logit (sigmoid x) = x] for every real [x]. *)
Theorem link_functions_inverse :
  (∀ y : R, 0 < y < 1 → sigmoid (logit y) = y) ∧
  (∀ x : R, logit (sigmoid x) = x).
Proof. split; [exact sigmoid_logit | exact logit_sigmoid]. Qed.

Lemma link_functions_inverse_witness :
  0 < 1 / 2 < 1 ∧ sigmoid (logit (1 / 2)) = 1 / 2.
Proof.
  split; [lra |].
  apply (proj1 link_functions_inverse). lra.
Defined.

End LinkFunctions.

(* ================================================================== *)
(** ** The boundary rule *)

Section BoundaryRule.
Import Numeric Boundary Habitat.
Local Open Scope R_scope.

Lemma fmod_eq (a b : R) (q : Z) :
  0 < b → IZR q * b <= a < (IZR q + 1) * b →
  fmod a b = Some (a - IZR q * b).
Proof.
  intros Hb [Hlo Hhi]. unfold fmod.
  destruct (Req_dec_T b 0) as [->|_]; [lra |].
  replace (Zfloor (a / b)) with q; [done |].
  symmetry. apply Zfloor_eq.
  assert (Ha : a / b * b = a) by (field; lra).
  split.
  - apply Rmult_le_reg_r with b; lra.
  - apply Rmult_lt_reg_r with b; lra.
Qed.

Lemma fmod_bounds (a b : R) :
  0 < b → ∃ r, fmod a b = Some r ∧ 0 <= r < b.
Proof.
  intros Hb. unfold fmod.
  destruct (Req_dec_T b 0) as [->|_]; [lra |].
  eexists; split; [reflexivity |].
  destruct (Zfloor_bound (a / b)) as [Hlo Hhi].
  assert (Ha : a / b * b = a) by (field; lra).
  assert (Hl : IZR (Zfloor (a / b)) * b <= a / b * b)
    by (apply Rmult_le_compat_r; lra).
  assert (Hu : a / b * b < (IZR (Zfloor (a / b)) + 1) * b)
    by (apply Rmult_lt_compat_r; lra).
  lra.
Qed.

Lemma fmod_small (a b : R) : 0 <= a < b → fmod a b = Some a.
Proof.
  intros [Hlo Hhi]. rewrite (fmod_eq a b 0); [f_equal; lra | lra | lra].
Qed.

Lemma reflect_bounds (x r : R) :
  0 < r → ∃ y, reflect x r = Some y ∧ 0 <= y < r.
Proof.
  intros Hr. unfold reflect.
  destruct (fmod_bounds x (2 * r)) as (t & -> & Ht); [lra |]. simpl.
  destruct (Rlt_dec t r); apply fmod_bounds; lra.
Qed.

Lemma reflect_id (x r : R) : 0 <= x < r → reflect x r = Some x.
Proof.
  intros Hx. unfold reflect.
  rewrite fmod_small by lra. simpl.
  destruct (Rlt_dec x r); [| lra]. by apply fmod_small.
Qed.

Lemma reflect_far_edge (x r : R) :
  r < x < 2 * r → reflect x r = Some (2 * r - x).
Proof.
  intros Hx. unfold reflect.
  rewrite fmod_small by lra. simpl.
  destruct (Rlt_dec x r); [lra |].
  rewrite (fmod_eq (- x) r (-2)); [f_equal; lra | lra | lra].
Qed.

Lemma reflect_spec (x r : R) :
  0 < r → ∃ y, reflect x r = Some y ∧ reflects x r y.
Proof.
  intros Hr. destruct (reflect_bounds x r Hr) as (y & Hy & Hb).
  exists y. split; [done |]. split; [done |]. split; intros Hx.
  - rewrite reflect_id in Hy by done. congruence.
  - rewrite reflect_far_edge in Hy by done. congruence.
Qed.

(** C2: for every real proposed coordinate and every positive extent the
    boundary rule returns a value in [[0, r)], is the identity on
    [[0, r)] and sends every [x] strictly between [r] and [2r] to
    [2r - x]; the two axes are mapped independently, each against its own
    extent. *)
Theorem boundary_rule (x y rx ry : R) :
  0 < rx → 0 < ry →
  ∃ x' y', remap (x, y) rx ry = Some (x', y') ∧
           reflect x rx = Some x' ∧ reflect y ry = Some y' ∧
           reflects x rx x' ∧ reflects y ry y'.
Proof.
  intros Hrx Hry.
  destruct (reflect_spec x rx Hrx) as (x' & Hx & Hsx).
  destruct (reflect_spec y ry Hry) as (y' & Hy & Hsy).
  exists x', y'. unfold remap. simpl. rewrite Hx, Hy. done.
Qed.

Lemma boundary_rule_witness :
  ∃ x' y', remap (25, 3) 20 10 = Some (x', y') ∧
           reflect 25 20 = Some x' ∧ reflect 3 10 = Some y' ∧
           reflects 25 20 x' ∧ reflects 3 10 y'.
Proof. apply (boundary_rule 25 3 20 10); lra. Defined.

End BoundaryRule.

(* ================================================================== *)
(** ** The step-length draw of the heatmap-weighted kernel *)

Section StepLength.
Import Numeric Movement.
Local Open Scope R_scope.

Lemma exponent_gt_1 (v : R) : 0 <= v → 1 < exponent_of v.
Proof. unfold exponent_of. lra. Qed.

Lemma divisor_positive (e u : R) :
  1 < e → u < 1 →
  divisor e u = Some (Rpower (1 - u) (1 / e) * e) ∧
  0 < Rpower (1 - u) (1 / e) * e.
Proof.
  intros He Hu. unfold divisor, fdiv, math_pow.
  destruct (Req_dec_T e 0) as [->|_]; [lra |]. simpl.
  destruct (Rlt_dec 0 (1 - u)); [| lra]. simpl.
  split; [done |].
  apply Rmult_lt_0_compat; [apply exp_pos | lra].
Qed.

Lemma magnitude_defined (velocity v u : R) :
  0 <= v → u < 1 →
  magnitude velocity v u
  = Some (velocity * (exponent_of v - 1)
          / (Rpower (1 - u) (1 / exponent_of v) * exponent_of v)).
Proof.
  intros Hv Hu.
  destruct (divisor_positive (exponent_of v) u) as [Hd Hpos];
    [by apply exponent_gt_1 | done |].
  unfold magnitude. rewrite Hd. simpl.
  unfold fdiv. destruct (Req_dec_T _ 0) as [E|_]; [lra | done].
Qed.

(** C8: for a suitability value [0 <= v <= 1] and a uniform draw
    [0 <= u < 1] the exponent [1.1 + 0.9 v] is strictly above 1, the
    divisor [(1-u)^(1/exponent) * exponent] is strictly positive, and the
    magnitude is defined with no runtime guard. *)
Theorem magnitude_well_defined (velocity v u : R) :
  0 <= v <= 1 → 0 <= u < 1 →
  let exponent := exponent_of v in
  1 < exponent ∧
  ∃ d, divisor exponent u = Some d ∧
       d = Rpower (1 - u) (1 / exponent) * exponent ∧
       0 < d ∧
       magnitude velocity v u = Some (velocity * (exponent - 1) / d).
Proof.
  intros Hv Hu exponent.
  assert (He : 1 < exponent) by (apply exponent_gt_1; lra).
  split; [done |].
  destruct (divisor_positive exponent u) as [Hd Hpos]; [done | lra |].
  eexists; split; [exact Hd |]. split; [done |]. split; [done |].
  apply magnitude_defined; lra.
Qed.

Lemma magnitude_well_defined_witness :
  1 < exponent_of (1 / 2) ∧
  ∃ d, divisor (exponent_of (1 / 2)) (1 / 4) = Some d ∧
       d = Rpower (1 - 1 / 4) (1 / exponent_of (1 / 2))
           * exponent_of (1 / 2) ∧
       0 < d ∧
       magnitude 3 (1 / 2) (1 / 4)
       = Some (3 * (exponent_of (1 / 2) - 1) / d).
Proof. apply (magnitude_well_defined 3 (1 / 2) (1 / 4)); lra. Defined.

End StepLength.

(* ================================================================== *)
(** ** The grid lookup of the heatmap-weighted kernel *)

Section GridLookup.
Import Numeric Movement Habitat.
Local Open Scope R_scope.

Lemma int_IZR (z : Z) : int (IZR z) = z.
Proof.
  unfold int. destruct (Rle_dec 0 (IZR z)).
  - apply ZfloorZ.
  - unfold Zceil. rewrite <- opp_IZR, ZfloorZ. lia.
Qed.

(** The cell of a coordinate in [[0, range)] when [n] cells of width
    [resolution] cover the extent. *)
Lemma cell_in_range (p resolution range_ : R) (n : nat) :
  0 < resolution → 0 <= p < range_ → range_ <= INR n * resolution →
  ∃ i : nat, floordiv p resolution = Some (IZR (Z.of_nat i)) ∧ (i < n)%nat.
Proof.
  intros Hres [Hp0 Hp1] Hcover. unfold floordiv.
  destruct (Req_dec_T resolution 0) as [->|_]; [lra |].
  destruct (Zfloor_bound (p / resolution)) as [Hlo Hhi].
  assert (Hq : p / resolution * resolution = p) by (field; lra).
  assert (H0 : (0 <= Zfloor (p / resolution))%Z).
  { apply Zfloor_lub. simpl.
    apply Rmult_le_reg_r with resolution; lra. }
  assert (Hn : (Zfloor (p / resolution) < Z.of_nat n)%Z).
  { apply lt_IZR. rewrite <- INR_IZR_INZ.
    apply Rle_lt_trans with (p / resolution); [done |].
    apply Rmult_lt_reg_r with resolution; lra. }
  exists (Z.to_nat (Zfloor (p / resolution))).
  rewrite Z2Nat.id by done. split; [done | lia].
Qed.

Lemma wrap_index_nat (len i : nat) :
  (i < len)%nat → wrap_index len (Z.of_nat i) = Some i.
Proof.
  intros Hi. unfold wrap_index.
  destruct (Z.ltb_spec (Z.of_nat i) 0); [lia |].
  destruct (Z.leb_spec 0 (Z.of_nat i)); [| lia].
  destruct (Z.ltb_spec (Z.of_nat i) (Z.of_nat len)); [| lia].
  simpl. by rewrite Nat2Z.id.
Qed.

(** The lookup made at position [(5, 5)] in a habitat of extent 20 with a
    one-cell heatmap of resolution 1: the index is [(5, 5)], outside the
    grid. *)
Lemma grid_lookup_not_total :
  0 <= 5 < 20 ∧ 0 < 1 ∧
  grid_index (5, 5) 1 = Some (5%Z, 5%Z) ∧
  wrap_index (length [[1]]) 5 = None ∧
  lookup_value [[1]] (5, 5) 1 = None.
Proof.
  assert (Hf : floordiv 5 1 = Some 5).
  { unfold floordiv. destruct (Req_dec_T 1 0); [lra |].
    replace (5 / 1) with (IZR 5) by lra. by rewrite ZfloorZ. }
  assert (Hg : grid_index (5, 5) 1 = Some (5%Z, 5%Z)).
  { unfold grid_index. simpl. rewrite Hf. simpl. by rewrite int_IZR. }
  split; [lra |]. split; [lra |]. split; [done |]. split; [done |].
  unfold lookup_value. rewrite Hg. reflexivity.
Qed.

(** The lookup at a position of the habitat, on a grid that covers it. *)
Lemma lookup_value_covered (heatmap : heatmap_t) (pos : R * R)
    (resolution range_ : R) (rows cols : nat) :
  0 < resolution → in_habitat range_ range_ pos →
  covers heatmap rows cols resolution range_ →
  ∃ (i j : nat) (row : list R) (value : R),
    grid_index pos resolution = Some (Z.of_nat i, Z.of_nat j) ∧
    (i < rows)%nat ∧ (j < cols)%nat ∧
    heatmap !! i = Some row ∧ row !! j = Some value ∧
    lookup_value heatmap pos resolution = Some value.
Proof.
  intros Hres [Hx Hy] (Hrows & Hcols & Hcr & Hcc).
  destruct (cell_in_range pos.1 resolution range_ rows) as (i & Hi & Hlt);
    [done.. |].
  destruct (cell_in_range pos.2 resolution range_ cols) as (j & Hj & Hjlt);
    [done.. |].
  destruct (lookup_lt_is_Some_2 heatmap i) as [row Hrow]; [lia |].
  assert (Hlen : length row = cols).
  { eapply Forall_lookup_1 in Hcols; [exact Hcols | exact Hrow]. }
  destruct (lookup_lt_is_Some_2 row j) as [value Hvalue]; [lia |].
  exists i, j, row, value.
  assert (Hg : grid_index pos resolution = Some (Z.of_nat i, Z.of_nat j)).
  { unfold grid_index. rewrite Hi, Hj. simpl. by rewrite !int_IZR. }
  repeat (split; [done |]).
  unfold lookup_value, heatmap_get. rewrite Hg.
  cbn [mbind option_bind fst snd].
  rewrite Hrows, (wrap_index_nat rows i) by done.
  cbn [mbind option_bind]. rewrite Hrow.
  cbn [mbind option_bind].
  rewrite Hlen, (wrap_index_nat cols j) by done.
  done.
Qed.

(** C7 (amended): for a position in [[0, range)] on both axes and a
    positive resolution, the index [int(pos // resolution)] is a
    non-negative integer on each axis; it is a valid index of the heatmap,
    and the lookup returns the cell's value, whenever the grid has enough
    rows and columns of width [resolution] to cover the extent.  The kernel
    does not clamp the index. *)
Theorem grid_lookup_in_bounds (heatmap : heatmap_t) (pos : R * R)
    (resolution range_ : R) (rows cols : nat) :
  0 < resolution → in_habitat range_ range_ pos →
  covers heatmap rows cols resolution range_ →
  ∃ (i j : nat) (row : list R) (value : R),
    grid_index pos resolution = Some (Z.of_nat i, Z.of_nat j) ∧
    (i < rows)%nat ∧ (j < cols)%nat ∧
    heatmap !! i = Some row ∧ row !! j = Some value ∧
    lookup_value heatmap pos resolution = Some value.
Proof. apply lookup_value_covered. Qed.

Lemma grid_lookup_in_bounds_witness :
  ∃ (i j : nat) (row : list R) (value : R),
    grid_index (5, 5) 10 = Some (Z.of_nat i, Z.of_nat j) ∧
    (i < 2)%nat ∧ (j < 2)%nat ∧
    [[1; 0]; [0; 1]] !! i = Some row ∧ row !! j = Some value ∧
    lookup_value [[1; 0]; [0; 1]] (5, 5) 10 = Some value.
Proof.
  apply (grid_lookup_in_bounds [[1; 0]; [0; 1]] (5, 5) 10 20 2 2).
  - lra.
  - unfold in_habitat. simpl. lra.
  - unfold covers. simpl. repeat split; try lra. repeat constructor.
Defined.

End GridLookup.

(* ================================================================== *)
(** ** The scale of the constant-brownian draw *)

Section BrownianScale.
Import ConstantBrownian.
Local Open Scope R_scope.

Lemma PI_bounds : 3.14159265358979323 < PI < 3.14159265358979324.
Proof.
  destruct (PI_2_3_7_ineq 10) as [Hlo Hhi].
  unfold sum_f_R0, tg_alt, PI_2_3_7_tg, Ratan_seq in Hlo, Hhi.
  simpl in Hlo, Hhi. split; lra.
Qed.

Lemma sigma_divisor_close :
  Rabs (sigma_divisor - sqrt (PI / 2)) < 1 / 10 ^ 15.
Proof.
  destruct PI_bounds as [Hlo Hhi]. unfold sigma_divisor.
  set (k := 1.2533141373155003).
  assert (Hk : 1.2533 < k < 1.2534) by (unfold k; lra).
  assert (H1 : sqrt (PI / 2) < k + 1 / 10 ^ 15).
  { rewrite <- (sqrt_pow2 (k + 1 / 10 ^ 15)) by lra.
    apply sqrt_lt_1; [lra | apply pow_le; lra |]. unfold k. lra. }
  assert (H2 : k - 1 / 10 ^ 15 < sqrt (PI / 2)).
  { rewrite <- (sqrt_pow2 (k - 1 / 10 ^ 15)) by lra.
    apply sqrt_lt_1; [apply pow_le; lra | lra |]. unfold k. lra. }
  apply Rabs_def1; lra.
Qed.

Lemma sqrt_two_over_PI_lt_1 : 0 < sqrt (2 / PI) < 1.
Proof.
  destruct PI_bounds as [Hlo Hhi].
  assert (H2 : 0 < 2 / PI < 1).
  { split; [apply Rdiv_lt_0_compat; lra |].
    apply Rmult_lt_reg_r with PI; [lra |].
    replace (2 / PI * PI) with 2 by (field; lra). lra. }
  split; [apply sqrt_lt_R0; lra |].
  rewrite <- sqrt_1. apply sqrt_lt_1; lra.
Qed.

(** At velocity 1 the scale of the draw is [1 / 1.2533...], below 1,
    while [1 / sqrt (2 / PI)] is above 1. *)
Lemma sigma_not_over_sqrt_two_over_PI :
  sigma_of 1 ≠ 1 / sqrt (2 / PI) ∧ sigma_of 1 < 1 < 1 / sqrt (2 / PI).
Proof.
  destruct sqrt_two_over_PI_lt_1 as [Hs0 Hs1].
  assert (Hlt : sigma_of 1 < 1).
  { unfold sigma_of, sigma_divisor.
    apply Rmult_lt_reg_r with 1.2533141373155003; [lra |].
    replace (1 / 1.2533141373155003 * 1.2533141373155003) with 1
      by (field; lra). lra. }
  assert (Hgt : 1 < 1 / sqrt (2 / PI)).
  { apply Rmult_lt_reg_r with (sqrt (2 / PI)); [done |].
    replace (1 / sqrt (2 / PI) * sqrt (2 / PI)) with 1 by (field; lra).
    lra. }
  split; [lra | split; done].
Qed.

(** C3 (amended): in the constant-brownian kernel each displacement
    component is drawn as [0 + sigma * z] from a standard normal draw [z],
    with [sigma = w / 1.2533141373155003]; the divisor is [sqrt (PI / 2)]
    to within [1e-15], so the standard deviation is [w * sqrt (2 / PI)],
    about [0.7979 w]. *)
Theorem brownian_sigma (z : nat → nat → nat → R) (w : R) (k j : nat) :
  sigma_of w = w / 1.2533141373155003 ∧
  Rabs (1.2533141373155003 - sqrt (PI / 2)) < 1 / 10 ^ 15 ∧
  directions z (sigma_of w) k j
  = (0 + sigma_of w * z k j 0%nat, 0 + sigma_of w * z k j 1%nat) ∧
  Rabs (sigma_of w - w * sqrt (2 / PI)) <= Rabs w / 10 ^ 15.
Proof.
  split; [done |]. split; [exact sigma_divisor_close |].
  split; [done |].
  pose proof sigma_divisor_close as Hc. unfold sigma_divisor in Hc.
  destruct PI_bounds as [Hlo Hhi].
  unfold sigma_of, sigma_divisor.
  set (c := 1.2533141373155003) in *.
  assert (Hc0 : 1.2533 < c < 1.2534) by (unfold c; lra).
  set (s := sqrt (PI / 2)) in *.
  assert (Hs : 1.2532 < s).
  { apply Rabs_def2 in Hc. lra. }
  assert (Hinv : sqrt (2 / PI) = 1 / s).
  { unfold s. replace (2 / PI) with (/ (PI / 2)) by (field; lra).
    rewrite sqrt_inv. lra. }
  rewrite Hinv.
  replace (w / c - w * (1 / s)) with (w * ((s - c) / (c * s)))
    by (field; lra).
  rewrite Rabs_mult. unfold Rdiv at 2.
  apply Rmult_le_compat_l; [apply Rabs_pos |].
  unfold Rdiv. rewrite Rabs_mult.
  rewrite (Rabs_pos_eq (/ (c * s))).
  2:{ left. apply Rinv_0_lt_compat. nra. }
  rewrite Rabs_minus_sym.
  assert (Hcs : 1 < c * s) by nra.
  assert (Hi : / (c * s) < 1).
  { rewrite <- Rinv_1. apply Rinv_lt_contravar; lra. }
  assert (Hi0 : 0 < / (c * s)) by (apply Rinv_0_lt_compat; lra).
  pose proof (Rabs_pos (c - s)) as Hp.
  unfold Rdiv in Hc. rewrite Rmult_1_l in Hc.
  set (eps := / 10 ^ 15) in *.
  nra.
Qed.

End BrownianScale.

(* ================================================================== *)
(** ** The loop body of the heatmap-weighted kernel *)

Section KernelStep.
Import Numeric Boundary NumpyFloat Movement Habitat.
Local Open Scope R_scope.

Lemma remap_id (rangex rangey : R) (pos : R * R) :
  in_habitat rangex rangey pos → remap pos rangex rangey = Some pos.
Proof.
  intros [Hx Hy]. unfold remap.
  rewrite !reflect_id by done. by destruct pos.
Qed.


Lemma heatmap_get_cells (heatmap : heatmap_t) (a b : Z) :
  heatmap_get (cells heatmap) a b = Fin <$> heatmap_get heatmap a b.
Proof.
  unfold heatmap_get, cells. rewrite length_fmap.
  destruct (wrap_index (length heatmap) a) as [i|]; [| done].
  cbn [mbind option_bind]. rewrite list_lookup_fmap.
  destruct (heatmap !! i) as [row|]; [| done].
  cbn [mbind option_bind fmap option_fmap option_map].
  rewrite length_fmap.
  destruct (wrap_index (length row) b) as [j|]; [| done].
  cbn [mbind option_bind]. by rewrite list_lookup_fmap.
Qed.

(** On a grid that covers the habitat the read of the kernel stays inside
    the grid: it finds the cell of the position, whatever lies outside. *)
Lemma read_covered (heatmap : heatmap_t) (pos : R * R)
    (resolution range_ : R) (rows cols : nat) :
  0 < resolution → in_habitat range_ range_ pos →
  covers heatmap rows cols resolution range_ →
  ∃ (ix iy : R) (row : list R) (value : R),
    floordiv pos.1 resolution = Some ix ∧
    floordiv pos.2 resolution = Some iy ∧
    row ∈ heatmap ∧ value ∈ row ∧
    ∀ stray, read (cells heatmap) stray (Fin ix, Fin iy) = Fin value.
Proof.
  intros Hres [Hx Hy] (Hrows & Hcols & Hcr & Hcc).
  destruct (cell_in_range pos.1 resolution range_ rows) as (i & Hi & Hlt);
    [done.. |].
  destruct (cell_in_range pos.2 resolution range_ cols) as (j & Hj & Hjlt);
    [done.. |].
  destruct (lookup_lt_is_Some_2 heatmap i) as [row Hrow]; [lia |].
  assert (Hlen : length row = cols).
  { eapply Forall_lookup_1 in Hcols; [exact Hcols | exact Hrow]. }
  destruct (lookup_lt_is_Some_2 row j) as [value Hvalue]; [lia |].
  exists (IZR (Z.of_nat i)), (IZR (Z.of_nat j)), row, value.
  split; [done |]. split; [done |].
  split; [by eapply list_elem_of_lookup_2 |].
  split; [by eapply list_elem_of_lookup_2 |].
  intros stray.
  unfold read, cast. cbn [fst snd]. rewrite !int_IZR, heatmap_get_cells.
  unfold heatmap_get.
  rewrite Hrows, (wrap_index_nat rows i) by done.
  cbn [mbind option_bind]. rewrite Hrow.
  cbn [mbind option_bind].
  rewrite Hlen, (wrap_index_nat cols j) by done.
  cbn [mbind option_bind]. by rewrite Hvalue.
Qed.




(** The loop body at a position of numbers, when the value read is a
    number: the step of the real-valued functions. *)
Lemma step_one_point (heatmap : list (list xreal)) (stray : xreal)
    (resolution velocity range_ angle u : R) (pos : R * R) (ix iy v : R) :
  floordiv pos.1 resolution = Some ix →
  floordiv pos.2 resolution = Some iy →
  read heatmap stray (Fin ix, Fin iy) = Fin v →
  step_one heatmap stray resolution velocity range_ angle u (point pos)
  = m ← magnitude velocity v u;
    point <$> remap (pos.1 + m * cos angle, pos.2 + m * sin angle)
                range_ range_.
Proof.
  intros Hx Hy Hv. unfold step_one, point, floordiv64. cbn [fst snd].
  rewrite Hx, Hy. cbn [fmap option_fmap option_map mbind option_bind].
  rewrite Hv. unfold magnitude64.
  destruct (magnitude velocity v u) as [m|]; [| done].
  cbn [fmap option_fmap option_map mbind option_bind xmul xadd reflect64].
  unfold remap. cbn [fst snd].
  destruct (reflect (pos.1 + m * cos angle) range_) as [x|]; [| done].
  cbn [fmap option_fmap option_map mbind option_bind].
  by destruct (reflect (pos.2 + m * sin angle) range_) as [y|].
Qed.

(** With a zero velocity the step length is zero wherever it is defined,
    and it is defined when the exponent is not zero. *)
Lemma magnitude_zero (v u : R) :
  exponent_of v ≠ 0 → 0 <= u < 1 → magnitude 0 v u = Some 0.
Proof.
  intros He Hu. unfold magnitude, divisor, fdiv.
  destruct (Req_dec_T (exponent_of v) 0) as [|_]; [done |].
  cbn [mbind option_bind]. unfold math_pow.
  destruct (Rlt_dec 0 (1 - u)) as [_|]; [| lra].
  cbn [mbind option_bind].
  destruct (Req_dec_T (Rpower (1 - u) (1 / exponent_of v) * exponent_of v) 0)
    as [E|_].
  - apply Rmult_integral in E as [E|E]; [| done].
    unfold Rpower in E. pose proof (exp_pos (1 / exponent_of v * ln (1 - u))).
    lra.
  - f_equal. unfold Rdiv. ring.
Qed.


Lemma step_one_zero_covered (heatmap : heatmap_t) (stray : xreal)
    (rows cols : nat) (resolution range_ angle u : R) (pos : R * R) :
  0 < resolution → covers heatmap rows cols resolution range_ →
  suitability heatmap → 0 <= u < 1 →
  in_habitat range_ range_ pos →
  step_one (cells heatmap) stray resolution 0 range_ angle u (point pos)
  = Some (point pos).
Proof.
  intros Hres Hcov Hsuit Hu Hin.
  destruct (read_covered heatmap pos resolution range_ rows cols)
    as (ix & iy & row & value & Hx & Hy & Hrow & Hval & Hread); [done.. |].
  assert (Hv : 0 <= value <= 1).
  { pose proof (proj1 (Forall_forall _ _) Hsuit row Hrow) as Hr.
    exact (proj1 (Forall_forall _ _) Hr value Hval). }
  rewrite (step_one_point _ _ _ _ _ _ _ _ _ _ value Hx Hy (Hread stray)).
  rewrite magnitude_zero;
    [| pose proof (exponent_gt_1 value (proj1 Hv)); lra | done].
  cbn [mbind option_bind].
  replace (pos.1 + 0 * cos angle) with pos.1 by ring.
  replace (pos.2 + 0 * sin angle) with pos.2 by ring.
  replace (pos.1, pos.2) with pos by (by destruct pos).
  by rewrite remap_id.
Qed.



End KernelStep.

(* ================================================================== *)
(** ** Zero velocity: the trajectory is constant *)

Section ZeroVelocity.
Import Numeric Boundary NumpyFloat Movement Habitat.
Local Open Scope R_scope.

Lemma step_all_defined {P} (step : nat → P → option P) (j0 : nat)
    (positions : list P) :
  (∀ j pos, positions !! j = Some pos →
            step (j0 + j)%nat pos = Some pos) →
  step_all step j0 positions = Some positions.
Proof.
  revert j0. induction positions as [|pos rest IH]; intros j0 Hst.
  - done.
  - simpl. rewrite <- (Nat.add_0_r j0) at 1.
    rewrite (Hst 0%nat pos) by done. simpl.
    rewrite IH; [done |].
    intros j p Hj. rewrite Nat.add_succ_l, <- Nat.add_succ_r.
    by apply Hst.
Qed.

Lemma filled_record {P} (k n : nat) (positions : list P)
    (movement : list (list P)) :
  filled (S k) n positions (record k positions movement)
  = filled k (S n) positions movement.
Proof.
  apply list_eq. intros j. unfold filled, record.
  rewrite !list_lookup_imap.
  destruct (movement !! j) as [row|]; [| done]. simpl.
  by destruct (positions !! j).
Qed.

Lemma run_defined {P} (step : nat → nat → P → option P) (n k : nat)
    (positions : list P) (movement : list (list P)) :
  (∀ k j pos, positions !! j = Some pos → step k j pos = Some pos) →
  run step n k positions movement = Some (filled k n positions movement).
Proof.
  intros Hst. revert k movement.
  induction n as [|n IH]; intros k movement.
  - simpl. f_equal.
    apply list_eq. intros j. unfold filled. rewrite list_lookup_imap.
    destruct (movement !! j); [| done]. simpl.
    by destruct (positions !! j).
  - simpl. rewrite step_all_defined by (intros; by apply Hst).
    simpl. by rewrite IH, filled_record.
Qed.

Lemma fill_replicate {P} (k n : nat) (pos z : P) :
  fill k n pos (replicate k pos ++ replicate n z)
  = replicate (k + n) pos.
Proof.
  revert k. induction n as [|n IH]; intros k.
  - simpl. by rewrite Nat.add_0_r, app_nil_r.
  - simpl.
    rewrite insert_app_r_alt by (rewrite length_replicate; lia).
    rewrite length_replicate, Nat.sub_diag. simpl.
    rewrite (cons_middle pos), app_assoc, <- replicate_S_end.
    rewrite IH. f_equal. lia.
Qed.

Lemma filled_replicate {P} (z : P) (steps : nat) (positions : list P) :
  filled 0 steps positions
    (replicate (length positions) (replicate steps z))
  = frozen steps positions.
Proof.
  apply list_eq. intros j. unfold filled, frozen.
  rewrite list_lookup_imap, list_lookup_fmap.
  destruct (positions !! j) as [pos|] eqn:Hj.
  - rewrite lookup_replicate_2 by (by eapply lookup_lt_Some).
    simpl. f_equal. apply (fill_replicate 0 steps pos).
  - apply lookup_ge_None in Hj.
    assert (Hz : replicate (length positions) (replicate steps z) !! j
                 = None).
    { apply lookup_ge_None. rewrite length_replicate. lia. }
    by rewrite Hz.
Qed.

Lemma filled_zeros (steps : nat) (positions : list (R * R)) :
  filled 0 steps positions (zeros (length positions) steps)
  = frozen steps positions.
Proof. apply filled_replicate. Qed.

(** The kernel on [num] rows of positions, past the division of the
    velocity. *)
Lemma _movement_unfold random_angles rand stray heatmap
    (initial : list position) (resolution velocity range_ : R)
    (days steps_per_day : nat) :
  steps_per_day ≠ 0%nat →
  _movement random_angles rand stray heatmap initial resolution
    (length initial) velocity range_ days steps_per_day
  = run (λ k j, step_one heatmap (stray k j) resolution
                  (velocity / INR steps_per_day) range_
                  (random_angles k j) (rand k j))
      (days * steps_per_day) 0 initial
      (replicate (length initial)
         (replicate (days * steps_per_day) (Fin 0, Fin 0))).
Proof.
  intros Hspd. unfold _movement, fdiv.
  destruct (Req_dec_T (INR steps_per_day) 0) as [E|_].
  { by apply (INR_eq steps_per_day 0) in E. }
  cbn [mbind option_bind].
  destruct (decide ((days * steps_per_day)%nat = 0%nat
                    ∨ length initial = length initial)) as [_|H];
    [done | exfalso; apply H; by right].
Qed.

Lemma lookup_point (initial : list (R * R)) (j : nat) (pos : position) :
  (point <$> initial) !! j = Some pos →
  ∃ q, initial !! j = Some q ∧ pos = point q.
Proof.
  rewrite list_lookup_fmap.
  destruct (initial !! j) as [q|]; [| done].
  intros [= <-]. by exists q.
Qed.

Lemma heatmap_zero_velocity random_angles rand stray heatmap
    (initial : list (R * R)) (resolution range_ : R)
    (days steps_per_day : nat) :
  Forall (in_habitat range_ range_) initial →
  steps_per_day ≠ 0%nat → (∀ k j, 0 <= rand k j < 1) →
  (∀ k j angle u pos,
     0 <= u < 1 → in_habitat range_ range_ pos →
     step_one heatmap (stray k j) resolution 0 range_ angle u (point pos)
     = Some (point pos)) →
  _movement random_angles rand stray heatmap (point <$> initial) resolution
    (length initial) 0 range_ days steps_per_day
  = Some (frozen (days * steps_per_day) (point <$> initial)).
Proof.
  intros Hin Hspd Hrand Hstep.
  rewrite <- (length_fmap point initial) at 1.
  rewrite _movement_unfold by done.
  replace (0 / INR steps_per_day) with 0 by (unfold Rdiv; ring).
  rewrite run_defined, filled_replicate; [done |].
  intros k j pos Hj. apply lookup_point in Hj as (q & Hq & ->).
  apply Hstep; [done |].
  eapply Forall_lookup_1; [exact Hin | exact Hq].
Qed.

Lemma brownian_zero_velocity z (initial : list (R * R))
    (rangex rangey : R) (steps : nat) :
  Forall (in_habitat rangex rangey) initial →
  ConstantBrownian._movement z initial 0 (rangex, rangey) steps
  = Some (frozen steps initial).
Proof.
  intros Hin. unfold ConstantBrownian._movement.
  rewrite run_defined, filled_zeros; [done |].
  intros k j pos Hj.
  unfold ConstantBrownian.step_one, ConstantBrownian.directions,
    ConstantBrownian.sigma_of. simpl.
  replace (pos.1 + (0 + 0 / ConstantBrownian.sigma_divisor * z k j 0%nat))
    with pos.1 by (unfold Rdiv; ring).
  replace (pos.2 + (0 + 0 / ConstantBrownian.sigma_divisor * z k j 1%nat))
    with pos.2 by (unfold Rdiv; ring).
  replace (pos.1, pos.2) with pos by (by destruct pos).
  apply remap_id. eapply Forall_lookup_1; [exact Hin | exact Hj].
Qed.





End ZeroVelocity.

(* ================================================================== *)
(** ** Enumeration order of a three-fold comprehension *)

Section Enumeration.
Import Numpy.

Lemma bind_uniform_length {A B} (f : A → list B) (l : list A) (n : nat) :
  (∀ x, x ∈ l → length (f x) = n) → length (l ≫= f) = length l * n.
Proof.
  induction l as [|x l IH]; intros Hn; [done |].
  rewrite bind_cons, length_app, IH, Hn; [simpl; lia | left |].
  intros y Hy. apply Hn. by right.
Qed.

Lemma bind_uniform_lookup {A B} (f : A → list B) (l : list A)
    (n i j : nat) (x : A) :
  (∀ y, y ∈ l → length (f y) = n) →
  l !! i = Some x → j < n → (l ≫= f) !! (i * n + j) = f x !! j.
Proof.
  revert i. induction l as [|y l IH]; intros i Hn Hi Hj; [done |].
  rewrite bind_cons. destruct i as [|i]; simpl in *.
  - injection Hi as ->. rewrite lookup_app_l; [done |].
    rewrite Hn; [done | left].
  - rewrite lookup_app_r; rewrite (Hn y) by left; [| lia].
    replace (n + i * n + j - n) with (i * n + j) by lia.
    apply IH; [| done..]. intros z Hz. apply Hn. by right.
Qed.

Lemma for3_inner_length {A B C D} (ys : list B) (zs : list C)
    (f : A → B → C → D) (x : A) :
  length (y ← ys; z ← zs; [f x y z]) = length ys * length zs.
Proof.
  apply bind_uniform_length. intros y _.
  rewrite (bind_uniform_length _ _ 1); [lia | done].
Qed.

Lemma for3_length {A B C D} (xs : list A) (ys : list B) (zs : list C)
    (f : A → B → C → D) :
  length (for3 xs ys zs f) = length xs * (length ys * length zs).
Proof.
  unfold for3. apply bind_uniform_length.
  intros x _. apply for3_inner_length.
Qed.

(** The element built from the [i]-th, [j]-th and [k]-th values sits at
    position [(i * |ys| + j) * |zs| + k]. *)
Lemma for3_lookup {A B C D} (xs : list A) (ys : list B) (zs : list C)
    (f : A → B → C → D) (i j k : nat) (x : A) (y : B) (z : C) :
  xs !! i = Some x → ys !! j = Some y → zs !! k = Some z →
  for3 xs ys zs f !! ((i * length ys + j) * length zs + k)
  = Some (f x y z).
Proof.
  intros Hx Hy Hz. unfold for3.
  pose proof (lookup_lt_Some _ _ _ Hy) as Hj.
  pose proof (lookup_lt_Some _ _ _ Hz) as Hk.
  replace ((i * length ys + j) * length zs + k)
    with (i * (length ys * length zs) + (j * length zs + k)) by lia.
  rewrite (bind_uniform_lookup _ xs (length ys * length zs) i _ x);
    [| intros; apply for3_inner_length | done | nia].
  rewrite (bind_uniform_lookup _ ys (length zs) j _ y);
    [| intros; by rewrite (bind_uniform_length _ _ 1); [lia |]
     | done | done].
  replace k with (k * 1 + 0) at 1 by lia.
  rewrite (bind_uniform_lookup _ zs 1 k 0 z); [done | done | done | lia].
Qed.

Lemma for3_elem_of {A B C D} (xs : list A) (ys : list B) (zs : list C)
    (f : A → B → C → D) (d : D) :
  d ∈ for3 xs ys zs f ↔
  ∃ x y z, x ∈ xs ∧ y ∈ ys ∧ z ∈ zs ∧ d = f x y z.
Proof.
  unfold for3. rewrite list_elem_of_bind. split.
  - intros (x & (y & (z & ->%list_elem_of_singleton & Hz)%list_elem_of_bind
                   & Hy)%list_elem_of_bind & Hx).
    by exists x, y, z.
  - intros (x & y & z & Hx & Hy & Hz & ->).
    exists x. split; [| done]. apply list_elem_of_bind.
    exists y. split; [| done]. apply list_elem_of_bind.
    exists z. split; [| done]. by apply list_elem_of_singleton.
Qed.

Lemma xrange_elem_of (n i : nat) : i ∈ xrange n ↔ i < n.
Proof. unfold xrange. rewrite elem_of_seq. lia. Qed.

Lemma xrange_length (n : nat) : length (xrange n) = n.
Proof. apply length_seq. Qed.

Lemma xrange_lookup (n i : nat) : i < n → xrange n !! i = Some i.
Proof. intros. unfold xrange. by rewrite lookup_seq_lt. Qed.

Lemma index_tuples_elem_of (a b c : nat) (idx : nat * nat * nat) :
  idx ∈ for3 (xrange a) (xrange b) (xrange c) (λ i j k, (i, j, k)) ↔
  idx.1.1 < a ∧ idx.1.2 < b ∧ idx.2 < c.
Proof.
  rewrite for3_elem_of. destruct idx as [[i j] k]. simpl. split.
  - intros (x & y & z & Hx%xrange_elem_of & Hy%xrange_elem_of
              & Hz%xrange_elem_of & [= -> -> ->]). done.
  - intros (Hi & Hj & Hk). exists i, j, k.
    by rewrite !xrange_elem_of.
Qed.

Lemma index_tuples_NoDup (a b c : nat) :
  NoDup (for3 (xrange a) (xrange b) (xrange c) (λ i j k, (i, j, k))).
Proof.
  unfold for3, xrange.
  apply NoDup_bind; [| | apply NoDup_seq].
  - intros i1 i2 idx _ _
      (j1 & (k1 & ->%list_elem_of_singleton & _)%list_elem_of_bind
          & _)%list_elem_of_bind
      (j2 & (k2 & E%list_elem_of_singleton & _)%list_elem_of_bind
          & _)%list_elem_of_bind.
    congruence.
  - intros i _. apply NoDup_bind; [| | apply NoDup_seq].
    + intros j1 j2 idx _ _
        (k1 & ->%list_elem_of_singleton & _)%list_elem_of_bind
        (k2 & E%list_elem_of_singleton & _)%list_elem_of_bind.
      congruence.
    + intros j _. apply NoDup_bind; [| | apply NoDup_seq].
      * intros k1 k2 idx _ _ ->%list_elem_of_singleton
          E%list_elem_of_singleton. congruence.
      * intros k _. apply NoDup_singleton.
Qed.

End Enumeration.

(* ================================================================== *)
(** ** Writing results back, one index tuple at a time *)

Section WriteAll.
Import Effects Numpy.

(** An array type [T] with shape [S], written through [setitem] at index
    tuples [K] with values [V] and read through [getitem] as [W].
    [fits s idx res w] says that [idx] is inside shape [s] and that [res]
    broadcasts to the stored value [w]. *)
Context {K V W T S : Type}.
Variable setitem : K → V → T → result T.
Variable getitem : K → T → option W.
Variable shape : T → S.
Variable wf : T → Prop.
Variable fits : S → K → V → W → Prop.

Hypothesis setitem_fits : ∀ arr idx res w,
  wf arr → fits (shape arr) idx res w →
  ∃ arr', setitem idx res arr = inr arr' ∧ wf arr' ∧
          shape arr' = shape arr ∧ getitem idx arr' = Some w ∧
          ∀ idx', idx' ≠ idx → getitem idx' arr' = getitem idx' arr.

Lemma write_all_spec (items : list (K * V)) (arr : T) :
  wf arr → NoDup items.*1 →
  (∀ idx res, (idx, res) ∈ items → ∃ w, fits (shape arr) idx res w) →
  ∃ arr', write_all setitem items arr = inr arr' ∧ wf arr' ∧
          shape arr' = shape arr ∧
          (∀ idx res w, (idx, res) ∈ items → fits (shape arr) idx res w →
                        getitem idx arr' = Some w) ∧
          (∀ idx, idx ∉ items.*1 → getitem idx arr' = getitem idx arr).
Proof.
  revert arr. induction items as [|[idx res] items IH];
    intros arr Hwf Hnd Hfit.
  - exists arr. simpl. repeat split; try done.
    intros ??? H. by apply elem_of_nil in H.
  - simpl in Hnd. apply NoDup_cons in Hnd as [Hnotin Hnd].
    destruct (Hfit idx res) as [w Hw]; [left |].
    destruct (setitem_fits arr idx res w Hwf Hw)
      as (arr1 & Hset & Hwf1 & Hsh1 & Hget1 & Hother1).
    destruct (IH arr1 Hwf1 Hnd) as (arr' & Hrun & Hwf' & Hsh' & Hin & Hout).
    { intros idx' res' Hel. rewrite Hsh1. apply Hfit. by right. }
    exists arr'. simpl. rewrite Hset. simpl.
    split; [done |]. split; [done |]. split; [congruence |]. split.
    + intros idx' res' w' Hel Hw'.
      apply elem_of_cons in Hel as [[= -> ->]|Hel].
      * rewrite Hout by done.
        destruct (setitem_fits arr idx res w' Hwf Hw')
          as (arr2 & Hset2 & _ & _ & Hget2 & _).
        congruence.
      * apply (Hin idx' res'); [done |]. by rewrite Hsh1.
    + intros idx' Hni. apply not_elem_of_cons in Hni as [Hne Hni].
      rewrite Hout by done. by apply Hother1.
Qed.

(** Writing the zipped lists: the value read at the [p]-th index tuple is
    the [p]-th result. *)
Lemma write_all_zip (idxs : list K) (results : list V) (arr : T) :
  wf arr → NoDup idxs →
  (∀ p idx res, idxs !! p = Some idx → results !! p = Some res →
                ∃ w, fits (shape arr) idx res w) →
  ∃ arr', write_all setitem (zip idxs results) arr = inr arr' ∧
          shape arr' = shape arr ∧
          ∀ p idx res w, idxs !! p = Some idx → results !! p = Some res →
                         fits (shape arr) idx res w →
                         getitem idx arr' = Some w.
Proof.
  intros Hwf Hnd Hfit.
  destruct (write_all_spec (zip idxs results) arr Hwf)
    as (arr' & Hrun & _ & Hsh & Hin & _).
  - eapply NoDup_fmap_fst.
    + intros idx res1 res2 H1 H2.
      apply list_elem_of_lookup in H1 as [p1 H1].
      apply list_elem_of_lookup in H2 as [p2 H2].
      apply lookup_zip_with_Some in H1 as (? & ? & [= <- <-] & Hi1 & Hr1).
      apply lookup_zip_with_Some in H2 as (? & ? & [= <- <-] & Hi2 & Hr2).
      assert (p1 = p2) by (eapply NoDup_lookup; eauto). congruence.
    + apply NoDup_alt. intros p1 p2 [idx res] H1 H2.
      apply lookup_zip_with_Some in H1 as (? & ? & [= <- <-] & Hi1 & Hr1).
      apply lookup_zip_with_Some in H2 as (? & ? & [= <- <-] & Hi2 & Hr2).
      eapply NoDup_lookup; eauto.
  - intros idx res Hel. apply list_elem_of_lookup in Hel as [p Hp].
    apply lookup_zip_with_Some in Hp as (? & ? & [= <- <-] & Hi & Hr).
    eauto.
  - exists arr'. split; [done |]. split; [done |].
    intros p idx res w Hi Hr Hw. apply (Hin idx res); [| done].
    apply list_elem_of_lookup. exists p.
    apply lookup_zip_with_Some. eauto.
Qed.

End WriteAll.

(* ================================================================== *)
(** ** Item assignment on the arrays of the harness *)

Section ArrayAssignment.
Import Effects Numpy.

Lemma broadcast_exact {A} (d : nat) (res : list A) :
  length res = d → broadcast d res = inr res.
Proof. intros H. unfold broadcast. by rewrite decide_True. Qed.

Lemma broadcast_length {A} (d : nat) (res w : list A) :
  broadcast d res = inr w → length w = d.
Proof.
  unfold broadcast. destruct (decide (length res = d)).
  - by intros [= <-].
  - destruct res as [|x [|]]; try done.
    intros [= <-]. apply length_replicate.
Qed.

Lemma zeros4_wf (a b c d : nat) : wf4 (zeros4 a b c d).
Proof.
  unfold wf4, zeros4. simpl. split; [apply length_replicate |].
  apply Forall_replicate. split; [apply length_replicate |].
  apply Forall_replicate. apply length_replicate.
Qed.

Lemma setitem4_fits (arr : ndarray4) (idx : nat * nat * nat)
    (res w : list R) :
  wf4 arr → fits4 (shape4 arr) idx res w →
  ∃ arr', setitem4 idx res arr = inr arr' ∧ wf4 arr' ∧
          shape4 arr' = shape4 arr ∧ getitem4 idx arr' = Some w ∧
          ∀ idx', idx' ≠ idx → getitem4 idx' arr' = getitem4 idx' arr.
Proof.
  destruct arr as [[[[a b] c] d] cells], idx as [[i j] k].
  unfold wf4, fits4, setitem4, getitem4. simpl.
  intros [Hlen Hall] (Hi & Hj & Hk & Hb).
  rewrite decide_True by done. rewrite Hb. simpl.
  destruct (lookup_lt_is_Some_2 cells i) as [plane Hplane]; [lia |].
  pose proof (Forall_lookup_1 _ _ _ _ Hall Hplane) as [Hpl Hrows].
  destruct (lookup_lt_is_Some_2 plane j) as [rows Hrs]; [lia |].
  pose proof (Forall_lookup_1 _ _ _ _ Hrows Hrs) as Hrl. simpl in Hrl.
  eexists. split; [reflexivity |]. simpl. split; [| split; [done |]].
  { split; [by rewrite length_alter |].
    apply Forall_alter; [done |]. intros plane' Hp'.
    assert (plane' = plane) by congruence. subst plane'.
    split; [by rewrite length_alter |].
    apply Forall_alter; [done |]. intros rows' Hr'.
    assert (rows' = rows) by congruence. subst rows'.
    by rewrite length_insert. }
  split.
  - rewrite list_lookup_alter_eq, Hplane. simpl.
    rewrite list_lookup_alter_eq, Hrs. simpl.
    apply list_lookup_insert_eq. lia.
  - intros [[i' j'] k'] Hne.
    destruct (decide (i' = i)) as [->|Hi'].
    2:{ by rewrite list_lookup_alter_ne. }
    rewrite list_lookup_alter_eq, Hplane. simpl.
    destruct (decide (j' = j)) as [->|Hj'].
    2:{ by rewrite list_lookup_alter_ne. }
    rewrite list_lookup_alter_eq, Hrs. simpl.
    rewrite list_lookup_insert_ne; [done | congruence].
Qed.

Lemma broadcast2_length (c e : nat) (res w : list (list R)) :
  broadcast2 c e res = inr w → length w = c.
Proof.
  unfold broadcast2.
  destruct (mapM (broadcast e) res) as [|rows]; [done |]. simpl.
  apply broadcast_length.
Qed.

Lemma mapM_broadcast_exact (e : nat) (res : list (list R)) :
  Forall (λ row, length row = e) res → mapM (broadcast e) res = inr res.
Proof.
  induction 1 as [|row res Hrow _ IH]; [done |].
  simpl. rewrite broadcast_exact by done. simpl. by rewrite IH.
Qed.

Lemma broadcast2_exact (c e : nat) (res : list (list R)) :
  length res = c → Forall (λ row, length row = e) res →
  broadcast2 c e res = inr res.
Proof.
  intros Hc He. unfold broadcast2.
  rewrite mapM_broadcast_exact by done. simpl.
  by apply broadcast_exact.
Qed.

Lemma slice_after_insert (planes : list (list (list R)))
    (rows : list (list R)) (k d : nat) :
  length planes = length rows →
  Forall (λ plane, length plane = d) planes → k < d →
  mapM (λ plane : list (list R), plane !! k)
    (zip_with (λ plane row, <[k := row]> plane) planes rows)
  = Some rows.
Proof.
  intros Hlen Hall Hk. revert rows Hlen.
  induction Hall as [|plane planes Hp _ IH]; intros [|row rows] Hlen;
    try done.
  simpl. rewrite list_lookup_insert_eq by lia. simpl.
  rewrite IH by (simpl in Hlen; lia). done.
Qed.

Lemma slice_after_insert_ne (planes : list (list (list R)))
    (rows : list (list R)) (k k' : nat) :
  k ≠ k' → length planes = length rows →
  mapM (λ plane : list (list R), plane !! k')
    (zip_with (λ plane row, <[k := row]> plane) planes rows)
  = mapM (λ plane : list (list R), plane !! k') planes.
Proof.
  intros Hne. revert rows.
  induction planes as [|plane planes IH]; intros [|row rows] Hlen;
    try done.
  simpl. rewrite list_lookup_insert_ne by done.
  rewrite IH by (simpl in Hlen; lia). done.
Qed.

Lemma zeros5_wf (a b c d e : nat) : wf5 (zeros5 a b c d e).
Proof.
  unfold wf5, zeros5. simpl. split; [apply length_replicate |].
  apply Forall_replicate. split; [apply length_replicate |].
  apply Forall_replicate. split; [apply length_replicate |].
  apply Forall_replicate. apply length_replicate.
Qed.

Lemma setitem5_fits (arr : ndarray5) (idx : nat * nat * nat)
    (res w : list (list R)) :
  wf5 arr → fits5 (shape5 arr) idx res w →
  ∃ arr', setitem5 idx res arr = inr arr' ∧ wf5 arr' ∧
          shape5 arr' = shape5 arr ∧ getslice5 idx arr' = Some w ∧
          ∀ idx', idx' ≠ idx → getslice5 idx' arr' = getslice5 idx' arr.
Proof.
  destruct arr as [[[[[a b] c] d] e] cells], idx as [[i j] k].
  unfold wf5, fits5, setitem5, getslice5. simpl.
  intros [Hlen Hall] (Hi & Hj & Hk & Hb).
  rewrite decide_True by done. rewrite Hb. simpl.
  pose proof (broadcast2_length _ _ _ _ Hb) as Hw.
  destruct (lookup_lt_is_Some_2 cells i) as [block Hblock]; [lia |].
  pose proof (Forall_lookup_1 _ _ _ _ Hall Hblock) as [Hbl Hplanes].
  destruct (lookup_lt_is_Some_2 block j) as [planes Hps]; [lia |].
  pose proof (Forall_lookup_1 _ _ _ _ Hplanes Hps) as [Hpl Hpd].
  simpl in Hpl.
  eexists. split; [reflexivity |]. simpl. split; [| split; [done |]].
  { split; [by rewrite length_alter |].
    apply Forall_alter; [done |]. intros block' Hb'.
    assert (block' = block) by congruence. subst block'.
    split; [by rewrite length_alter |].
    apply Forall_alter; [done |]. intros planes' Hp'.
    assert (planes' = planes) by congruence. subst planes'.
    split; [rewrite length_zip_with; lia |].
    apply Forall_forall. intros plane
      (p1 & row & -> & Hp1 & _)%elem_of_zip_with.
    rewrite length_insert.
    by apply (proj1 (Forall_forall _ _) Hpd). }
  split.
  - rewrite list_lookup_alter_eq, Hblock. simpl.
    rewrite list_lookup_alter_eq, Hps. simpl.
    apply (slice_after_insert planes w k d); [lia | done | done].
  - intros [[i' j'] k'] Hne.
    destruct (decide (i' = i)) as [->|Hi'].
    2:{ by rewrite list_lookup_alter_ne. }
    rewrite list_lookup_alter_eq, Hblock. simpl.
    destruct (decide (j' = j)) as [->|Hj'].
    2:{ by rewrite list_lookup_alter_ne. }
    rewrite list_lookup_alter_eq, Hps. simpl.
    apply slice_after_insert_ne; [congruence | lia].
Qed.

End ArrayAssignment.

(* ================================================================== *)
(** ** The calibration harness: results land at their grid index *)

Section HarnessIndexing.
Import Effects Numpy Calibration.
Context {model : Type}.

Lemma calculate_info_returned (self : Calibrator model)
    (worker : nat → Info model → list R) :
  calculate_info self Returned worker
  = ([Pool_create; Pool_map; Pool_close; Pool_join],
     write_all setitem4
       (zip (index_arguments self) (imap worker (task_arguments self)))
       (zeros4 (length (velocities self)) (length (niche_sizes self))
          (num_worlds self) (trials_per_world self))).
Proof.
  unfold calculate_info, lift. simpl.
  by destruct (write_all _ _ _).
Qed.

Lemma task_arguments_num (self : Calibrator model) (info : Info model) :
  info ∈ task_arguments self → info_num info = trials_per_world self.
Proof.
  unfold task_arguments.
  intros (vel & nsz & k & _ & _ & _ & ->)%for3_elem_of. done.
Qed.

Lemma task_arguments_lookup (self : Calibrator model) (i j k : nat)
    (vel nsz : R) :
  velocities self !! i = Some vel → niche_sizes self !! j = Some nsz →
  k < num_worlds self →
  task_arguments self
    !! ((i * length (niche_sizes self) + j) * num_worlds self + k)
  = Some (mkInfo (movement_model self) vel nsz (trials_per_world self)
            (range self)).
Proof.
  intros Hi Hj Hk. unfold task_arguments.
  pose proof (for3_lookup (velocities self) (niche_sizes self)
                (xrange (num_worlds self))
                (λ vel nsz _, mkInfo (movement_model self) vel nsz
                                (trials_per_world self) (range self))
                i j k vel nsz k) as H.
  rewrite xrange_length in H. by apply H; [| | apply xrange_lookup].
Qed.

Lemma index_tuples_lookup (a b c i j k : nat) :
  i < a → j < b → k < c →
  for3 (xrange a) (xrange b) (xrange c) (λ i j k, (i, j, k))
    !! ((i * b + j) * c + k) = Some (i, j, k).
Proof.
  intros Hi Hj Hk.
  pose proof (for3_lookup (xrange a) (xrange b) (xrange c)
                (λ i j k, (i, j, k)) i j k i j k) as H.
  rewrite !xrange_length in H. by apply H; apply xrange_lookup.
Qed.

(** A run that collects every result returns the array, of the shape it
    was created with, holding at every index tuple the result in the same
    position. *)
Lemma calculate_info_spec (self : Calibrator model)
    (worker : nat → Info model → list R) :
  (∀ p info, length (worker p info) = info_num info) →
  ∃ all_info,
    (calculate_info self Returned worker).2 = inr all_info ∧
    shape4 all_info
    = (length (velocities self), length (niche_sizes self),
       num_worlds self, trials_per_world self) ∧
    ∀ p idx info,
      index_arguments self !! p = Some idx →
      task_arguments self !! p = Some info →
      getitem4 idx all_info = Some (worker p info).
Proof.
  intros Hlen. rewrite calculate_info_returned. cbn [snd].
  destruct (write_all_zip setitem4 getitem4 shape4 wf4 fits4 setitem4_fits
              (index_arguments self) (imap worker (task_arguments self))
              (zeros4 (length (velocities self))
                 (length (niche_sizes self)) (num_worlds self)
                 (trials_per_world self)))
    as (all_info & Hrun & Hshape & Hget).
  - apply zeros4_wf.
  - apply index_tuples_NoDup.
  - intros q idx res Hq Hres.
    apply list_lookup_imap_Some in Hres as (info & Hinfo & ->).
    exists (worker q info). simpl.
    apply list_elem_of_lookup_2, index_tuples_elem_of in Hq.
    repeat (split; [tauto |]).
    apply broadcast_exact. rewrite Hlen.
    apply task_arguments_num. by eapply list_elem_of_lookup_2.
  - exists all_info. split; [done |]. split; [done |].
    intros p idx info Hidx Htask.
    apply (Hget p idx (worker p info)); [done | |].
    + by rewrite list_lookup_imap, Htask.
    + apply list_elem_of_lookup_2, index_tuples_elem_of in Hidx.
      simpl. repeat (split; [tauto |]).
      apply broadcast_exact. rewrite Hlen.
      apply task_arguments_num. by eapply list_elem_of_lookup_2.
Qed.

(** The grid cell [(i, j, k)] of such a run. *)
Lemma calculate_info_cell (self : Calibrator model)
    (worker : nat → Info model → list R) (i j k : nat) (vel nsz : R) :
  velocities self !! i = Some vel → niche_sizes self !! j = Some nsz →
  k < num_worlds self →
  (∀ p info, length (worker p info) = info_num info) →
  let p := (i * length (niche_sizes self) + j) * num_worlds self + k in
  let task := mkInfo (movement_model self) vel nsz
                (trials_per_world self) (range self) in
  task_arguments self !! p = Some task ∧
  index_arguments self !! p = Some (i, j, k) ∧
  ∃ all_info,
    (calculate_info self Returned worker).2 = inr all_info ∧
    getitem4 (i, j, k) all_info = Some (worker p task).
Proof.
  intros Hi Hj Hk Hlen p task.
  pose proof (task_arguments_lookup self i j k vel nsz Hi Hj Hk) as Htask.
  fold p task in Htask.
  assert (Hidx : index_arguments self !! p = Some (i, j, k)).
  { apply index_tuples_lookup; [| | done]; by eapply lookup_lt_Some. }
  split; [done |]. split; [done |].
  destruct (calculate_info_spec self worker Hlen)
    as (all_info & Hrun & _ & Hget).
  exists all_info. split; [done |]. by apply (Hget p).
Qed.

Lemma calculate_info_interrupted (self : Calibrator model)
    (worker : nat → Info model → list R) :
  calculate_info self Interrupted worker
  = ([Pool_create; Pool_map; Pool_terminate], inl SystemExit).
Proof. reflexivity. Qed.

End HarnessIndexing.

Section OccupancyIndexing.
Import Effects Numpy Occupancy.
Context {model movement : Type}.
Variable simulate : nat → R → R * R → nat → R → nat → model → movement.
Variable sample_occupancy : movement → nat → nat → nat → R.

Lemma calculate_oc_info_returned (self : OccupancyCalibrator model) :
  calculate_oc_info simulate sample_occupancy self Returned
  = ([Pool_create; Pool_map_async_get; Pool_close; Pool_join],
     write_all setitem5
       (zip (index_arguments self)
          (imap (worker simulate sample_occupancy self) (task_arguments self)))
       (zeros5 (length (home_ranges (config self)))
          (length (niche_sizes (config self)))
          (length (nums (config self)))
          (num_worlds (config self)) (trials_per_world (config self)))).
Proof.
  unfold calculate_oc_info, lift. simpl.
  by destruct (write_all _ _ _).
Qed.

(** A task returns an array of shape [[n_nums, trials]]. *)
Lemma worker_shape (self : OccupancyCalibrator model) (p : nat)
    (args : R * R) :
  length (worker simulate sample_occupancy self p args) = length (nums (config self)) ∧
  Forall (λ row, length row = trials_per_world (config self))
    (worker simulate sample_occupancy self p args).
Proof.
  unfold worker, _get_single_oc_info. destruct args as [hr nsz].
  split; [apply length_imap |].
  apply Forall_forall. intros row (n & num & -> & _)%elem_of_lookup_imap.
  rewrite length_fmap. apply xrange_length.
Qed.

Lemma oc_task_arguments_lookup (self : OccupancyCalibrator model)
    (i j k : nat) (hr nsz : R) :
  home_ranges (config self) !! i = Some hr →
  niche_sizes (config self) !! j = Some nsz →
  k < num_worlds (config self) →
  task_arguments self
    !! ((i * length (niche_sizes (config self)) + j)
        * num_worlds (config self) + k)
  = Some (hr, nsz).
Proof.
  intros Hi Hj Hk. unfold task_arguments.
  pose proof (for3_lookup (home_ranges (config self))
                (niche_sizes (config self))
                (xrange (num_worlds (config self)))
                (λ home_range niche_size _, (home_range, niche_size))
                i j k hr nsz k) as H.
  rewrite xrange_length in H. by apply H; [| | apply xrange_lookup].
Qed.

(** The slice [[i, j, :, k, :]] of a run that collects every result. *)
Lemma calculate_oc_info_cell (self : OccupancyCalibrator model)
    (i j k : nat) (hr nsz : R) :
  home_ranges (config self) !! i = Some hr →
  niche_sizes (config self) !! j = Some nsz →
  k < num_worlds (config self) →
  let p := (i * length (niche_sizes (config self)) + j)
           * num_worlds (config self) + k in
  task_arguments self !! p = Some (hr, nsz) ∧
  index_arguments self !! p = Some (i, j, k) ∧
  ∃ all_info,
    (calculate_oc_info simulate sample_occupancy self Returned).2 = inr all_info ∧
    shape5 all_info
    = (length (home_ranges (config self)),
       length (niche_sizes (config self)), length (nums (config self)),
       num_worlds (config self), trials_per_world (config self)) ∧
    getslice5 (i, j, k) all_info = Some (worker simulate sample_occupancy self p (hr, nsz)).
Proof.
  intros Hi Hj Hk p.
  pose proof (oc_task_arguments_lookup self i j k hr nsz Hi Hj Hk) as Htask.
  fold p in Htask.
  assert (Hidx : index_arguments self !! p = Some (i, j, k)).
  { apply index_tuples_lookup; [| | done]; by eapply lookup_lt_Some. }
  split; [done |]. split; [done |].
  rewrite calculate_oc_info_returned. cbn [snd].
  destruct (write_all_zip setitem5 getslice5 shape5 wf5 fits5 setitem5_fits
              (index_arguments self)
              (imap (worker simulate sample_occupancy self) (task_arguments self))
              (zeros5 (length (home_ranges (config self)))
                 (length (niche_sizes (config self)))
                 (length (nums (config self)))
                 (num_worlds (config self))
                 (trials_per_world (config self))))
    as (all_info & Hrun & Hshape & Hget).
  - apply zeros5_wf.
  - apply index_tuples_NoDup.
  - intros q idx res Hq Hres.
    apply list_lookup_imap_Some in Hres as (args & Hargs & ->).
    exists (worker simulate sample_occupancy self q args). simpl.
    apply list_elem_of_lookup_2, index_tuples_elem_of in Hq.
    destruct (worker_shape self q args) as [Hrows Hcols].
    repeat (split; [tauto |]).
    by apply broadcast2_exact.
  - exists all_info. split; [done |]. split; [done |].
    apply (Hget p (i, j, k) (worker simulate sample_occupancy self p (hr, nsz))); [done | |].
    + by rewrite list_lookup_imap, Htask.
    + destruct (worker_shape self p (hr, nsz)) as [Hrows Hcols].
      cbn [fits5 zeros5 shape5 fst snd].
      repeat split; try done; try (by eapply lookup_lt_Some).
      by apply broadcast2_exact.
Qed.

End OccupancyIndexing.

Section HarnessClaims.
Import Effects Numpy.

(** C1: in every run that collects its results, for every shape of the
    axis lists and every world count, the task submitted in position
    [p = (i * n_2 + j) * num_worlds + k] is the one built from the [i]-th
    value of the first swept axis and the [j]-th value of the second, the
    index tuple in position [p] is [(i, j, k)], and the array holds at
    that index the value returned by that task: the row [[i, j, k, :]]
    for the velocity and home-range calibrators, the slice
    [[i, j, :, k, :]] for the occupancy calibrator. *)
Theorem results_written_at_their_index :
  (∀ (model : Type) (self : Calibration.Calibrator model)
     (worker : nat → Calibration.Info model → list R)
     (i j k : nat) (vel nsz : R),
     Calibration.velocities self !! i = Some vel →
     Calibration.niche_sizes self !! j = Some nsz →
     k < Calibration.num_worlds self →
     (∀ p info, length (worker p info) = Calibration.info_num info) →
     let p := (i * length (Calibration.niche_sizes self) + j)
              * Calibration.num_worlds self + k in
     let task :=
       Calibration.mkInfo (Calibration.movement_model self) vel nsz
         (Calibration.trials_per_world self) (Calibration.range self) in
     Calibration.task_arguments self !! p = Some task ∧
     Calibration.index_arguments self !! p = Some (i, j, k) ∧
     (∃ all_info,
        (Velocity.calculate_velocity_info self Returned worker).2
        = inr all_info ∧
        getitem4 (i, j, k) all_info = Some (worker p task)) ∧
     (∃ all_info,
        (HomeRange.calculate_hr_info self Returned worker).2
        = inr all_info ∧
        getitem4 (i, j, k) all_info = Some (worker p task))) ∧
  (∀ (model movement : Type)
     (simulate : nat → R → R * R → nat → R → nat → model → movement)
     (sample_occupancy : movement → nat → nat → nat → R)
     (self : Occupancy.OccupancyCalibrator model)
     (i j k : nat) (hr nsz : R),
     Occupancy.home_ranges (Occupancy.config self) !! i = Some hr →
     Occupancy.niche_sizes (Occupancy.config self) !! j = Some nsz →
     k < Occupancy.num_worlds (Occupancy.config self) →
     let p := (i * length (Occupancy.niche_sizes (Occupancy.config self))
               + j) * Occupancy.num_worlds (Occupancy.config self) + k in
     Occupancy.task_arguments self !! p = Some (hr, nsz) ∧
     Occupancy.index_arguments self !! p = Some (i, j, k) ∧
     ∃ all_info,
       (Occupancy.calculate_oc_info simulate sample_occupancy self
          Returned).2 = inr all_info ∧
       getslice5 (i, j, k) all_info
       = Some (Occupancy.worker simulate sample_occupancy self p
                 (hr, nsz))).
Proof.
  split.
  - intros model self worker i j k vel nsz Hi Hj Hk Hlen p task.
    destruct (calculate_info_cell self worker i j k vel nsz Hi Hj Hk Hlen)
      as (Htask & Hidx & all_info & Hrun & Hget).
    split; [done |]. split; [done |].
    split; exists all_info; done.
  - intros model movement simulate sample_occupancy self i j k hr nsz
      Hi Hj Hk p.
    destruct (calculate_oc_info_cell simulate sample_occupancy self
                i j k hr nsz Hi Hj Hk)
      as (Htask & Hidx & all_info & Hrun & _ & Hget).
    split; [done |]. split; [done |]. by exists all_info.
Qed.

(** C5: an interrupt that arrives while the harness is blocked in the
    collecting call.  The velocity and home-range calibrators terminate
    the pool and then leave through [sys.exit()], that is with SystemExit
    and not with the interrupt; the occupancy calibrator terminates the
    pool and raises KeyboardInterrupt to its caller. *)
Theorem interrupt_while_collecting :
  (∀ (model : Type) (self : Calibration.Calibrator model)
     (worker : nat → Calibration.Info model → list R),
     Velocity.calculate_velocity_info self Interrupted worker
     = ([Pool_create; Pool_map; Pool_terminate], inl SystemExit) ∧
     HomeRange.calculate_hr_info self Interrupted worker
     = ([Pool_create; Pool_map; Pool_terminate], inl SystemExit)) ∧
  (∀ (model movement : Type)
     (simulate : nat → R → R * R → nat → R → nat → model → movement)
     (sample_occupancy : movement → nat → nat → nat → R)
     (self : Occupancy.OccupancyCalibrator model),
     Occupancy.calculate_oc_info simulate sample_occupancy self Interrupted
     = ([Pool_create; Pool_map_async_get; Pool_terminate],
        inl KeyboardInterrupt)).
Proof. split; [split |]; reflexivity. Qed.

(** C6: the shape of the array returned by a run that collects every
    result.  For the velocity calibrator it is the lengths of the two axis
    lists followed by the world count and the trials-per-world count given
    to the constructor.  The home-range constructor discards the two
    counts it is given: whatever they are, the shape ends in
    [(NUM_WORLDS, TRIALS_PER_WORLD) = (10, 1000)]. *)
Theorem result_shape (model : Type) (movement_model : model)
    (velocities niche_sizes : list R) (trials_per_world num_worlds : nat)
    (range : R) (worker : nat → Calibration.Info model → list R) :
  (∀ p info, length (worker p info) = Calibration.info_num info) →
  (∃ velocity_info,
     (Velocity.calculate_velocity_info
        (Velocity.VelocityCalibrator movement_model velocities niche_sizes
           trials_per_world num_worlds range) Returned worker).2
     = inr velocity_info ∧
     shape4 velocity_info
     = (length velocities, length niche_sizes, num_worlds,
        trials_per_world)) ∧
  (∃ hr_info,
     (HomeRange.calculate_hr_info
        (HomeRange.HomeRangeCalibrator movement_model velocities
           niche_sizes trials_per_world num_worlds range) Returned
        worker).2
     = inr hr_info ∧
     shape4 hr_info = (length velocities, length niche_sizes, 10, 1000)).
Proof.
  intros Hlen. split.
  - destruct (calculate_info_spec
                (Velocity.VelocityCalibrator movement_model velocities
                   niche_sizes trials_per_world num_worlds range)
                worker Hlen) as (all_info & Hrun & Hshape & _).
    by exists all_info.
  - destruct (calculate_info_spec
                (HomeRange.HomeRangeCalibrator movement_model velocities
                   niche_sizes trials_per_world num_worlds range)
                worker Hlen) as (all_info & Hrun & Hshape & _).
    by exists all_info.
Qed.

Lemma result_shape_witness :
  let worker := λ (p : nat) (info : Calibration.Info ()),
                  replicate (Calibration.info_num info) (INR p) in
  (∃ velocity_info,
     (Velocity.calculate_velocity_info
        (Velocity.VelocityCalibrator () [0.1]%R [0.2]%R 5 2 20%R)
        Returned worker).2 = inr velocity_info ∧
     shape4 velocity_info = (1, 1, 2, 5)) ∧
  (∃ hr_info,
     (HomeRange.calculate_hr_info
        (HomeRange.HomeRangeCalibrator () [0.1]%R [0.2]%R 5 2 20%R)
        Returned worker).2 = inr hr_info ∧
     shape4 hr_info = (1, 1, 10, 1000)).
Proof.
  intros worker.
  apply (result_shape unit () [0.1]%R [0.2]%R 5 2 20%R worker).
  intros p info. apply length_replicate.
Defined.

Lemma results_written_at_their_index_witness :
  (let self := Velocity.VelocityCalibrator () [0.1; 0.3]%R [0.2]%R 1 2 20%R in
   let worker := λ (p : nat) (info : Calibration.Info ()),
                   replicate (Calibration.info_num info) (INR p) in
   ∃ all_info,
     (Velocity.calculate_velocity_info self Returned worker).2
     = inr all_info ∧
     getitem4 (1, 0, 1) all_info = Some [INR 3]) ∧
  (let self :=
     Occupancy.mkOccupancyCalibrator
       (Occupancy.mkConfig 1 5 [0.5]%R [1; 2]%R 2 [3] 90 (20, 20)%R) () in
   ∃ all_info,
     (Occupancy.calculate_oc_info
        (λ p _ _ _ _ _ _, p) (λ mov _ _ _, INR mov) self Returned).2
     = inr all_info ∧
     getslice5 (1, 0, 1) all_info = Some [[INR 3]]).
Proof.
  split.
  - intros self worker.
    refine (proj1 (proj2 (proj2
              (proj1 results_written_at_their_index unit self worker
                 1 0 1 0.3%R 0.2%R eq_refl eq_refl _ _)))).
    + simpl. lia.
    + intros p info. apply length_replicate.
  - intros self.
    refine (proj2 (proj2
              (proj2 results_written_at_their_index unit nat
                 (λ p _ _ _ _ _ _, p) (λ mov _ _ _, INR mov) self
                 1 0 1 2%R 0.5%R eq_refl eq_refl _))).
    simpl. lia.
Defined.

End HarnessClaims.

(* ================================================================== *)
(** ** The fitting step of the occupancy calibrator *)

Section OccupancyFit.
Import Effects Numpy NumpyFloat Occupancy.
Context {model : Type}.

Lemma logit_one : logit (Fin 1) = PInf.
Proof.
  unfold logit, xdiv, xsub, xlog.
  destruct (Req_dec_T 1 0) as [E|_]; [lra |].
  replace (1 / 1 - 1)%R with 0%R by lra.
  destruct (Rlt_dec 0 0) as [E|_]; [lra |].
  destruct (Req_dec_T 0 0) as [_|E]; [done | lra].
Qed.

Lemma logit_zero : logit (Fin 0) = MInf.
Proof.
  unfold logit, xdiv, xsub, xlog.
  destruct (Req_dec_T 0 0) as [_|E]; [| lra].
  destruct (Rlt_dec 0 1) as [_|E]; [done | lra].
Qed.

Lemma logit_interior (y : R) :
  (0 < y < 1)%R → logit (Fin y) = Fin (Utils.logit y).
Proof.
  intros [Hy0 Hy1]. unfold logit, xdiv, xsub, xlog, Utils.logit.
  destruct (Req_dec_T y 0) as [E|_]; [lra |].
  assert (Hpos : (0 < 1 / y - 1)%R).
  { apply Rlt_0_minus. rewrite <- Rdiv_1_r at 1.
    unfold Rdiv. rewrite !Rmult_1_l.
    rewrite <- Rinv_1 at 1. apply Rinv_lt_contravar; lra. }
  destruct (Rlt_dec 0 (1 / y - 1)) as [_|E]; [done | lra].
Qed.

Lemma mapM_result_cons {A B} (f : A → result B) (x : A) (l : list A) :
  mapM f (x :: l) = (y ← f x; k ← mapM f l; mret (y :: k)).
Proof. reflexivity. Qed.

Lemma fit_blocks_mapM (data : ndarray5)
    (loops : list ((nat * R) * (nat * xreal) * (nat * xreal))) :
  mapM (λ '((i, nsz), (j, hr), (k, dens)),
          oc_data ← ravel5 j i k data;
          let hr_data := (λ _, hr) <$> oc_data in
          let dens_data := (λ _, dens) <$> oc_data in
          let nsz_data := (λ _, Fin nsz) <$> oc_data in
          mret (zip (zip (xlog <$> hr_data) (xlog <$> dens_data))
                  (xlog <$> nsz_data),
                (λ y, logit (Fin y)) <$> oc_data)) loops
  = match mapM (λ '((i, _), (j, _), (k, _)), ravel5 j i k data) loops with
    | inl e => inl e
    | inr samples => inr (zip_with fit_block loops samples)
    end.
Proof.
  induction loops as [|[[[i nsz] [j hr]] [k dens]] loops IH]; [done |].
  rewrite !mapM_result_cons, IH.
  destruct (ravel5 j i k data) as [e|oc_data]; [done |].
  clear IH. cbn [mbind result_bind].
  destruct (mapM _ loops); reflexivity.
Qed.

Lemma mapM_result_length {A B} (f : A → result B) (l : list A)
    (k : list B) :
  mapM f l = inr k → length k = length l.
Proof.
  revert k. induction l as [|x l IH]; intros k.
  - by intros [= <-].
  - rewrite mapM_result_cons. destruct (f x) as [|y]; [done |].
    cbn [mbind result_bind].
    destruct (mapM f l) as [|k'] eqn:E; [done |].
    intros [= <-]. simpl. f_equal. by apply IH.
Qed.

Lemma fit_blocks_targets loops (samples : list (list R)) :
  length samples = length loops →
  concat (zip_with fit_block loops samples).*2
  = (λ y, logit (Fin y)) <$> concat samples.
Proof.
  revert samples.
  induction loops as [|[[[i nsz] [j hr]] [k dens]] loops IH];
    intros [|oc samples] Hlen; try done.
  simpl. rewrite fmap_app. f_equal. apply IH. simpl in Hlen. lia.
Qed.

Lemma fit_blocks_rows loops (samples : list (list R)) :
  length (concat (zip_with fit_block loops samples).*1)
  = length (concat (zip_with fit_block loops samples).*2).
Proof.
  revert samples.
  induction loops as [|[[[i nsz] [j hr]] [k dens]] loops IH];
    intros [|oc samples]; try done.
  simpl. rewrite !length_app, IH. f_equal.
  rewrite !length_zip_with, !length_fmap. lia.
Qed.

Lemma fit_inputs_unfold (self : OccupancyCalibrator model)
    (data : ndarray5) :
  fit_inputs self data
  = match fit_samples self data with
    | inl e => inl e
    | inr [] => inl ValueError
    | inr samples =>
        inr (concat (zip_with fit_block (fit_loops self) samples).*1,
             (λ y, logit (Fin y)) <$> concat samples)
    end.
Proof.
  unfold fit_inputs, fit_samples. rewrite fit_blocks_mapM.
  destruct (mapM _ (fit_loops self)) as [e|samples] eqn:E; [done |].
  apply mapM_result_length in E.
  cbn [mbind result_bind].
  rewrite <- (fit_blocks_targets (fit_loops self)) by done.
  destruct (fit_loops self) as [|[[[i nsz] [j hr]] [k dens]] loops];
    destruct samples as [|oc samples]; done.
Qed.

(** C4 (amended): the fitting step applies [logit] to every occupancy
    sample of the tensor as it is, in loop order, with no sample excluded
    and none clamped; the design matrix has one row per sample.  A sample
    strictly between 0 and 1 gives the finite value [-ln(1/y - 1)]; a
    sample equal to 1 gives [+inf] and a sample equal to 0 gives [-inf]
    in the target vector handed to the regression. *)
Theorem fit_targets_are_logit_of_every_sample
    (self : OccupancyCalibrator model) (data : ndarray5) :
  (∀ X Y, fit_inputs self data = inr (X, Y) →
          ∃ samples, fit_samples self data = inr samples ∧
                     Y = (λ y, logit (Fin y)) <$> concat samples ∧
                     length X = length Y) ∧
  (∀ samples, fit_samples self data = inr samples → samples ≠ [] →
              ∃ X, fit_inputs self data
                   = inr (X, (λ y, logit (Fin y)) <$> concat samples)) ∧
  logit (Fin 1) = PInf ∧ logit (Fin 0) = MInf ∧
  (∀ y, (0 < y < 1)%R → logit (Fin y) = Fin (Utils.logit y)).
Proof.
  split; [| split].
  - intros X Y. rewrite fit_inputs_unfold.
    destruct (fit_samples self data) as [e|samples] eqn:E; [done |].
    destruct samples as [|oc samples]; [done |].
    intros [= <- <-]. exists (oc :: samples).
    split; [done |]. split; [done |].
    rewrite fit_blocks_rows. f_equal. apply fit_blocks_targets.
    by apply mapM_result_length in E.
  - intros samples Hs Hne. rewrite fit_inputs_unfold, Hs.
    destruct samples; [done |]. by eexists.
  - split; [apply logit_one |]. split; [apply logit_zero |].
    apply logit_interior.
Qed.

End OccupancyFit.

Section OccupancyFitExamples.
Import Effects Numpy NumpyFloat Occupancy.

(** One home range, one niche size, one population size, one world and
    one trial whose occupancy is exactly 1: the run returns a tensor
    holding the single sample 1, and the target vector that [fit] hands
    to the regression is [[+inf]]. *)
Lemma fit_passes_infinity_on :
  let self := mkOccupancyCalibrator
                (mkConfig 1 5 [0.5]%R [1]%R 1 [10] 90 (20, 20)%R) () in
  let data := {| shape5 := (1, 1, 1, 1, 1); cells5 := [[[[[1%R]]]]] |} in
  (calculate_oc_info (λ _ _ _ _ _ _ _, ()) (λ _ _ _ _, 1%R) self
     Returned).2 = inr data ∧
  ravel5 0 0 0 data = inr [1%R] ∧
  ∃ X, fit_inputs self data = inr (X, [PInf]) ∧ ¬ is_finite PInf.
Proof.
  intros self data. split; [reflexivity |]. split; [done |].
  eexists. rewrite fit_inputs_unfold.
  assert (Hs : fit_samples self data = inr [[1%R]]) by done.
  rewrite Hs. cbn [concat app fmap list_fmap]. rewrite logit_one.
  split; [reflexivity |]. simpl. tauto.
Qed.

Lemma fit_targets_are_logit_of_every_sample_witness :
  let self := mkOccupancyCalibrator
                (mkConfig 1 5 [0.5]%R [1]%R 1 [10] 90 (20, 20)%R) () in
  let data := {| shape5 := (1, 1, 1, 1, 1);
                 cells5 := [[[[[(1 / 2)%R]]]]] |} in
  (∃ X, fit_inputs self data
        = inr (X, (λ y, logit (Fin y)) <$> concat [[(1 / 2)%R]])) ∧
  logit (Fin (1 / 2)) = Fin (Utils.logit (1 / 2)).
Proof.
  intros self data. split.
  - apply (proj1 (proj2
             (fit_targets_are_logit_of_every_sample self data)));
      done.
  - apply (proj2 (proj2 (proj2 (proj2
             (fit_targets_are_logit_of_every_sample self data))))).
    lra.
Defined.

End OccupancyFitExamples.

(* ================================================================== *)
(** ** Further properties of the link functions *)

Section LinkFunctionShape.
Import Utils.
Local Open Scope R_scope.

Lemma sigmoid_range (x : R) : 0 < sigmoid x < 1.
Proof.
  unfold sigmoid. pose proof (exp_pos (- x)) as He.
  split.
  - apply Rdiv_lt_0_compat; lra.
  - apply Rmult_lt_reg_r with (1 + exp (- x)); [lra |].
    replace (1 / (1 + exp (- x)) * (1 + exp (- x))) with 1 by (field; lra).
    lra.
Qed.

Lemma sigmoid_increasing (x y : R) : x < y → sigmoid x < sigmoid y.
Proof.
  intros Hxy. unfold sigmoid.
  pose proof (exp_pos (- x)) as Hx. pose proof (exp_pos (- y)) as Hy.
  assert (Hlt : exp (- y) < exp (- x)) by (apply exp_increasing; lra).
  unfold Rdiv. rewrite !Rmult_1_l.
  apply Rinv_lt_contravar; [| lra].
  apply Rmult_lt_0_compat; lra.
Qed.

Lemma sigmoid_opp (x : R) : sigmoid (- x) = 1 - sigmoid x.
Proof.
  unfold sigmoid. rewrite Ropp_involutive.
  pose proof (exp_pos x) as Hx. pose proof (exp_pos (- x)) as Hnx.
  assert (He : exp x * exp (- x) = 1).
  { rewrite <- exp_plus. replace (x + - x) with 0 by lra. apply exp_0. }
  apply Rmult_eq_reg_r with ((1 + exp x) * (1 + exp (- x))); [| nra].
  field_simplify; [| lra | lra]. nra.
Qed.

(** X1: [sigmoid] maps every real strictly between 0 and 1, is strictly
    increasing, takes the value 1/2 at 0 and satisfies
    [sigmoid (-x) = 1 - sigmoid x]. *)
Theorem sigmoid_shape (x y : R) :
  0 < sigmoid x < 1 ∧
  (x < y → sigmoid x < sigmoid y) ∧
  sigmoid 0 = 1 / 2 ∧
  sigmoid (- x) = 1 - sigmoid x.
Proof.
  split; [apply sigmoid_range |]. split; [apply sigmoid_increasing |].
  split; [| apply sigmoid_opp].
  unfold sigmoid. rewrite Ropp_0, exp_0. lra.
Qed.

Lemma sigmoid_shape_witness :
  0 < sigmoid 1 < 1 ∧ sigmoid 1 < sigmoid 2 ∧ sigmoid 0 = 1 / 2 ∧
  sigmoid (- 1) = 1 - sigmoid 1.
Proof.
  destruct (sigmoid_shape 1 2) as (H1 & H2 & H3 & H4).
  split; [exact H1 |]. split; [apply H2; lra |]. split; [exact H3 | exact H4].
Defined.

Lemma logit_arg_pos (y : R) : 0 < y < 1 → 0 < 1 / y - 1.
Proof.
  intros [Hy0 Hy1].
  apply Rmult_lt_reg_r with y; [done |].
  replace ((1 / y - 1) * y) with (1 - y) by (field; lra). lra.
Qed.

Lemma logit_increasing (y z : R) : 0 < y → y < z → z < 1 → logit y < logit z.
Proof.
  intros Hy Hyz Hz. unfold logit.
  apply Ropp_lt_contravar, ln_increasing.
  - apply logit_arg_pos; lra.
  - unfold Rdiv. rewrite !Rmult_1_l.
    apply Rplus_lt_compat_r, Rinv_lt_contravar; [nra | done].
Qed.

Lemma logit_complement (y : R) : 0 < y < 1 → logit (1 - y) = - logit y.
Proof.
  intros Hy. unfold logit.
  replace (1 / (1 - y) - 1) with (/ (1 / y - 1)) by (field; lra).
  rewrite ln_Rinv by (by apply logit_arg_pos). done.
Qed.

(** X2: on the open interval (0, 1) [logit] is strictly increasing, it is
    0 at 1/2 and [logit (1 - y) = - logit y]. *)
Theorem logit_shape (y z : R) :
  0 < y < 1 → 0 < z < 1 →
  (y < z → logit y < logit z) ∧
  logit (1 / 2) = 0 ∧
  logit (1 - y) = - logit y.
Proof.
  intros Hy Hz. split; [intros; apply logit_increasing; lra |].
  split; [| by apply logit_complement].
  unfold logit. replace (1 / (1 / 2) - 1) with 1 by lra.
  rewrite ln_1. lra.
Qed.

Lemma logit_shape_witness :
  logit (1 / 4) < logit (3 / 4) ∧ logit (1 / 2) = 0 ∧
  logit (1 - 1 / 4) = - logit (1 / 4).
Proof.
  destruct (logit_shape (1 / 4) (3 / 4)) as (H1 & H2 & H3); [lra | lra |].
  split; [apply H1; lra |]. split; [exact H2 | exact H3].
Defined.

End LinkFunctionShape.

(* ================================================================== *)
(** ** [normalize] *)

Section Normalize.
Import ScalingLaws.
Local Open Scope R_scope.

Lemma foldr_Rmax_bound (x : R) (rest : list R) :
  x <= foldr Rmax x rest ∧ Forall (λ y, y <= foldr Rmax x rest) rest.
Proof.
  induction rest as [|y rest [IHx IHr]]; simpl.
  - split; [lra | constructor].
  - split; [pose proof (Rmax_r y (foldr Rmax x rest)); lra |].
    constructor; [apply Rmax_l |].
    eapply Forall_impl; [exact IHr |]. simpl. intros z Hz.
    pose proof (Rmax_r y (foldr Rmax x rest)). lra.
Qed.

Lemma foldr_Rmin_bound (x : R) (rest : list R) :
  foldr Rmin x rest <= x ∧ Forall (λ y, foldr Rmin x rest <= y) rest.
Proof.
  induction rest as [|y rest [IHx IHr]]; simpl.
  - split; [lra | constructor].
  - split; [pose proof (Rmin_r y (foldr Rmin x rest)); lra |].
    constructor; [apply Rmin_l |].
    eapply Forall_impl; [exact IHr |]. simpl. intros z Hz.
    pose proof (Rmin_r y (foldr Rmin x rest)). lra.
Qed.

Lemma foldr_Rmax_elem (x : R) (rest : list R) :
  foldr Rmax x rest ∈ x :: rest.
Proof.
  induction rest as [|y rest IH]; simpl; [left |].
  unfold Rmax at 1. destruct (Rle_dec y (foldr Rmax x rest)).
  - apply elem_of_cons in IH as [->|IH]; [left | right; by right].
  - right. left.
Qed.

Lemma foldr_Rmin_elem (x : R) (rest : list R) :
  foldr Rmin x rest ∈ x :: rest.
Proof.
  induction rest as [|y rest IH]; simpl; [left |].
  unfold Rmin at 1. destruct (Rle_dec y (foldr Rmin x rest)).
  - right. left.
  - apply elem_of_cons in IH as [->|IH]; [left | right; by right].
Qed.

Lemma amax_spec (array : list R) (hi : R) :
  amax array = Some hi → hi ∈ array ∧ Forall (λ y, y <= hi) array.
Proof.
  destruct array as [|x rest]; [done |]. intros [= <-].
  split; [apply foldr_Rmax_elem |].
  destruct (foldr_Rmax_bound x rest). by constructor.
Qed.

Lemma amin_spec (array : list R) (lo : R) :
  amin array = Some lo → lo ∈ array ∧ Forall (λ y, lo <= y) array.
Proof.
  destruct array as [|x rest]; [done |]. intros [= <-].
  split; [apply foldr_Rmin_elem |].
  destruct (foldr_Rmin_bound x rest). by constructor.
Qed.

(** X3: [normalize] fails on a zero-size array; on any other array it
    returns an array of the same length with every entry in [[0, 1]]:
    all entries are 0.5 when the input is constant, and otherwise the
    entries are [(x - min) / (max - min)], so that 0 and 1 are both
    attained. *)
Theorem normalize_range (array : list R) :
  (array = [] → normalize array = None) ∧
  (array ≠ [] →
   ∃ out lo hi,
     normalize array = Some out ∧ length out = length array ∧
     amin array = Some lo ∧ amax array = Some hi ∧
     Forall (λ y, 0 <= y <= 1) out ∧
     (hi = lo → out = (λ _, 0.5) <$> array) ∧
     (hi ≠ lo → out = (λ x, (x - lo) / (hi - lo)) <$> array ∧
                0 ∈ out ∧ 1 ∈ out)).
Proof.
  split; [by intros -> |]. intros Hne.
  destruct (amax array) as [hi|] eqn:Hhi; [| by destruct array].
  destruct (amin array) as [lo|] eqn:Hlo; [| by destruct array].
  destruct (amax_spec _ _ Hhi) as [Hhi_in Hhi_ub].
  destruct (amin_spec _ _ Hlo) as [Hlo_in Hlo_lb].
  unfold normalize. rewrite Hhi, Hlo. simpl.
  destruct (Req_dec_T (hi - lo) 0) as [E|E].
  - eexists _, lo, hi. split; [reflexivity |].
    split; [by rewrite length_fmap |]. split; [done |]. split; [done |].
    split; [| split].
    + apply Forall_fmap, Forall_forall. intros. simpl. lra.
    + intros _. apply list_fmap_ext. intros. lra.
    + intros. lra.
  - assert (Hpos : 0 < hi - lo).
    { pose proof (proj1 (Forall_forall _ _) Hlo_lb hi Hhi_in). simpl in *.
      lra. }
    eexists _, lo, hi. split; [reflexivity |].
    split; [by rewrite length_fmap |]. split; [done |]. split; [done |].
    split; [| split].
    + apply Forall_fmap, Forall_forall. intros x Hx. simpl.
      pose proof (proj1 (Forall_forall _ _) Hlo_lb x Hx) as H1.
      pose proof (proj1 (Forall_forall _ _) Hhi_ub x Hx) as H2.
      simpl in H1, H2. split.
      * apply Rmult_le_reg_r with (hi - lo); [done |].
        replace ((x - lo) / (hi - lo) * (hi - lo)) with (x - lo)
          by (field; lra). lra.
      * apply Rmult_le_reg_r with (hi - lo); [done |].
        replace ((x - lo) / (hi - lo) * (hi - lo)) with (x - lo)
          by (field; lra). lra.
    + intros. lra.
    + intros _. split; [done |]. split.
      * apply list_elem_of_fmap. exists lo. split; [| done].
        unfold Rdiv. ring.
      * apply list_elem_of_fmap. exists hi. split; [| done].
        field. lra.
Qed.

Lemma normalize_range_witness :
  ∃ out lo hi,
    normalize [2; 6; 4] = Some out ∧ length out = length [2; 6; 4] ∧
    amin [2; 6; 4] = Some lo ∧ amax [2; 6; 4] = Some hi ∧
    Forall (λ y, 0 <= y <= 1) out ∧
    (hi = lo → out = (λ _, 0.5) <$> [2; 6; 4]) ∧
    (hi ≠ lo → out = (λ x, (x - lo) / (hi - lo)) <$> [2; 6; 4] ∧
               0 ∈ out ∧ 1 ∈ out).
Proof. apply (proj2 (normalize_range [2; 6; 4])). done. Defined.

End Normalize.

(* ================================================================== *)
(** ** The scaling laws of [utils.py] *)

Section ScalingLawProperties.
Import Numeric Params ScalingLaws.
Local Open Scope R_scope.

Lemma power_pos (x y : R) : 0 < x → power x y = inr (Rpower x y).
Proof.
  intros Hx. unfold power, math_pow.
  by destruct (Rlt_dec 0 x).
Qed.

Lemma divide_defined (x y : R) : y ≠ 0 → divide x y = inr (x / y).
Proof.
  intros Hy. unfold divide, fdiv.
  by destruct (Req_dec_T y 0).
Qed.

Lemma Rpower_pos (x y : R) : 0 < Rpower x y.
Proof. apply exp_pos. Qed.

Lemma Rpower_inverse (x y : R) :
  0 < x → y ≠ 0 → Rpower (Rpower x y) (1 / y) = x.
Proof.
  intros Hx Hy. rewrite Rpower_mult.
  replace (y * (1 / y)) with 1 by (field; lra).
  by apply Rpower_1.
Qed.

Lemma Rpower_inverse' (x y : R) :
  0 < x → y ≠ 0 → Rpower (Rpower x (1 / y)) y = x.
Proof.
  intros Hx Hy. rewrite Rpower_mult.
  replace (1 / y * y) with 1 by (field; lra).
  by apply Rpower_1.
Qed.

Lemma getitem_Some {V} (d : gmap string V) (key : string) (v : V) :
  d !! key = Some v → getitem d key = inr v.
Proof. intros H. unfold getitem. by rewrite H. Qed.

Lemma getitem_None {V} (d : gmap string V) (key : string) :
  d !! key = None → getitem d key = inl (KeyError key).
Proof. intros H. unfold getitem. by rewrite H. Qed.

(** X4: with a positive [alpha] and a non-zero [exponent] under the key
    [home_range], [home_range_to_velocity] and [velocity_to_home_range]
    are inverse to each other on the positive reals, in both orders. *)
Theorem home_range_velocity_round_trip
    (parameters : gmap string (gmap string R)) (d : gmap string R)
    (alpha exponent : R) :
  parameters !! "home_range" = Some d →
  d !! "alpha" = Some alpha → d !! "exponent" = Some exponent →
  0 < alpha → exponent ≠ 0 →
  (∀ home_range, 0 < home_range →
     ∃ velocity,
       home_range_to_velocity home_range parameters = inr velocity ∧
       velocity = alpha * Rpower home_range exponent ∧ 0 < velocity ∧
       velocity_to_home_range velocity parameters = inr home_range) ∧
  (∀ velocity, 0 < velocity →
     ∃ home_range,
       velocity_to_home_range velocity parameters = inr home_range ∧
       0 < home_range ∧
       home_range_to_velocity home_range parameters = inr velocity).
Proof.
  intros Hd Ha He Hal Hex.
  assert (Hh2v : ∀ hr, 0 < hr →
            home_range_to_velocity hr parameters
            = inr (alpha * Rpower hr exponent)).
  { intros hr Hhr. unfold home_range_to_velocity.
    rewrite (getitem_Some _ _ _ Hd). cbn [mbind law_bind].
    rewrite (getitem_Some _ _ _ He), (getitem_Some _ _ _ Ha).
    cbn [mbind law_bind]. by rewrite power_pos. }
  assert (Hv2h : ∀ v, 0 < v →
            velocity_to_home_range v parameters
            = inr (Rpower (v / alpha) (1 / exponent))).
  { intros v Hv. unfold velocity_to_home_range.
    rewrite (getitem_Some _ _ _ Hd). cbn [mbind law_bind].
    rewrite (getitem_Some _ _ _ He), (getitem_Some _ _ _ Ha).
    cbn [mbind law_bind].
    rewrite !divide_defined by lra. cbn [mbind law_bind].
    rewrite power_pos; [done |]. by apply Rdiv_lt_0_compat. }
  split.
  - intros hr Hhr. exists (alpha * Rpower hr exponent).
    pose proof (Rpower_pos hr exponent) as Hp.
    assert (Hv : 0 < alpha * Rpower hr exponent)
      by (by apply Rmult_lt_0_compat).
    rewrite Hh2v, Hv2h by done.
    repeat (split; [done |]). f_equal.
    replace (alpha * Rpower hr exponent / alpha) with (Rpower hr exponent)
      by (field; lra).
    by apply Rpower_inverse.
  - intros v Hv. exists (Rpower (v / alpha) (1 / exponent)).
    pose proof (Rpower_pos (v / alpha) (1 / exponent)) as Hp.
    rewrite Hv2h, Hh2v by done.
    repeat (split; [done |]). f_equal.
    rewrite Rpower_inverse'; [field; lra | | done].
    by apply Rdiv_lt_0_compat.
Qed.

Lemma home_range_velocity_round_trip_witness :
  (∀ home_range, 0 < home_range →
     ∃ velocity,
       home_range_to_velocity home_range BrownianModel.default_parameters
       = inr velocity ∧
       velocity = 35.0 * Rpower home_range 0.54 ∧ 0 < velocity ∧
       velocity_to_home_range velocity BrownianModel.default_parameters
       = inr home_range) ∧
  (∀ velocity, 0 < velocity →
     ∃ home_range,
       velocity_to_home_range velocity BrownianModel.default_parameters
       = inr home_range ∧
       0 < home_range ∧
       home_range_to_velocity home_range BrownianModel.default_parameters
       = inr velocity).
Proof.
  apply (home_range_velocity_round_trip BrownianModel.default_parameters
           {[ "alpha" := 35.0; "exponent" := 0.54 ]} 35.0 0.54).
  - reflexivity.
  - reflexivity.
  - reflexivity.
  - lra.
  - lra.
Defined.

(** The five keys read by [density] and [density_to_occupancy]. *)
Lemma density_keys (parameters : gmap string R)
    (alpha beta hr_exp occ_exp_a occ_exp_b : R) :
  parameters !! "alpha" = Some alpha → parameters !! "beta" = Some beta →
  parameters !! "hr_exp" = Some hr_exp →
  parameters !! "occ_exp_a" = Some occ_exp_a →
  parameters !! "occ_exp_b" = Some occ_exp_b →
  ∀ x home_range niche_size range,
    0 < x → 0 < home_range → 0 < range.1 * range.2 →
    let occ_exp := occ_exp_a * niche_size + occ_exp_b in
    let prop := exp (alpha * niche_size + beta) in
    let hr_per := home_range / (range.1 * range.2) in
    density x home_range niche_size range parameters
    = inr (prop * Rpower x occ_exp / Rpower hr_per hr_exp) ∧
    density_to_occupancy x home_range niche_size range parameters
    = inr (Utils.sigmoid (prop * Rpower x occ_exp * Rpower hr_per hr_exp)).
Proof.
  intros Ha Hb Hh Hoa Hob x home_range niche_size range Hx Hhr Harea
    occ_exp prop hr_per.
  assert (Hper : 0 < hr_per) by (by apply Rdiv_lt_0_compat).
  unfold density, density_to_occupancy.
  rewrite (getitem_Some _ _ _ Ha), (getitem_Some _ _ _ Hb),
    (getitem_Some _ _ _ Hh), (getitem_Some _ _ _ Hoa),
    (getitem_Some _ _ _ Hob).
  cbn [mbind law_bind].
  rewrite divide_defined by lra. cbn [mbind law_bind].
  fold occ_exp hr_per. rewrite !power_pos by done.
  cbn [mbind law_bind]. split; [| done].
  apply divide_defined. pose proof (Rpower_pos hr_per hr_exp). lra.
Qed.

(** X5: for a positive density, home range and area, and a dictionary
    holding the five keys, [density_to_occupancy] returns an occupancy
    strictly between 1/2 and 1; and [density] is not its inverse: taking an
    occupancy of at most 1/2 to a density and back gives a strictly larger
    occupancy. *)
Theorem density_to_occupancy_above_half (parameters : gmap string R)
    (alpha beta hr_exp occ_exp_a occ_exp_b : R)
    (home_range niche_size : R) (range : R * R) :
  parameters !! "alpha" = Some alpha → parameters !! "beta" = Some beta →
  parameters !! "hr_exp" = Some hr_exp →
  parameters !! "occ_exp_a" = Some occ_exp_a →
  parameters !! "occ_exp_b" = Some occ_exp_b →
  0 < home_range → 0 < range.1 * range.2 →
  (∀ d, 0 < d →
     ∃ occupancy,
       density_to_occupancy d home_range niche_size range parameters
       = inr occupancy ∧ 1 / 2 < occupancy < 1) ∧
  (∀ occupancy, 0 < occupancy <= 1 / 2 →
     ∃ d occupancy',
       density occupancy home_range niche_size range parameters = inr d ∧
       0 < d ∧
       density_to_occupancy d home_range niche_size range parameters
       = inr occupancy' ∧ occupancy < occupancy').
Proof.
  intros Ha Hb Hh Hoa Hob Hhr Harea.
  pose proof (density_keys parameters alpha beta hr_exp occ_exp_a occ_exp_b
                Ha Hb Hh Hoa Hob) as Hk.
  assert (Hhalf : ∀ d, 0 < d →
            ∃ occupancy,
              density_to_occupancy d home_range niche_size range parameters
              = inr occupancy ∧ 1 / 2 < occupancy < 1).
  { intros d Hd.
    destruct (Hk d home_range niche_size range Hd Hhr Harea) as [_ Hocc].
    eexists. split; [exact Hocc |].
    split; [| apply sigmoid_range].
    replace (1 / 2) with (Utils.sigmoid 0)
      by (unfold Utils.sigmoid; rewrite Ropp_0, exp_0; lra).
    apply sigmoid_increasing.
    apply Rmult_lt_0_compat; [apply Rmult_lt_0_compat |];
      apply exp_pos. }
  split; [exact Hhalf |].
  intros occupancy [Ho0 Ho1].
  destruct (Hk occupancy home_range niche_size range Ho0 Hhr Harea)
    as [Hden _].
  eexists. 
  assert (Hd : 0 < exp (alpha * niche_size + beta)
                   * Rpower occupancy (occ_exp_a * niche_size + occ_exp_b)
                   / Rpower (home_range / (range.1 * range.2)) hr_exp).
  { apply Rdiv_lt_0_compat; [apply Rmult_lt_0_compat |]; apply exp_pos. }
  destruct (Hhalf _ Hd) as (occupancy' & Hocc & Hlo & _).
  exists occupancy'. split; [exact Hden |]. split; [exact Hd |].
  split; [exact Hocc | lra].
Qed.

Lemma density_to_occupancy_above_half_witness :
  let parameters : gmap string R :=
    {[ "alpha" := 0; "beta" := 1; "hr_exp" := 1.2; "occ_exp_a" := 1.75;
       "occ_exp_b" := 1.75 ]} in
  (∀ d, 0 < d →
     ∃ occupancy,
       density_to_occupancy d 2 0.5 (20, 20) parameters = inr occupancy ∧
       1 / 2 < occupancy < 1) ∧
  (∀ occupancy, 0 < occupancy <= 1 / 2 →
     ∃ d occupancy',
       density occupancy 2 0.5 (20, 20) parameters = inr d ∧ 0 < d ∧
       density_to_occupancy d 2 0.5 (20, 20) parameters = inr occupancy' ∧
       occupancy < occupancy').
Proof.
  intros parameters.
  apply (density_to_occupancy_above_half parameters 0 1 1.2 1.75 1.75
           2 0.5 (20, 20)); try reflexivity; simpl; lra.
Defined.

(** X6: [density] and [density_to_occupancy] read the keys [alpha], [beta],
    [hr_exp], [occ_exp_a], [occ_exp_b] in this order and raise KeyError at
    the first one that is missing.  The [density] entry of the default
    parameters of the constant-brownian model names its last two keys
    [den_exp_a] and [den_exp_b], so both functions raise
    [KeyError "occ_exp_a"] on it, whatever the other arguments. *)
Theorem density_missing_key (parameters : gmap string R)
    (alpha beta hr_exp : R) (x home_range niche_size : R) (range : R * R) :
  parameters !! "alpha" = Some alpha → parameters !! "beta" = Some beta →
  parameters !! "hr_exp" = Some hr_exp →
  parameters !! "occ_exp_a" = None →
  density x home_range niche_size range parameters
  = inl (KeyError "occ_exp_a") ∧
  density_to_occupancy x home_range niche_size range parameters
  = inl (KeyError "occ_exp_a").
Proof.
  intros Ha Hb Hh Hoa. unfold density, density_to_occupancy.
  rewrite (getitem_Some _ _ _ Ha), (getitem_Some _ _ _ Hb),
    (getitem_Some _ _ _ Hh), (getitem_None _ _ Hoa).
  done.
Qed.

Lemma density_missing_key_witness :
  ∃ parameters,
    BrownianModel.default_parameters !! "density" = Some parameters ∧
    ∀ x home_range niche_size range,
      density x home_range niche_size range parameters
      = inl (KeyError "occ_exp_a") ∧
      density_to_occupancy x home_range niche_size range parameters
      = inl (KeyError "occ_exp_a").
Proof.
  eexists. split; [reflexivity |].
  intros x home_range niche_size range.
  apply (density_missing_key _ 0.0 22.0 1.2); reflexivity.
Defined.

End ScalingLawProperties.

(* ================================================================== *)
(** ** Symmetries of the boundary rule *)

Section BoundarySymmetry.
Import Numeric Boundary.
Local Open Scope R_scope.

(** The quotient and remainder behind [fmod]. *)
Lemma fmod_decompose (a b : R) :
  0 < b →
  ∃ (q : Z) (t : R), a = IZR q * b + t ∧ 0 <= t < b ∧ fmod a b = Some t.
Proof.
  intros Hb. destruct (fmod_bounds a b Hb) as (t & Ht & Hrange).
  exists (Zfloor (a / b)), t. split; [| done].
  unfold fmod in Ht. destruct (Req_dec_T b 0); [done |].
  injection Ht as <-. lra.
Qed.

Lemma fmod_of_decomposition (a b t : R) (q : Z) :
  0 < b → a = IZR q * b + t → 0 <= t < b → fmod a b = Some t.
Proof.
  intros Hb -> Ht. rewrite (fmod_eq _ b q); [f_equal; lra | done | lra].
Qed.

Lemma reflect_of_remainder (x r t : R) :
  0 < r → fmod x (2 * r) = Some t → 0 <= t < 2 * r →
  reflect x r = Some (if Rlt_dec t r then t
                      else if Req_dec_T t r then 0 else 2 * r - t).
Proof.
  intros Hr Ht Hrange. unfold reflect. rewrite Ht. simpl.
  destruct (Rlt_dec t r).
  - apply fmod_small. lra.
  - destruct (Req_dec_T t r) as [->|Hne].
    + apply (fmod_of_decomposition _ r 0 (-1)); lra.
    + apply (fmod_of_decomposition _ r (2 * r - t) (-2)); lra.
Qed.

Lemma reflect_periodic (x r : R) :
  0 < r → reflect (x + 2 * r) r = reflect x r.
Proof.
  intros Hr.
  destruct (fmod_decompose x (2 * r)) as (q & t & Hx & Ht & Hmod); [lra |].
  assert (Hmod' : fmod (x + 2 * r) (2 * r) = Some t).
  { apply (fmod_of_decomposition _ _ t (q + 1)); [lra | | done].
    rewrite plus_IZR. lra. }
  by rewrite (reflect_of_remainder _ r t), (reflect_of_remainder x r t).
Qed.

Lemma reflect_even (x r : R) : 0 < r → reflect (- x) r = reflect x r.
Proof.
  intros Hr.
  destruct (fmod_decompose x (2 * r)) as (q & t & Hx & Ht & Hmod); [lra |].
  rewrite (reflect_of_remainder x r t) by done.
  destruct (Req_dec_T t 0) as [->|Hne].
  - assert (Hmod' : fmod (- x) (2 * r) = Some 0).
    { apply (fmod_of_decomposition _ _ 0 (- q)); [lra | | lra].
      rewrite opp_IZR. lra. }
    by rewrite (reflect_of_remainder _ r 0) by (done || lra).
  - assert (Hmod' : fmod (- x) (2 * r) = Some (2 * r - t)).
    { apply (fmod_of_decomposition _ _ _ (- q - 1)); [lra | | lra].
      rewrite minus_IZR, opp_IZR. lra. }
    rewrite (reflect_of_remainder _ r (2 * r - t)) by (done || lra).
    f_equal.
    destruct (Rlt_dec (2 * r - t) r), (Rlt_dec t r); try lra;
      destruct (Req_dec_T (2 * r - t) r), (Req_dec_T t r); lra.
Qed.

(** X7: for a positive extent [r] the boundary rule has period [2r] and is
    even in the proposed coordinate (the folding of a billiard reflection),
    and it sends the far edge [r] itself to 0, while the coordinates just
    below and just above [r] are both sent next to [r]. *)
Theorem boundary_rule_symmetry (x r e : R) :
  0 < r →
  reflect (x + 2 * r) r = reflect x r ∧
  reflect (- x) r = reflect x r ∧
  reflect r r = Some 0 ∧
  (0 < e < r → reflect (r - e) r = Some (r - e) ∧
               reflect (r + e) r = Some (r - e)).
Proof.
  intros Hr. split; [by apply reflect_periodic |].
  split; [by apply reflect_even |]. split.
  - rewrite (reflect_of_remainder r r r); [| done | | lra].
    + destruct (Rlt_dec r r); [lra |]. by destruct (Req_dec_T r r).
    + apply fmod_small. lra.
  - intros He. split.
    + apply reflect_id. lra.
    + rewrite reflect_far_edge by lra. f_equal. lra.
Qed.

Lemma boundary_rule_symmetry_witness :
  reflect (7 + 2 * 20) 20 = reflect 7 20 ∧
  reflect (- 7) 20 = reflect 7 20 ∧
  reflect 20 20 = Some 0 ∧
  reflect (20 - 1) 20 = Some (20 - 1) ∧ reflect (20 + 1) 20 = Some (20 - 1).
Proof.
  destruct (boundary_rule_symmetry 7 20 1) as (H1 & H2 & H3 & H4); [lra |].
  split; [exact H1 |]. split; [exact H2 |]. split; [exact H3 |].
  apply H4. lra.
Defined.

End BoundarySymmetry.

(* ================================================================== *)
(** ** The step loop of the kernels *)

Section StepLoop.
Import Movement Habitat Trajectory.

Lemma step_all_post {T} (step : nat → T → option T) (j0 : nat)
    (positions positions' : list T) (P Q : T → Prop) :
  (∀ j pos pos', P pos → step j pos = Some pos' → Q pos') →
  Forall P positions →
  step_all step j0 positions = Some positions' →
  Forall Q positions' ∧ length positions' = length positions.
Proof.
  intros Hstep. revert j0 positions'.
  induction positions as [|pos rest IH]; intros j0 positions' HP Hrun.
  - injection Hrun as <-. by split.
  - simpl in Hrun. apply Forall_cons in HP as [Hpos Hrest].
    destruct (step j0 pos) as [pos'|] eqn:Hs; [| done].
    destruct (step_all step (S j0) rest) as [rest'|] eqn:Hr; [| done].
    injection Hrun as <-.
    destruct (IH (S j0) rest' Hrest Hr) as [HQ Hlen].
    split; [| simpl; by rewrite Hlen].
    constructor; [by eapply Hstep | done].
Qed.

Lemma step_all_is_Some {T} (step : nat → T → option T) (j0 : nat)
    (positions : list T) (P : T → Prop) :
  (∀ j pos, P pos → is_Some (step j pos)) →
  Forall P positions → is_Some (step_all step j0 positions).
Proof.
  intros Hstep. revert j0.
  induction positions as [|pos rest IH]; intros j0 HP; [by eexists |].
  apply Forall_cons in HP as [Hpos Hrest]. simpl.
  destruct (Hstep j0 pos Hpos) as [pos' ->].
  destruct (IH (S j0) Hrest) as [rest' ->]. by eexists.
Qed.

Lemma record_lookup {T} (k j : nat) (positions : list T)
    (movement : list (list T)) :
  record k positions movement !! j
  = (λ row, match positions !! j with
            | Some pos => <[k := pos]> row
            | None => row
            end) <$> movement !! j.
Proof. unfold record. apply list_lookup_imap. Qed.

(** What [n] iterations starting at column [k] do to each row: its length
    and the columns outside [k .. k + n - 1] are kept, and every position
    written satisfies an invariant [P] of the loop body. *)
Lemma run_columns {T} (step : nat → nat → T → option T) (P : T → Prop)
    (n k : nat) (positions : list T) (movement traj : list (list T)) :
  (∀ k j pos pos', P pos → step k j pos = Some pos' → P pos') →
  Forall P positions →
  run step n k positions movement = Some traj →
  length traj = length movement ∧
  ∀ j row, movement !! j = Some row →
    ∃ row', traj !! j = Some row' ∧ length row' = length row ∧
            (∀ c, c < k ∨ k + n ≤ c → row' !! c = row !! c) ∧
            (∀ c pos, k ≤ c < k + n → is_Some (positions !! j) →
                      row' !! c = Some pos → P pos).
Proof.
  intros Hstep. revert k positions movement.
  induction n as [|n IH]; intros k positions movement HP Hrun.
  - injection Hrun as <-. split; [done |]. intros j row Hrow.
    exists row. repeat split; try done. intros c pos Hc. lia.
  - simpl in Hrun.
    destruct (step_all (step k) 0 positions) as [positions'|] eqn:Hs;
      [| done].
    simpl in Hrun.
    destruct (step_all_post (step k) 0 positions positions' P P
                (Hstep k) HP Hs) as [HP' Hlen].
    destruct (IH (S k) positions' _ HP' Hrun) as [Hlt Hrows].
    split; [by rewrite Hlt; unfold record; rewrite length_imap |].
    intros j row Hrow.
    destruct (Hrows j (match positions !! j with
                       | Some pos => <[k := pos]> row
                       | None => row
                       end)) as (row' & Hrow' & Hl & Hframe & Hinv).
    { by rewrite record_lookup, Hrow. }
    exists row'. split; [done |].
    assert (Hkeep : ∀ c, c ≠ k →
              match positions !! j with
              | Some pos => <[k := pos]> row
              | None => row
              end !! c = row !! c).
    { intros c Hc. destruct (positions !! j); [| done].
      by apply list_lookup_insert_ne. }
    split; [| split].
    + rewrite Hl. destruct (positions !! j); [| done].
      apply length_insert.
    + intros c Hc. rewrite Hframe by lia. apply Hkeep. lia.
    + intros c pos Hc Hj Hpos.
      destruct (decide (c = k)) as [->|Hne].
      * rewrite Hframe in Hpos by lia.
        destruct Hj as [p Hp]. rewrite Hp in Hpos.
        destruct (decide (k < length row)) as [Hk|Hk].
        -- rewrite list_lookup_insert_eq in Hpos by done.
           injection Hpos as <-.
           by apply (proj1 (Forall_lookup _ _) HP j).
        -- rewrite list_insert_ge in Hpos by lia.
           apply lookup_lt_Some in Hpos. lia.
      * apply (Hinv c pos); [lia | | done].
        apply lookup_lt_is_Some. rewrite Hlen.
        by apply lookup_lt_is_Some.
Qed.

Lemma run_is_Some {T} (step : nat → nat → T → option T) (P : T → Prop)
    (n k : nat) (positions : list T) (movement : list (list T)) :
  (∀ k j pos, P pos → ∃ pos', step k j pos = Some pos' ∧ P pos') →
  Forall P positions →
  is_Some (run step n k positions movement).
Proof.
  intros Hstep. revert k positions movement.
  induction n as [|n IH]; intros k positions movement HP; [by eexists |].
  simpl.
  destruct (step_all_is_Some (step k) 0 positions P) as [positions' Hs];
    [| done |].
  { intros j pos Hpos. destruct (Hstep k j pos Hpos) as (? & -> & _).
    by eexists. }
  rewrite Hs. simpl. apply IH.
  eapply (step_all_post (step k) 0 positions positions' P P); [| done..].
  intros j pos pos' Hpos Hstepj.
  destruct (Hstep k j pos Hpos) as (pos'' & E & HP''). congruence.
Qed.

(** Two loop bodies that agree on the positions of an invariant give the
    same run. *)
Lemma step_all_ext {T} (step step' : nat → T → option T) (P : T → Prop)
    (j0 : nat) (positions : list T) :
  (∀ j pos, P pos → step j pos = step' j pos) →
  Forall P positions →
  step_all step j0 positions = step_all step' j0 positions.
Proof.
  intros Hext. revert j0.
  induction positions as [|pos rest IH]; intros j0 HP; [done |].
  apply Forall_cons in HP as [Hpos Hrest]. simpl.
  by rewrite (Hext j0 pos Hpos), (IH (S j0) Hrest).
Qed.

Lemma run_ext {T} (step step' : nat → nat → T → option T) (P : T → Prop)
    (n k : nat) (positions : list T) (movement : list (list T)) :
  (∀ k j pos, P pos → step k j pos = step' k j pos) →
  (∀ k j pos pos', P pos → step k j pos = Some pos' → P pos') →
  Forall P positions →
  run step n k positions movement = run step' n k positions movement.
Proof.
  intros Hext Hinv. revert k positions movement.
  induction n as [|n IH]; intros k positions movement HP; [done |].
  simpl. rewrite <- (step_all_ext (step k) (step' k) P 0 positions);
    [| by apply Hext | done].
  destruct (step_all (step k) 0 positions) as [positions'|] eqn:Hs;
    [| done].
  simpl. apply IH.
  by eapply (step_all_post (step k) 0 positions positions' P P);
    [apply Hinv | |].
Qed.

(** The array returned from [np.zeros((num, steps, 2))]: its shape, its
    first column, and what holds of the later columns when the loop body
    takes a position that satisfies [P] to one that satisfies [Q]. *)
Lemma run_from_zeros {T} (step : nat → nat → T → option T)
    (P Q : T → Prop) (z : T) (steps : nat)
    (positions : list T) (traj : list (list T)) :
  (∀ k j pos pos', P pos → step k j pos = Some pos' → Q pos') →
  (∀ pos, Q pos → P pos) → Forall P positions →
  run step steps 0 positions
    (replicate (length positions) (replicate steps z)) = Some traj →
  has_shape (length positions) steps traj ∧
  (∀ j, 0 < steps → recorded traj j 0 = positions !! j) ∧
  (∀ j k pos, 1 ≤ k → recorded traj j k = Some pos → Q pos).
Proof.
  intros Hstep HQP HP Hrun.
  assert (Hz : ∀ j, j < length positions →
            replicate (length positions) (replicate steps z) !! j
            = Some (replicate steps z)).
  { intros j Hj. by apply lookup_replicate_2. }
  destruct (run_columns step (λ _, True) steps 0 positions
              (replicate (length positions) (replicate steps z)) traj)
    as [Hlen Hrows]; [done | by apply Forall_true | exact Hrun |].
  rewrite length_replicate in Hlen.
  split; [| split].
  - split; [done |]. apply Forall_lookup. intros j row' Hrow'.
    destruct (Hrows j (replicate steps z)) as (row'' & E & Hl & _).
    { apply Hz. apply lookup_lt_Some in Hrow'. lia. }
    rewrite length_replicate in Hl. congruence.
  - intros j Hsteps. unfold recorded.
    destruct (decide (j < length positions)) as [Hj|Hj].
    2:{ rewrite (proj2 (lookup_ge_None traj j)) by lia.
        symmetry. apply lookup_ge_None. lia. }
    destruct steps as [|n]; [lia |]. simpl in Hrun.
    destruct (step_all (step 0) 0 positions) as [positions'|] eqn:Hs;
      [| done].
    simpl in Hrun.
    destruct (run_columns step (λ _, True) n 1 positions'
                (record 0 positions
                   (replicate (length positions) (replicate (S n) z))) traj)
      as [_ Hrows1]; [done | by apply Forall_true | exact Hrun |].
    destruct (lookup_lt_is_Some_2 positions j Hj) as [pos Hpos].
    destruct (Hrows1 j (<[0 := pos]> (replicate (S n) z)))
      as (row' & Hrow' & _ & Hframe & _).
    { rewrite record_lookup, (Hz j Hj). simpl. by rewrite Hpos. }
    rewrite Hrow'. simpl. rewrite Hframe by lia. by rewrite Hpos.
  - intros j k pos Hk Hrec. unfold recorded in Hrec.
    destruct (traj !! j) as [row'|] eqn:Hrow'; [| done]. simpl in Hrec.
    assert (Hj : j < length positions).
    { apply lookup_lt_Some in Hrow'. lia. }
    destruct steps as [|n].
    { injection Hrun as <-. apply lookup_replicate in Hrow' as [-> _].
      done. }
    simpl in Hrun.
    destruct (step_all (step 0) 0 positions) as [positions'|] eqn:Hs;
      [| done].
    simpl in Hrun.
    destruct (step_all_post (step 0) 0 positions positions' P Q)
      as [HQ Hlen']; [by eauto | done | done |].
    destruct (run_columns step Q n 1 positions'
                (record 0 positions
                   (replicate (length positions) (replicate (S n) z))) traj)
      as [_ Hrows1]; [by eauto | done | exact Hrun |].
    destruct (lookup_lt_is_Some_2 positions j Hj) as [p Hp].
    destruct (Hrows1 j (<[0 := p]> (replicate (S n) z)))
      as (row'' & Hrow'' & Hl & _ & Hinv).
    { rewrite record_lookup, (Hz j Hj). simpl. by rewrite Hp. }
    assert (row'' = row') by congruence. subst row''.
    apply (Hinv k pos); [| | done].
    + apply lookup_lt_Some in Hrec.
      rewrite Hl, length_insert, length_replicate in Hrec. lia.
    + apply lookup_lt_is_Some. lia.
Qed.

(** The later columns, and all columns when the initial positions satisfy
    the invariant too. *)
Lemma run_invariant {T} (step : nat → nat → T → option T)
    (P Q : T → Prop) (z : T) (steps : nat)
    (initial : list T) (traj : list (list T)) :
  (∀ k j pos pos', P pos → step k j pos = Some pos' → Q pos') →
  (∀ pos, Q pos → P pos) → Forall P initial →
  run step steps 0 initial
    (replicate (length initial) (replicate steps z)) = Some traj →
  (∀ j k pos, 1 ≤ k → recorded traj j k = Some pos → Q pos) ∧
  (Forall Q initial →
   ∀ j k pos, recorded traj j k = Some pos → Q pos).
Proof.
  intros Hstep HQP HP Hrun.
  destruct (run_from_zeros step P Q z steps initial traj Hstep HQP HP Hrun)
    as ([Hlen Hrows] & Hfirst & Hlater).
  split; [exact Hlater |].
  intros Hinit j k pos Hrec.
  destruct k as [|k]; [| apply (Hlater j (S k)); [lia | done]].
  assert (Hsteps : 0 < steps).
  { unfold recorded in Hrec.
    destruct (traj !! j) as [row|] eqn:Hrow; [| done]. simpl in Hrec.
    apply lookup_lt_Some in Hrec.
    pose proof (Forall_lookup_1 _ _ _ _ Hrows Hrow) as Hl.
    simpl in Hl. lia. }
  rewrite (Hfirst j Hsteps) in Hrec.
  by apply (Forall_lookup_1 _ _ _ _ Hinit Hrec).
Qed.

End StepLoop.

(* ================================================================== *)
(** ** Trajectories of the two kernels *)

Section KernelTrajectories.
Import Numeric Boundary NumpyFloat Movement Habitat Trajectory.
Local Open Scope R_scope.

Lemma remap_defined (tmp1 : R * R) (rangex rangey : R) :
  0 < rangex → 0 < rangey →
  ∃ pos, remap tmp1 rangex rangey = Some pos ∧ in_habitat rangex rangey pos.
Proof.
  intros Hx Hy. unfold remap.
  destruct (reflect_bounds tmp1.1 rangex Hx) as (x & -> & Hbx).
  destruct (reflect_bounds tmp1.2 rangey Hy) as (y & -> & Hby).
  by exists (x, y).
Qed.





Lemma step_one_defined (heatmap : heatmap_t)
    (rows cols : nat) (resolution velocity range_ angle u : R)
    (pos : R * R) :
  0 < resolution → covers heatmap rows cols resolution range_ →
  suitability heatmap → 0 <= u < 1 → in_habitat range_ range_ pos →
  ∃ pos', in_habitat range_ range_ pos' ∧
          ∀ stray, step_one (cells heatmap) stray resolution velocity range_
                     angle u (point pos) = Some (point pos').
Proof.
  intros Hres Hcov Hsuit Hu Hin.
  destruct (read_covered heatmap pos resolution range_ rows cols)
    as (ix & iy & row & value & Hx & Hy & Hrow & Hval & Hread); [done.. |].
  assert (Hv : 0 <= value <= 1).
  { pose proof (proj1 (Forall_forall _ _) Hsuit row Hrow) as Hr.
    exact (proj1 (Forall_forall _ _) Hr value Hval). }
  destruct (remap_defined
              (pos.1 + velocity * (exponent_of value - 1)
                       / (Rpower (1 - u) (1 / exponent_of value)
                          * exponent_of value) * cos angle,
               pos.2 + velocity * (exponent_of value - 1)
                       / (Rpower (1 - u) (1 / exponent_of value)
                          * exponent_of value) * sin angle)
              range_ range_) as (pos' & E & Hin'); [destruct Hin; lra.. |].
  exists pos'. split; [done |]. intros stray.
  rewrite (step_one_point _ _ _ _ _ _ _ _ _ _ value Hx Hy (Hread stray)).
  rewrite magnitude_defined by lra. cbn [mbind option_bind].
  by rewrite E.
Qed.

Lemma brownian_run_unfold z (initial : list (R * R)) (velocity : R)
    (rangex rangey : R) (steps : nat) :
  ConstantBrownian._movement z initial velocity (rangex, rangey) steps
  = run (λ k j, ConstantBrownian.step_one rangex rangey
                  (ConstantBrownian.directions z
                     (ConstantBrownian.sigma_of velocity) k j))
      steps 0 initial (zeros (length initial) steps).
Proof. reflexivity. Qed.

(** The ways in which the heatmap-weighted kernel returns: after the loop
    over [num] rows of positions, or with the untouched array of zeros when
    there is no step or no individual. *)
Lemma kernel_cases random_angles rand stray heatmap
    (initial : list position) (resolution : R) (num : nat)
    (velocity range_ : R) (days steps_per_day : nat) traj :
  _movement random_angles rand stray heatmap initial resolution num
    velocity range_ days steps_per_day = Some traj →
  (length initial = num ∧
   ∃ v, run (λ k j, step_one heatmap (stray k j) resolution v range_
                      (random_angles k j) (rand k j))
          (days * steps_per_day) 0 initial
          (replicate (length initial)
             (replicate (days * steps_per_day) (Fin 0, Fin 0)))
        = Some traj) ∨
  (traj = replicate num (replicate (days * steps_per_day) (Fin 0, Fin 0)) ∧
   ((days * steps_per_day = 0)%nat ∨ num = 0%nat)).
Proof.
  unfold _movement.
  destruct (fdiv velocity (INR steps_per_day)) as [v|]; [| done].
  cbn [mbind option_bind].
  destruct (decide ((days * steps_per_day)%nat = 0%nat
                    ∨ length initial = num)) as [[H0|Hlen]|_].
  - rewrite H0. cbn [run]. intros [= <-]. right. split; [done | by left].
  - subst num. intros Hrun. left. split; [done |]. by exists v.
  - destruct (decide (length initial = 1%nat ∧ num = 0%nat)) as [[_ ->]|_];
      [| done].
    intros [= <-]. right. split; [done | by right].
Qed.

Lemma zeros64_empty (num steps j k : nat) :
  (steps = 0 ∨ num = 0)%nat →
  recorded (replicate num (replicate steps (Fin 0, Fin 0))) j k = None.
Proof.
  intros H. unfold recorded.
  destruct (replicate num (replicate steps (Fin 0, Fin 0)) !! j)
    as [row|] eqn:Hrow; [| done].
  apply lookup_replicate in Hrow as [-> Hj].
  destruct H as [-> | ->]; [done | lia].
Qed.

(** An invariant of the positions recorded by the heatmap-weighted
    kernel. *)
Lemma kernel_invariant (P Q : position → Prop) random_angles rand stray
    heatmap (initial : list position) (resolution : R) (num : nat)
    (velocity range_ : R) (days steps_per_day : nat) traj :
  (∀ k j v pos pos',
     P pos →
     step_one heatmap (stray k j) resolution v range_ (random_angles k j)
       (rand k j) pos = Some pos' → Q pos') →
  (∀ pos, Q pos → P pos) → Forall P initial →
  _movement random_angles rand stray heatmap initial resolution num
    velocity range_ days steps_per_day = Some traj →
  (∀ j k pos, (1 ≤ k)%nat → recorded traj j k = Some pos → Q pos) ∧
  (Forall Q initial →
   ∀ j k pos, recorded traj j k = Some pos → Q pos).
Proof.
  intros Hstep HQP HP Hrun.
  apply kernel_cases in Hrun as [[_ [v Hrun]] | [-> Hempty]].
  - eapply run_invariant; [| exact HQP | exact HP | exact Hrun].
    intros k j pos pos'. apply Hstep.
  - split; [intros j k pos _ | intros _ j k pos];
      by rewrite zeros64_empty.
Qed.

Lemma trajectory_shape_aux :
  (∀ random_angles rand stray heatmap (initial : list position) resolution
     num velocity range_ days steps_per_day,
     (steps_per_day ≠ 0%nat →
      _movement random_angles rand stray heatmap initial resolution num
        velocity range_ 0 steps_per_day = Some (replicate num [])) ∧
     ∀ traj,
       _movement random_angles rand stray heatmap initial resolution num
         velocity range_ days steps_per_day = Some traj →
       has_shape num (days * steps_per_day) traj ∧
       (length initial = num →
        ∀ j, (0 < days * steps_per_day)%nat →
             recorded traj j 0 = initial !! j)) ∧
  (∀ z (initial : list (R * R)) velocity range_ steps traj,
     ConstantBrownian._movement z initial velocity range_ steps = Some traj →
     has_shape (length initial) steps traj ∧
     ∀ j, (0 < steps)%nat → recorded traj j 0 = initial !! j).
Proof.
  split.
  - intros random_angles rand stray heatmap initial resolution num velocity
      range_ days steps_per_day. split.
    + intros Hspd. unfold _movement, fdiv.
      destruct (Req_dec_T (INR steps_per_day) 0) as [E|_].
      { by apply (INR_eq steps_per_day 0) in E. }
      cbn [mbind option_bind Nat.mul].
      destruct (decide (0%nat = 0%nat ∨ length initial = num)) as [_|H];
        [done | exfalso; apply H; by left].
    + intros traj Hrun.
      apply kernel_cases in Hrun as [[<- [v Hrun]] | [-> Hempty]].
      * apply (run_from_zeros _ (λ _, True) (λ _, True)) in Hrun
          as (Hshape & Hfirst & _); [done | done | done |].
        by apply Forall_true.
      * split.
        -- split; [by rewrite length_replicate |].
           apply Forall_replicate. by rewrite length_replicate.
        -- intros Hlen j Hsteps. rewrite zeros64_empty by done.
           destruct Hempty as [H0 | ->]; [lia |].
           symmetry. apply lookup_ge_None. lia.
  - intros z initial velocity [rangex rangey] steps traj.
    rewrite brownian_run_unfold. intros Hrun.
    apply (run_from_zeros _ (λ _, True) (λ _, True)) in Hrun
      as (Hshape & Hfirst & _); [done | done | done |].
    by apply Forall_true.
Qed.

(** A run of the heatmap-weighted kernel: one individual at [(5, 5)], a
    one-cell heatmap over the habitat of extent 20, velocity 0, one day of
    two steps. *)
Lemma kernel_example :
  _movement (λ _ _, 0) (λ _ _, 0) (λ _ _, NaN) (cells [[1]])
    (point <$> [(5, 5)]) 20 1 0 20 1 2
  = Some (frozen 2 (point <$> [(5, 5)])).
Proof.
  apply (heatmap_zero_velocity (λ _ _, 0) (λ _ _, 0) (λ _ _, NaN)
           (cells [[1]]) [(5, 5)] 20 20 1%nat 2%nat).
  - repeat constructor; simpl; lra.
  - lia.
  - intros; lra.
  - intros k j angle u pos Hu Hpos.
    apply (step_one_zero_covered [[1]] NaN 1%nat 1%nat); try done; [lra | |].
    + unfold covers. simpl. repeat split; try lra. repeat constructor.
    + repeat constructor; lra.
Qed.

(** X8: a trajectory returned by either kernel has shape
    [[num, steps, 2]], whatever the inputs.  The heatmap-weighted kernel
    takes [num] from its argument: with zero days it returns the empty
    array of [num] rows whatever [random_positions] holds, even with
    another number of rows.  When [random_positions] has [num] rows and
    there is at least one step, the first column holds the initial
    positions: the positions are recorded before the individuals move. *)
Theorem trajectory_shape_and_start :
  (∀ random_angles rand stray heatmap (initial : list position) resolution
     num velocity range_ days steps_per_day,
     (steps_per_day ≠ 0%nat →
      _movement random_angles rand stray heatmap initial resolution num
        velocity range_ 0 steps_per_day = Some (replicate num [])) ∧
     ∀ traj,
       _movement random_angles rand stray heatmap initial resolution num
         velocity range_ days steps_per_day = Some traj →
       has_shape num (days * steps_per_day) traj ∧
       (length initial = num →
        ∀ j, (0 < days * steps_per_day)%nat →
             recorded traj j 0 = initial !! j)) ∧
  (∀ z (initial : list (R * R)) velocity range_ steps traj,
     ConstantBrownian._movement z initial velocity range_ steps = Some traj →
     has_shape (length initial) steps traj ∧
     ∀ j, (0 < steps)%nat → recorded traj j 0 = initial !! j).
Proof. exact trajectory_shape_aux. Qed.

Lemma trajectory_shape_and_start_witness :
  _movement (λ _ _, 0) (λ _ _, 0) (λ _ _, NaN) [[Fin 1]]
    [point (5, 5); point (1, 1); point (2, 2)] 20 2 3 20 0 1
  = Some (replicate 2 []) ∧
  (∃ traj,
     _movement (λ _ _, 0) (λ _ _, 0) (λ _ _, NaN) (cells [[1]])
       (point <$> [(5, 5)]) 20 1 0 20 1 2 = Some traj ∧
     has_shape 1 (1 * 2) traj ∧
     (length (point <$> [(5, 5)]) = 1%nat →
      ∀ j, (0 < 1 * 2)%nat →
           recorded traj j 0 = (point <$> [(5, 5)]) !! j)) ∧
  ∃ traj,
    ConstantBrownian._movement (λ _ _ _, 1) [(5, 5)] 0 (20, 10) 2
    = Some traj ∧
    has_shape (length [(5, 5)]) 2 traj ∧
    ∀ j, (0 < 2)%nat → recorded traj j 0 = [(5, 5)] !! j.
Proof.
  split; [| split].
  - apply (proj1 (proj1 trajectory_shape_and_start (λ _ _, 0) (λ _ _, 0)
                    (λ _ _, NaN) [[Fin 1]]
                    [point (5, 5); point (1, 1); point (2, 2)] 20 2%nat 3
                    20 0%nat 1%nat)).
    lia.
  - exists (frozen 2 (point <$> [(5, 5)])).
    split; [exact kernel_example |].
    exact (proj2 (proj1 trajectory_shape_and_start (λ _ _, 0) (λ _ _, 0)
                    (λ _ _, NaN) (cells [[1]]) (point <$> [(5, 5)]) 20
                    1%nat 0 20 1%nat 2%nat) _ kernel_example).
  - exists (frozen 2 [(5, 5)]).
    assert (H : ConstantBrownian._movement (λ _ _ _, 1) [(5, 5)] 0 (20, 10) 2
                = Some (frozen 2 [(5, 5)])).
    { apply brownian_zero_velocity. repeat constructor; simpl; lra. }
    split; [exact H |].
    exact (proj2 trajectory_shape_and_start _ _ _ _ _ _ H).
Defined.




Lemma kernels_complete_aux :
  (∀ random_angles rand (heatmap : heatmap_t) (rows cols : nat)
     (initial : list (R * R)) resolution velocity range_ days
     steps_per_day,
     Forall (in_habitat range_ range_) initial → 0 < range_ →
     steps_per_day ≠ 0%nat → 0 < resolution →
     covers heatmap rows cols resolution range_ → suitability heatmap →
     (∀ k j, 0 <= rand k j < 1) →
     ∃ traj, ∀ stray,
       _movement random_angles rand stray (cells heatmap)
         (point <$> initial) resolution (length initial) velocity
         range_ days steps_per_day = Some traj) ∧
  (∀ z (initial : list (R * R)) velocity rangex rangey steps,
     0 < rangex → 0 < rangey →
     is_Some (ConstantBrownian._movement z initial velocity
                (rangex, rangey) steps)).
Proof.
  split.
  - intros random_angles rand heatmap rows cols initial resolution
      velocity range_ days steps_per_day Hin Hr Hspd Hres Hcov Hsuit Hrand.
    assert (Hinit : Forall (inside range_) (point <$> initial)).
    { apply Forall_fmap. eapply Forall_impl; [exact Hin |].
      intros q Hq. by exists q. }
    assert (Hstep : ∀ stray k j pos,
              inside range_ pos →
              ∃ pos',
                step_one (cells heatmap) (stray k j) resolution
                  (velocity / INR steps_per_day) range_ (random_angles k j)
                  (rand k j) pos = Some pos' ∧ inside range_ pos').
    { intros stray k j pos (q & -> & Hq).
      destruct (step_one_defined heatmap rows cols resolution
                  (velocity / INR steps_per_day) range_ (random_angles k j)
                  (rand k j) q) as (q' & Hq' & E); [done.. |].
      exists (point q'). split; [apply E | by exists q']. }
    destruct (run_is_Some
                (λ k j, step_one (cells heatmap) NaN resolution
                          (velocity / INR steps_per_day) range_
                          (random_angles k j) (rand k j))
                (inside range_) (days * steps_per_day) 0
                (point <$> initial)
                (replicate (length (point <$> initial))
                   (replicate (days * steps_per_day) (Fin 0, Fin 0))))
      as [traj Htraj]; [apply (Hstep (λ _ _, NaN)) | done |].
    exists traj. intros stray.
    rewrite <- (length_fmap point initial) at 1.
    rewrite _movement_unfold by done. rewrite <- Htraj.
    apply (run_ext _ _ (inside range_)); [| | done].
    + intros k j pos (q & -> & Hq).
      destruct (step_one_defined heatmap rows cols resolution
                  (velocity / INR steps_per_day) range_ (random_angles k j)
                  (rand k j) q) as (q' & Hq' & E); [done.. |].
      by rewrite !E.
    + intros k j pos pos' Hpos Hs.
      destruct (Hstep stray k j pos Hpos) as (pos'' & E & Hpos'').
      congruence.
  - intros z initial velocity rangex rangey steps Hx Hy.
    rewrite brownian_run_unfold.
    apply (run_is_Some _ (λ _, True)); [| by apply Forall_true].
    intros k j pos _. unfold ConstantBrownian.step_one.
    destruct (remap_defined
                (pos.1 + (ConstantBrownian.directions z
                            (ConstantBrownian.sigma_of velocity) k j).1,
                 pos.2 + (ConstantBrownian.directions z
                            (ConstantBrownian.sigma_of velocity) k j).2)
                rangex rangey Hx Hy) as (pos' & E & _).
    by exists pos'.
Qed.

(** X10: the kernels complete.  The heatmap-weighted kernel returns a
    trajectory, so that no division is by zero and no power is undefined
    at any step, whenever the heatmap covers the habitat with values in
    [[0, 1]], the uniform draws are in [[0, 1)], the resolution is
    positive, there is at least one step per day and the [num] initial
    positions lie in the habitat; and no read leaves the heatmap: the
    trajectory is the same whatever lies outside the grid.  The
    constant-brownian kernel returns a trajectory whenever both extents
    are positive. *)
Theorem kernels_complete :
  (∀ random_angles rand (heatmap : heatmap_t) (rows cols : nat)
     (initial : list (R * R)) resolution velocity range_ days
     steps_per_day,
     Forall (in_habitat range_ range_) initial → 0 < range_ →
     steps_per_day ≠ 0%nat → 0 < resolution →
     covers heatmap rows cols resolution range_ → suitability heatmap →
     (∀ k j, 0 <= rand k j < 1) →
     ∃ traj, ∀ stray,
       _movement random_angles rand stray (cells heatmap)
         (point <$> initial) resolution (length initial) velocity
         range_ days steps_per_day = Some traj) ∧
  (∀ z (initial : list (R * R)) velocity rangex rangey steps,
     0 < rangex → 0 < rangey →
     is_Some (ConstantBrownian._movement z initial velocity
                (rangex, rangey) steps)).
Proof. exact kernels_complete_aux. Qed.

Lemma kernels_complete_witness :
  (∃ traj, ∀ stray,
     _movement (λ _ _, 1) (λ _ _, 1 / 2) stray
       (cells [[1; 0]; [0; 1]]) (point <$> [(5, 5); (15, 3)]) 10
       (length [(5, 5); (15, 3)]) 3 20 2 4 = Some traj) ∧
  is_Some (ConstantBrownian._movement (λ _ _ _, 1) [(5, 5)] 3 (20, 10) 2).
Proof.
  split.
  - apply (proj1 kernels_complete (λ _ _, 1) (λ _ _, 1 / 2)
             [[1; 0]; [0; 1]] 2%nat 2%nat [(5, 5); (15, 3)] 10 3 20
             2%nat 4%nat).
    + repeat constructor; simpl; lra.
    + lra.
    + lia.
    + lra.
    + unfold covers. simpl. repeat split; try lra. repeat constructor.
    + repeat constructor; lra.
    + intros. lra.
  - apply (proj2 kernels_complete); lra.
Defined.

End KernelTrajectories.

(* ================================================================== *)
(** ** The length of a heatmap-weighted step *)

Section StepLengthBounds.
Import Numeric Movement.
Local Open Scope R_scope.

Lemma Rpower_le_1 (x y : R) : 0 < x <= 1 → 0 <= y → Rpower x y <= 1.
Proof.
  intros [Hx0 Hx1] Hy. unfold Rpower.
  rewrite <- exp_0. destruct (Req_dec_T (y * ln x) 0) as [->|Hne]; [lra |].
  left. apply exp_increasing.
  assert (Hln : ln x <= 0).
  { rewrite <- ln_1. destruct Hx1 as [Hlt| ->]; [| lra].
    left. by apply ln_increasing. }
  nra.
Qed.

(** X11: for a positive per-step velocity, a suitability value in
    [[0, 1]] and a uniform draw in [[0, 1)], the step length is at least
    [velocity * (exponent - 1) / exponent], which is attained at [u = 0] and
    lies between [velocity / 11] and [velocity / 2]; the step length does
    not decrease when the draw increases. *)
Theorem magnitude_lower_bound (velocity v u u' : R) :
  0 < velocity → 0 <= v <= 1 → 0 <= u < 1 → 0 <= u' < 1 →
  let exponent := exponent_of v in
  let shortest := velocity * (exponent - 1) / exponent in
  ∃ m m', magnitude velocity v u = Some m ∧
          magnitude velocity v u' = Some m' ∧
          shortest <= m ∧ (u = 0 → m = shortest) ∧
          velocity / 11 <= shortest <= velocity / 2 ∧
          (u <= u' → m <= m').
Proof.
  intros Hvel Hv Hu Hu' exponent shortest.
  assert (He : 1.1 <= exponent <= 2) by (unfold exponent, exponent_of; lra).
  rewrite !magnitude_defined by lra. fold exponent.
  eexists _, _. split; [reflexivity |]. split; [reflexivity |].
  set (A := velocity * (exponent - 1)).
  assert (HA : 0 < A) by (unfold A; nra).
  assert (Hinv : 0 <= 1 / exponent).
  { left. apply Rdiv_lt_0_compat; lra. }
  assert (Hpw : ∀ w, 0 <= w < 1 →
            0 < Rpower (1 - w) (1 / exponent) <= 1).
  { intros w Hw. split; [apply exp_pos |].
    apply Rpower_le_1; lra. }
  assert (Hdiv : ∀ p q, 0 < p → p <= q → A / (q * exponent)
                                         <= A / (p * exponent)).
  { intros p q Hp Hpq. unfold Rdiv.
    apply Rmult_le_compat_l; [lra |].
    apply Rinv_le_contravar; nra. }
  split; [| split; [| split]].
  - unfold shortest. fold A.
    replace (A / exponent) with (A / (1 * exponent)) by (f_equal; lra).
    apply Hdiv; apply (Hpw u Hu).
  - intros ->. unfold shortest. fold A.
    replace (1 - 0) with 1 by lra.
    unfold Rpower. rewrite ln_1, Rmult_0_r, exp_0.
    f_equal. lra.
  - unfold shortest, exponent, exponent_of. split.
    + apply Rmult_le_reg_r with (11 * (1.1 + 0.9 * v)); [lra |].
      replace (velocity / 11 * (11 * (1.1 + 0.9 * v)))
        with (velocity * (1.1 + 0.9 * v)) by (field; lra).
      replace (velocity * (1.1 + 0.9 * v - 1) / (1.1 + 0.9 * v)
               * (11 * (1.1 + 0.9 * v)))
        with (11 * velocity * (1.1 + 0.9 * v - 1)) by (field; lra).
      nra.
    + apply Rmult_le_reg_r with (2 * (1.1 + 0.9 * v)); [lra |].
      replace (velocity / 2 * (2 * (1.1 + 0.9 * v)))
        with (velocity * (1.1 + 0.9 * v)) by (field; lra).
      replace (velocity * (1.1 + 0.9 * v - 1) / (1.1 + 0.9 * v)
               * (2 * (1.1 + 0.9 * v)))
        with (2 * velocity * (1.1 + 0.9 * v - 1)) by (field; lra).
      nra.
  - intros Huu. apply Hdiv; [apply (Hpw u' Hu') |].
    apply Rle_Rpower_l; lra.
Qed.

Lemma magnitude_lower_bound_witness :
  ∃ m m', magnitude 3 (1 / 2) 0 = Some m ∧
          magnitude 3 (1 / 2) (1 / 4) = Some m' ∧
          3 * (exponent_of (1 / 2) - 1) / exponent_of (1 / 2) <= m ∧
          (0 = 0 → m = 3 * (exponent_of (1 / 2) - 1) / exponent_of (1 / 2)) ∧
          3 / 11 <= 3 * (exponent_of (1 / 2) - 1) / exponent_of (1 / 2)
          <= 3 / 2 ∧
          (0 <= 1 / 4 → m <= m').
Proof. apply (magnitude_lower_bound 3 (1 / 2) 0 (1 / 4)); lra. Defined.

End StepLengthBounds.

(* ================================================================== *)
(** ** [make_data]: the kernel on the normalised heatmap *)

Section MakeData.
Import Numeric ScalingLaws Movement Habitat Trajectory MovementData.
Local Open Scope R_scope.

Lemma elem_of_concat {A} (x : A) (ls : list (list A)) :
  x ∈ concat ls ↔ ∃ l, x ∈ l ∧ l ∈ ls.
Proof.
  rewrite list_elem_of_In, in_concat. split.
  - intros (l & Hl & Hx). exists l. by rewrite !list_elem_of_In.
  - intros (l & Hx & Hl). exists l. by rewrite <- !list_elem_of_In.
Qed.

(** A density estimate: no negative cell, at least one positive cell. *)
Lemma normalize_heatmap_spec (kde : heatmap_t) :
  Forall (Forall (λ v, 0 <= v)) kde →
  Exists (Exists (λ v, 0 < v)) kde →
  ∃ hi, heatmap_max kde = Some hi ∧ 0 < hi ∧
        normalize_heatmap kde = Some (divide_cells hi kde) ∧
        suitability (divide_cells hi kde) ∧
        1 ∈ concat (divide_cells hi kde).
Proof.
  intros Hnn Hpos.
  apply Exists_exists in Hpos as (row & Hrow & Hex).
  apply Exists_exists in Hex as (v & Hv & Hv0).
  assert (Hin : v ∈ concat kde).
  { apply elem_of_concat. by exists row. }
  destruct (amax (concat kde)) as [hi|] eqn:Hhi.
  2:{ destruct (concat kde); [by apply elem_of_nil in Hin | done]. }
  destruct (amax_spec _ _ Hhi) as [Hhi_in Hub].
  assert (Hhi0 : 0 < hi).
  { pose proof (proj1 (Forall_forall _ _) Hub v Hin). simpl in *. lra. }
  exists hi. split; [done |]. split; [done |].
  split; [| split].
  - unfold normalize_heatmap, heatmap_max. rewrite Hhi. simpl.
    destruct (Req_dec_T hi 0); [lra | done].
  - unfold suitability, divide_cells. apply Forall_fmap, Forall_forall.
    intros r Hr. simpl. apply Forall_fmap, Forall_forall.
    intros w Hw. simpl.
    pose proof (proj1 (Forall_forall _ _)
                  (proj1 (Forall_forall _ _) Hnn r Hr) w Hw) as Hw0.
    assert (Hwin : w ∈ concat kde).
    { apply elem_of_concat. by exists r. }
    pose proof (proj1 (Forall_forall _ _) Hub w Hwin) as Hwhi.
    simpl in Hw0, Hwhi. split.
    + apply Rmult_le_reg_r with hi; [done |].
      replace (w / hi * hi) with w by (field; lra). lra.
    + apply Rmult_le_reg_r with hi; [done |].
      replace (w / hi * hi) with w by (field; lra). lra.
  - apply elem_of_concat in Hhi_in as (r & Hhir & Hr).
    apply elem_of_concat. exists ((λ v, v / hi) <$> r).
    split; [| by apply (list_elem_of_fmap_2 (λ row : list R, _ <$> row))].
    apply list_elem_of_fmap. exists hi. split; [field; lra | done].
Qed.

Lemma covers_divide_cells (kde : heatmap_t) (m : R) (rows cols : nat)
    (resolution range_ : R) :
  covers kde rows cols resolution range_ →
  covers (divide_cells m kde) rows cols resolution range_.
Proof.
  intros (Hrows & Hcols & Hr & Hc). unfold covers, divide_cells.
  rewrite length_fmap. repeat split; try done.
  apply Forall_fmap. eapply Forall_impl; [exact Hcols |].
  intros row Hrow. simpl. by rewrite length_fmap.
Qed.

(** A run on a heatmap of numbers that covers the habitat: the whole
    trajectory lies in the habitat. *)
Lemma covered_run_inside random_angles rand stray (heatmap : heatmap_t)
    (rows cols : nat) (initial : list (R * R))
    (resolution velocity range_ : R) (days steps_per_day : nat) traj :
  Forall (in_habitat range_ range_) initial → 0 < range_ →
  0 < resolution → covers heatmap rows cols resolution range_ →
  suitability heatmap → (∀ k j, 0 <= rand k j < 1) →
  _movement random_angles rand stray (cells heatmap) (point <$> initial)
    resolution (length initial) velocity range_ days steps_per_day
  = Some traj →
  ∀ j k pos, recorded traj j k = Some pos → inside range_ pos.
Proof.
  intros Hin Hr Hres Hcov Hsuit Hrand Hrun.
  apply (kernel_invariant (inside range_) (inside range_)) in Hrun
    as [_ Hall]; [apply Hall | | done |].
  - apply Forall_fmap. eapply Forall_impl; [exact Hin |].
    intros q Hq. by exists q.
  - intros k j v pos pos' (q & -> & Hq) Hstep.
    destruct (step_one_defined heatmap rows cols resolution v
                range_ (random_angles k j) (rand k j) q)
      as (q' & Hq' & E); [done.. |].
    rewrite E in Hstep. injection Hstep as <-. by exists q'.
  - apply Forall_fmap. eapply Forall_impl; [exact Hin |].
    intros q Hq. by exists q.
Qed.

(** X12: [make_data] divides the density estimate by its own maximum, so
    that the heatmap handed to the kernel has values in [[0, 1]] and peak
    exactly 1.  When the estimate has no negative and at least one positive
    cell and covers the habitat, the initial positions lie in the habitat,
    the resolution is positive, the draws are in [[0, 1)] and there is at
    least one step per day, [make_data] returns a trajectory of shape
    [[num, days * steps_per_day, 2]] that starts at the initial positions
    and never leaves the habitat; no read leaves the heatmap, so that the
    trajectory is the same whatever lies outside the grid. *)
Theorem make_data_trajectory (random_angles rand : nat → nat → R)
    (initial_data : InitialData) (rows cols days steps_per_day : nat) :
  let range_ := range initial_data in
  Forall (Forall (λ v, 0 <= v)) (kde_approximation initial_data) →
  Exists (Exists (λ v, 0 < v)) (kde_approximation initial_data) →
  covers (kde_approximation initial_data) rows cols
    (resolution initial_data) range_ →
  0 < resolution initial_data → 0 < range_ →
  Forall (in_habitat range_ range_) (initial_points initial_data) →
  length (initial_points initial_data) = num initial_data →
  steps_per_day ≠ 0%nat → (∀ k j, 0 <= rand k j < 1) →
  ∃ heatmap traj,
    normalize_heatmap (kde_approximation initial_data) = Some heatmap ∧
    suitability heatmap ∧ 1 ∈ concat heatmap ∧
    (∀ stray,
       make_data random_angles rand stray initial_data days steps_per_day
       = Some traj) ∧
    has_shape (num initial_data) (days * steps_per_day) traj ∧
    (∀ j, (0 < days * steps_per_day)%nat →
          recorded traj j 0 = point <$> initial_points initial_data !! j) ∧
    (∀ j k pos, recorded traj j k = Some pos →
                ∃ q, pos = point q ∧ in_habitat range_ range_ q).
Proof.
  intros range_ Hnn Hpos Hcov Hres Hr Hin Hnum Hspd Hrand.
  destruct (normalize_heatmap_spec _ Hnn Hpos)
    as (hi & _ & Hhi & Hnorm & Hsuit & Hpeak).
  exists (divide_cells hi (kde_approximation initial_data)).
  destruct (proj1 kernels_complete_aux random_angles rand
              (divide_cells hi (kde_approximation initial_data))
              rows cols (initial_points initial_data)
              (resolution initial_data) (velocity initial_data) range_
              days steps_per_day Hin Hr Hspd Hres
              (covers_divide_cells _ _ _ _ _ _ Hcov) Hsuit Hrand)
    as [traj Htraj].
  pose proof (covered_run_inside _ _ _ _ _ _ _ _ _ _ _ _ _ Hin Hr Hres
                (covers_divide_cells _ _ _ _ _ _ Hcov) Hsuit Hrand
                (Htraj (λ _ _, NumpyFloat.NaN)))
    as Hinside.
  rewrite Hnum in Htraj. exists traj.
  split; [done |]. split; [done |]. split; [done |].
  split.
  { intros stray. unfold make_data. rewrite Hnorm.
    cbn [mbind option_bind]. apply Htraj. }
  destruct (proj2 (proj1 trajectory_shape_aux _ _ _ _ _ _ _ _ _ _ _)
              _ (Htraj (λ _ _, NumpyFloat.NaN))) as (Hshape & Hfirst).
  split; [done |]. split; [| exact Hinside].
  intros j Hsteps. rewrite Hfirst; [| by rewrite length_fmap | done].
  by rewrite list_lookup_fmap.
Qed.

Lemma make_data_trajectory_witness :
  let initial_data :=
    mkInitialData [(5, 5); (15, 3)] [[2; 0]; [0; 1]] 10 2 3 20 in
  ∃ heatmap traj,
    normalize_heatmap (kde_approximation initial_data) = Some heatmap ∧
    suitability heatmap ∧ 1 ∈ concat heatmap ∧
    (∀ stray,
       make_data (λ _ _, 1) (λ _ _, 1 / 2) stray initial_data 2 4
       = Some traj) ∧
    has_shape (num initial_data) (2 * 4) traj ∧
    (∀ j, (0 < 2 * 4)%nat →
          recorded traj j 0 = point <$> initial_points initial_data !! j) ∧
    (∀ j k pos, recorded traj j k = Some pos →
                ∃ q, pos = point q ∧ in_habitat 20 20 q).
Proof.
  intros initial_data.
  apply (make_data_trajectory (λ _ _, 1) (λ _ _, 1 / 2) initial_data
           2%nat 2%nat 2%nat 4%nat).
  - repeat constructor; simpl; lra.
  - apply Exists_cons_hd, Exists_cons_hd. simpl. lra.
  - unfold covers. simpl. repeat split; try lra. repeat constructor.
  - simpl. lra.
  - simpl. lra.
  - repeat constructor; simpl; lra.
  - reflexivity.
  - lia.
  - intros. lra.
Defined.

End MakeData.

(* ================================================================== *)
(** ** The harness: failures and empty grids *)

Section HarnessEdges.
Import Effects Numpy.

(** X13: an exception other than KeyboardInterrupt raised while the
    harness collects the results (a failing worker) propagates out of the
    harness unchanged: no array is returned, and the pool has been neither
    closed, joined nor terminated.  This holds for the velocity, the home-range and
    the occupancy calibrator. *)
Theorem worker_failure_propagates (e : exn) :
  e ≠ KeyboardInterrupt →
  (∀ (model : Type) (self : Calibration.Calibrator model)
     (worker : nat → Calibration.Info model → list R),
     Velocity.calculate_velocity_info self (Failed e) worker
     = ([Pool_create; Pool_map], inl e) ∧
     HomeRange.calculate_hr_info self (Failed e) worker
     = ([Pool_create; Pool_map], inl e)) ∧
  (∀ (model movement : Type)
     (simulate : nat → R → R * R → nat → R → nat → model → movement)
     (sample_occupancy : movement → nat → nat → nat → R)
     (self : Occupancy.OccupancyCalibrator model),
     Occupancy.calculate_oc_info simulate sample_occupancy self (Failed e)
     = ([Pool_create; Pool_map_async_get], inl e)).
Proof.
  intros He. split; [intros; split |]; intros; by destruct e.
Qed.

Lemma worker_failure_propagates_witness :
  (∀ (model : Type) (self : Calibration.Calibrator model)
     (worker : nat → Calibration.Info model → list R),
     Velocity.calculate_velocity_info self (Failed WorkerError) worker
     = ([Pool_create; Pool_map], inl WorkerError) ∧
     HomeRange.calculate_hr_info self (Failed WorkerError) worker
     = ([Pool_create; Pool_map], inl WorkerError)) ∧
  (∀ (model movement : Type)
     (simulate : nat → R → R * R → nat → R → nat → model → movement)
     (sample_occupancy : movement → nat → nat → nat → R)
     (self : Occupancy.OccupancyCalibrator model),
     Occupancy.calculate_oc_info simulate sample_occupancy self
       (Failed WorkerError)
     = ([Pool_create; Pool_map_async_get], inl WorkerError)).
Proof. apply (worker_failure_propagates WorkerError). done. Defined.

(** X14: the velocity and home-range harnesses submit one task per
    combination of a velocity, a niche size and a world, and build as many
    index tuples, so that every result is consumed.  An empty axis or a
    zero world count is not rejected: the pool is still created and used,
    and the array of zeros is returned as it was allocated. *)
Theorem task_count_and_empty_grid (model : Type)
    (self : Calibration.Calibrator model)
    (worker : nat → Calibration.Info model → list R) :
  let n := length (Calibration.velocities self)
           * (length (Calibration.niche_sizes self)
              * Calibration.num_worlds self) in
  length (Calibration.task_arguments self) = n ∧
  length (Calibration.index_arguments self) = n ∧
  length (zip (Calibration.index_arguments self)
            (imap worker (Calibration.task_arguments self))) = n ∧
  (n = 0 →
   Calibration.calculate_info self Returned worker
   = ([Pool_create; Pool_map; Pool_close; Pool_join],
      inr (zeros4 (length (Calibration.velocities self))
             (length (Calibration.niche_sizes self))
             (Calibration.num_worlds self)
             (Calibration.trials_per_world self)))).
Proof.
  intros n.
  assert (Ht : length (Calibration.task_arguments self) = n).
  { unfold Calibration.task_arguments. by rewrite for3_length, xrange_length. }
  assert (Hi : length (Calibration.index_arguments self) = n).
  { unfold Calibration.index_arguments.
    by rewrite for3_length, !xrange_length. }
  split; [done |]. split; [done |]. split.
  - rewrite length_zip_with, length_imap, Ht, Hi. lia.
  - intros Hn. rewrite calculate_info_returned.
    rewrite Hn in Hi. apply length_zero_iff_nil in Hi.
    by rewrite Hi.
Qed.

Lemma task_count_and_empty_grid_witness :
  let self := Velocity.VelocityCalibrator () [0.1; 0.3]%R [] 5 2 20%R in
  Calibration.calculate_info self Returned (λ _ _, [])
  = ([Pool_create; Pool_map; Pool_close; Pool_join],
     inr (zeros4 2 0 2 5)).
Proof.
  intros self.
  apply (proj2 (proj2 (proj2
           (task_count_and_empty_grid unit self (λ _ _, []))))).
  reflexivity.
Defined.

End HarnessEdges.

(* ================================================================== *)
(** ** The four-axis occupancy harness *)

Section FourAxes.
Import Effects Numpy OccupancyGrid.

Lemma for4_for3 {A B C D E} (xs : list A) (ys : list B) (zs : list C)
    (ws : list D) (f : A → B → C → D → E) :
  for4 xs ys zs ws f = xs ≫= (λ x, for3 ys zs ws (f x)).
Proof. reflexivity. Qed.

Lemma for4_lookup {A B C D E} (xs : list A) (ys : list B) (zs : list C)
    (ws : list D) (f : A → B → C → D → E) (i j l k : nat)
    (x : A) (y : B) (z : C) (w : D) :
  xs !! i = Some x → ys !! j = Some y → zs !! l = Some z →
  ws !! k = Some w →
  for4 xs ys zs ws f
    !! (((i * length ys + j) * length zs + l) * length ws + k)
  = Some (f x y z w).
Proof.
  intros Hx Hy Hz Hw. rewrite for4_for3.
  pose proof (lookup_lt_Some _ _ _ Hy) as Hj.
  pose proof (lookup_lt_Some _ _ _ Hz) as Hl.
  pose proof (lookup_lt_Some _ _ _ Hw) as Hk.
  replace (((i * length ys + j) * length zs + l) * length ws + k)
    with (i * (length ys * (length zs * length ws))
          + ((j * length zs + l) * length ws + k)) by lia.
  assert (Hq : (j * length zs + l) * length ws + k
               < length ys * (length zs * length ws)).
  { assert (H1 : j * length zs + l + 1 ≤ length ys * length zs) by nia.
    apply (Nat.mul_le_mono_r _ _ (length ws)) in H1. nia. }
  rewrite (bind_uniform_lookup _ xs _ i _ x);
    [| intros; apply for3_length | done | done].
  by apply for3_lookup.
Qed.

Lemma for4_elem_of {A B C D E} (xs : list A) (ys : list B) (zs : list C)
    (ws : list D) (f : A → B → C → D → E) (e : E) :
  e ∈ for4 xs ys zs ws f ↔
  ∃ x y z w, x ∈ xs ∧ y ∈ ys ∧ z ∈ zs ∧ w ∈ ws ∧ e = f x y z w.
Proof.
  rewrite for4_for3, list_elem_of_bind. split.
  - intros (x & (y & z & w & ? & ? & ? & ->)%for3_elem_of & Hx).
    by exists x, y, z, w.
  - intros (x & y & z & w & Hx & Hy & Hz & Hw & ->).
    exists x. split; [| done]. apply for3_elem_of. by exists y, z, w.
Qed.

Lemma for4_length {A B C D E} (xs : list A) (ys : list B) (zs : list C)
    (ws : list D) (f : A → B → C → D → E) :
  length (for4 xs ys zs ws f)
  = length xs * (length ys * (length zs * length ws)).
Proof.
  rewrite for4_for3. apply bind_uniform_length.
  intros x _. apply for3_length.
Qed.

Lemma for3_NoDup_inj {D} (a b c : nat) (f : nat → nat → nat → D) :
  (∀ i j k i' j' k', f i j k = f i' j' k' → (i, j, k) = (i', j', k')) →
  NoDup (for3 (xrange a) (xrange b) (xrange c) f).
Proof.
  intros Hinj. unfold for3, xrange.
  apply NoDup_bind; [| | apply NoDup_seq].
  - intros i1 i2 d _ _
      (j1 & (k1 & ->%list_elem_of_singleton & _)%list_elem_of_bind
          & _)%list_elem_of_bind
      (j2 & (k2 & E%list_elem_of_singleton & _)%list_elem_of_bind
          & _)%list_elem_of_bind.
    apply Hinj in E. congruence.
  - intros i _. apply NoDup_bind; [| | apply NoDup_seq].
    + intros j1 j2 d _ _
        (k1 & ->%list_elem_of_singleton & _)%list_elem_of_bind
        (k2 & E%list_elem_of_singleton & _)%list_elem_of_bind.
      apply Hinj in E. congruence.
    + intros j _. apply NoDup_bind; [| | apply NoDup_seq].
      * intros k1 k2 d _ _ ->%list_elem_of_singleton
          E%list_elem_of_singleton.
        apply Hinj in E. congruence.
      * intros k _. apply NoDup_singleton.
Qed.

Lemma index_tuples4_NoDup (a b c d : nat) :
  NoDup (for4 (xrange a) (xrange b) (xrange c) (xrange d)
           (λ i j l k, (i, j, l, k))).
Proof.
  rewrite for4_for3. apply NoDup_bind; [| | apply NoDup_seq].
  - intros i1 i2 idx _ _
      (j1 & l1 & k1 & _ & _ & _ & ->)%for3_elem_of
      (j2 & l2 & k2 & _ & _ & _ & E)%for3_elem_of.
    congruence.
  - intros i _. apply for3_NoDup_inj. congruence.
Qed.

Lemma index_tuples4_elem_of (a b c d : nat)
    (idx : nat * nat * nat * nat) :
  idx ∈ for4 (xrange a) (xrange b) (xrange c) (xrange d)
          (λ i j l k, (i, j, l, k)) ↔
  idx.1.1.1 < a ∧ idx.1.1.2 < b ∧ idx.1.2 < c ∧ idx.2 < d.
Proof.
  rewrite for4_elem_of. destruct idx as [[[i j] l] k]. simpl. split.
  - intros (x & y & z & w & Hx%xrange_elem_of & Hy%xrange_elem_of
              & Hz%xrange_elem_of & Hw%xrange_elem_of & [= -> -> -> ->]).
    done.
  - intros (Hi & Hj & Hl & Hk). exists i, j, l, k.
    by rewrite !xrange_elem_of.
Qed.

Lemma index_tuples4_lookup (a b c d i j l k : nat) :
  i < a → j < b → l < c → k < d →
  for4 (xrange a) (xrange b) (xrange c) (xrange d)
    (λ i j l k, (i, j, l, k))
    !! (((i * b + j) * c + l) * d + k) = Some (i, j, l, k).
Proof.
  intros Hi Hj Hl Hk.
  pose proof (for4_lookup (xrange a) (xrange b) (xrange c) (xrange d)
                (λ i j l k, (i, j, l, k)) i j l k i j l k) as H.
  rewrite !xrange_length in H. by apply H; apply xrange_lookup.
Qed.

Lemma setitem5_row_fits (arr : ndarray5) (idx : nat * nat * nat * nat)
    (res w : list R) :
  wf5 arr → fits5_row (shape5 arr) idx res w →
  ∃ arr', setitem5_row idx res arr = inr arr' ∧ wf5 arr' ∧
          shape5 arr' = shape5 arr ∧ getitem5_row idx arr' = Some w ∧
          ∀ idx', idx' ≠ idx → getitem5_row idx' arr' = getitem5_row idx' arr.
Proof.
  destruct arr as [[[[[a b] c] d] e] cells], idx as [[[i j] l] k].
  unfold wf5, fits5_row, setitem5_row, getitem5_row. simpl.
  intros [Hlen Hall] (Hi & Hj & Hl & Hk & Hb).
  rewrite decide_True by done. rewrite Hb. simpl.
  destruct (lookup_lt_is_Some_2 cells i) as [block Hblock]; [lia |].
  pose proof (Forall_lookup_1 _ _ _ _ Hall Hblock) as [Hbl Hplanes].
  destruct (lookup_lt_is_Some_2 block j) as [planes Hps]; [lia |].
  pose proof (Forall_lookup_1 _ _ _ _ Hplanes Hps) as [Hpl Hpd].
  simpl in Hpl.
  destruct (lookup_lt_is_Some_2 planes l) as [plane Hp]; [lia |].
  pose proof (Forall_lookup_1 _ _ _ _ Hpd Hp) as Hplane. simpl in Hplane.
  eexists. split; [reflexivity |]. simpl. split; [| split; [done |]].
  { split; [by rewrite length_alter |].
    apply Forall_alter; [done |]. intros block' Hb'.
    assert (block' = block) by congruence. subst block'.
    split; [by rewrite length_alter |].
    apply Forall_alter; [done |]. intros planes' Hp'.
    assert (planes' = planes) by congruence. subst planes'.
    split; [by rewrite length_alter |].
    apply Forall_alter; [done |]. intros plane' Hpl'.
    assert (plane' = plane) by congruence. subst plane'.
    by rewrite length_insert. }
  split.
  - rewrite list_lookup_alter_eq, Hblock. simpl.
    rewrite list_lookup_alter_eq, Hps. simpl.
    rewrite list_lookup_alter_eq, Hp. simpl.
    apply list_lookup_insert_eq. lia.
  - intros [[[i' j'] l'] k'] Hne.
    destruct (decide (i' = i)) as [->|Hi'].
    2:{ by rewrite list_lookup_alter_ne. }
    rewrite list_lookup_alter_eq, Hblock. simpl.
    destruct (decide (j' = j)) as [->|Hj'].
    2:{ by rewrite list_lookup_alter_ne. }
    rewrite list_lookup_alter_eq, Hps. simpl.
    destruct (decide (l' = l)) as [->|Hl'].
    2:{ by rewrite list_lookup_alter_ne. }
    rewrite list_lookup_alter_eq, Hp. simpl.
    rewrite list_lookup_insert_ne; [done | congruence].
Qed.

Context {model : Type}.

Lemma grid_calculate_returned (self : OccupancyCalibrator model)
    (worker : nat → Info model → list R) :
  calculate_oc_info self Returned worker
  = ([Pool_create; Pool_map; Pool_close; Pool_join],
     write_all setitem5_row
       (zip (index_arguments self) (imap worker (task_arguments self)))
       (zeros5 (length (home_ranges self)) (length (niche_sizes self))
          (length (nums self)) (num_worlds self) (trials_per_world self))).
Proof.
  unfold calculate_oc_info, lift. simpl.
  by destruct (write_all _ _ _).
Qed.

Lemma grid_task_trials (self : OccupancyCalibrator model)
    (info : Info model) :
  info ∈ task_arguments self → info_trials info = trials_per_world self.
Proof.
  unfold task_arguments.
  intros (hr & nsz & num & k & _ & _ & _ & _ & ->)%for4_elem_of. done.
Qed.

(** X15: in a run of the four-axis occupancy harness that collects its
    results, for every shape of the three axis lists and every world count,
    the task in position [p = ((i * n_2 + j) * n_3 + l) * num_worlds + k]
    is the one built from the [i]-th home range, the [j]-th niche size and
    the [l]-th population size, the index tuple in that position is
    [(i, j, l, k)], the returned array has the shape of the three axes
    followed by the world and trial counts given to the constructor, and
    its row [[i, j, l, k, :]] is the value returned by that task. *)
Theorem four_axis_results_at_their_index (self : OccupancyCalibrator model)
    (worker : nat → Info model → list R) (i j l k : nat) (hr nsz : R)
    (num : nat) :
  home_ranges self !! i = Some hr → niche_sizes self !! j = Some nsz →
  nums self !! l = Some num → k < num_worlds self →
  (∀ p info, length (worker p info) = info_trials info) →
  let p := ((i * length (niche_sizes self) + j) * length (nums self) + l)
           * num_worlds self + k in
  let task := mkInfo (movement_model self) hr nsz num
                (trials_per_world self) (range self) in
  task_arguments self !! p = Some task ∧
  index_arguments self !! p = Some (i, j, l, k) ∧
  ∃ all_info,
    (calculate_oc_info self Returned worker).2 = inr all_info ∧
    shape5 all_info
    = (length (home_ranges self), length (niche_sizes self),
       length (nums self), num_worlds self, trials_per_world self) ∧
    getitem5_row (i, j, l, k) all_info = Some (worker p task).
Proof.
  intros Hi Hj Hl Hk Hlen p task.
  assert (Htask : task_arguments self !! p = Some task).
  { unfold task_arguments.
    pose proof (for4_lookup (home_ranges self) (niche_sizes self)
                  (nums self) (xrange (num_worlds self))
                  (λ hr nsz num _,
                     mkInfo (movement_model self) hr nsz num
                       (trials_per_world self) (range self))
                  i j l k hr nsz num k) as H.
    rewrite xrange_length in H.
    by apply H; [| | | apply xrange_lookup]. }
  assert (Hidx : index_arguments self !! p = Some (i, j, l, k)).
  { apply index_tuples4_lookup; [| | | done]; by eapply lookup_lt_Some. }
  split; [done |]. split; [done |].
  rewrite grid_calculate_returned. cbn [snd].
  destruct (write_all_zip setitem5_row getitem5_row shape5 wf5 fits5_row
              setitem5_row_fits
              (index_arguments self) (imap worker (task_arguments self))
              (zeros5 (length (home_ranges self))
                 (length (niche_sizes self)) (length (nums self))
                 (num_worlds self) (trials_per_world self)))
    as (all_info & Hrun & Hshape & Hget).
  - apply zeros5_wf.
  - apply index_tuples4_NoDup.
  - intros q idx res Hq Hres.
    apply list_lookup_imap_Some in Hres as (info & Hinfo & ->).
    exists (worker q info). simpl.
    apply list_elem_of_lookup_2, index_tuples4_elem_of in Hq.
    repeat (split; [tauto |]).
    apply broadcast_exact. rewrite Hlen.
    apply grid_task_trials. by eapply list_elem_of_lookup_2.
  - exists all_info. split; [done |]. split; [done |].
    apply (Hget p (i, j, l, k) (worker p task)); [done | |].
    + by rewrite list_lookup_imap, Htask.
    + simpl. repeat split; try done; try (by eapply lookup_lt_Some).
      apply broadcast_exact. by rewrite Hlen.
Qed.

End FourAxes.

Section FourAxesExample.
Import Effects Numpy OccupancyGrid.

Lemma four_axis_results_at_their_index_witness :
  let self := mkOccupancyCalibrator () [1; 2]%R [0.5]%R [10; 20] 1 2 20%R in
  let worker := λ (p : nat) (info : Info ()),
                  replicate (info_trials info) (INR p) in
  ∃ all_info,
    (calculate_oc_info self Returned worker).2 = inr all_info ∧
    shape5 all_info = (2, 1, 2, 2, 1) ∧
    getitem5_row (1, 0, 1, 1) all_info = Some [INR 7].
Proof.
  intros self worker.
  refine (proj2 (proj2
            (four_axis_results_at_their_index self worker 1 0 1 1 2%R 0.5%R
               20 eq_refl eq_refl eq_refl _ _))).
  - simpl. lia.
  - intros p info. apply length_replicate.
Defined.

End FourAxesExample.

(* ================================================================== *)
(** ** From the occupancy run to the regression *)

Section RunToFit.
Import Effects Numpy NumpyFloat Occupancy OccupancyCell.
Context {model movement : Type}.
Variable simulate : nat → R → R * R → nat → R → nat → model → movement.
Variable sample_occupancy : movement → nat → nat → nat → R.

Lemma write_all_keeps {K V T} (setitem : K → V → T → result T)
    (wf : T → Prop) (items : list (K * V)) (arr arr' : T) :
  (∀ arr idx res arr', wf arr → setitem idx res arr = inr arr' → wf arr') →
  wf arr → write_all setitem items arr = inr arr' → wf arr'.
Proof.
  intros Hset. revert arr.
  induction items as [|[idx res] items IH]; intros arr Hwf Hrun.
  - by injection Hrun as <-.
  - simpl in Hrun. destruct (setitem idx res arr) as [|arr1] eqn:E; [done |].
    simpl in Hrun. eapply IH; [| exact Hrun]. by eapply Hset.
Qed.

Lemma setitem5_keeps_wf (arr : ndarray5) (idx : nat * nat * nat)
    (res : list (list R)) (arr' : ndarray5) :
  wf5 arr → setitem5 idx res arr = inr arr' → wf5 arr'.
Proof.
  intros Hwf Hset.
  assert (Hfit : ∃ w, fits5 (shape5 arr) idx res w).
  { unfold setitem5 in Hset. destruct idx as [[i j] k].
    destruct (shape5 arr) as [[[[a b] c] d] e] eqn:Hs.
    destruct (decide (i < a ∧ j < b ∧ k < d)) as [Hin|]; [| done].
    destruct (broadcast2 c e res) as [|w] eqn:Hb; [done |].
    exists w. simpl. tauto. }
  destruct Hfit as [w Hw].
  destruct (setitem5_fits arr idx res w Hwf Hw) as (arr'' & E & Hwf' & _).
  congruence.
Qed.

(** The tensor returned by a run that collects every result. *)
Lemma calculate_oc_info_tensor (self : OccupancyCalibrator model) :
  ∃ all_info,
    (calculate_oc_info simulate sample_occupancy self Returned).2
    = inr all_info ∧
    wf5 all_info ∧
    shape5 all_info
    = (length (home_ranges (config self)),
       length (niche_sizes (config self)), length (nums (config self)),
       num_worlds (config self), trials_per_world (config self)) ∧
    ∀ i j k hr nsz,
      home_ranges (config self) !! i = Some hr →
      niche_sizes (config self) !! j = Some nsz →
      k < num_worlds (config self) →
      getslice5 (i, j, k) all_info
      = Some (worker simulate sample_occupancy self
                ((i * length (niche_sizes (config self)) + j)
                 * num_worlds (config self) + k) (hr, nsz)).
Proof.
  rewrite calculate_oc_info_returned. cbn [snd].
  destruct (write_all_zip setitem5 getslice5 shape5 wf5 fits5 setitem5_fits
              (index_arguments self)
              (imap (worker simulate sample_occupancy self)
                 (task_arguments self))
              (zeros5 (length (home_ranges (config self)))
                 (length (niche_sizes (config self)))
                 (length (nums (config self)))
                 (num_worlds (config self))
                 (trials_per_world (config self))))
    as (all_info & Hrun & Hshape & Hget).
  - apply zeros5_wf.
  - apply index_tuples_NoDup.
  - intros q idx res Hq Hres.
    apply list_lookup_imap_Some in Hres as (args & Hargs & ->).
    exists (worker simulate sample_occupancy self q args). simpl.
    apply list_elem_of_lookup_2, index_tuples_elem_of in Hq.
    destruct (worker_shape simulate sample_occupancy self q args)
      as [Hrows Hcols].
    repeat (split; [tauto |]).
    by apply broadcast2_exact.
  - exists all_info. split; [done |]. split; [| split; [done |]].
    { eapply write_all_keeps; [apply setitem5_keeps_wf | | exact Hrun].
      apply zeros5_wf. }
    intros i j k hr nsz Hi Hj Hk.
    pose proof (oc_task_arguments_lookup self i j k hr nsz Hi Hj Hk) as Htask.
    eapply Hget.
    + apply index_tuples_lookup; [| | done]; by eapply lookup_lt_Some.
    + by rewrite list_lookup_imap, Htask.
    + destruct (worker_shape simulate sample_occupancy self
                  ((i * length (niche_sizes (config self)) + j)
                   * num_worlds (config self) + k) (hr, nsz))
        as [Hrows Hcols].
      cbn [fits5 zeros5 shape5 fst snd].
      repeat split; try done; try (by eapply lookup_lt_Some).
      by apply broadcast2_exact.
Qed.

Lemma concat_fmap_bind {A B} (g : A → list B) (l : list A) :
  concat (g <$> l) = l ≫= g.
Proof.
  induction l as [|x l IH]; [done |].
  rewrite fmap_cons, bind_cons. cbn [concat]. by rewrite IH.
Qed.

Lemma fmap_as_bind {A B} (h : A → B) (l : list A) :
  h <$> l = l ≫= (λ t, [h t]).
Proof.
  induction l as [|x l IH]; [done |].
  rewrite fmap_cons, bind_cons, IH. done.
Qed.

Lemma mapM_result_fmap {A B} (f : A → result B) (g : A → B) (l : list A) :
  (∀ x, x ∈ l → f x = inr (g x)) → mapM f l = inr (g <$> l).
Proof.
  induction l as [|x l IH]; intros Hf; [done |].
  rewrite mapM_result_cons, Hf by left. cbn [mbind result_bind].
  rewrite IH; [done |]. intros y Hy. apply Hf. by right.
Qed.

(** The plane [[i, j, n, :, :]] of a well-formed array against its slices
    [[i, j, :, k, :]]. *)
Lemma plane_of_slices (arr : ndarray5) (a b c d e i j n : nat) :
  wf5 arr → shape5 arr = (a, b, c, d, e) → i < a → j < b → n < c →
  ∃ plane,
    length plane = d ∧ ravel5 i j n arr = inr (concat plane) ∧
    ∀ k rows, getslice5 (i, j, k) arr = Some rows →
              plane !! k = rows !! n.
Proof.
  unfold wf5, ravel5, getslice5. intros Hwf Hs Hi Hj Hn.
  rewrite Hs in Hwf. destruct Hwf as [Hlen Hall].
  destruct (lookup_lt_is_Some_2 (cells5 arr) i) as [block Hblock]; [lia |].
  pose proof (Forall_lookup_1 _ _ _ _ Hall Hblock) as [Hbl Hplanes].
  destruct (lookup_lt_is_Some_2 block j) as [planes Hps]; [lia |].
  pose proof (Forall_lookup_1 _ _ _ _ Hplanes Hps) as [Hpl Hpd].
  simpl in Hpl.
  destruct (lookup_lt_is_Some_2 planes n) as [plane Hp]; [lia |].
  pose proof (Forall_lookup_1 _ _ _ _ Hpd Hp) as Hplane. simpl in Hplane.
  exists plane. rewrite Hblock. cbn [mbind option_bind].
  rewrite Hps. cbn [mbind option_bind]. rewrite Hp.
  split; [done |]. split; [done |].
  intros k rows Hrows. apply mapM_Some in Hrows.
  destruct (Forall2_lookup_l _ _ _ _ _ Hrows Hp) as (row & Hrow & Hk).
  by rewrite Hrow, Hk.
Qed.

Lemma enumerate_elem_of {A} (l : list A) (i : nat) (x : A) :
  (i, x) ∈ enumerate l → l !! i = Some x.
Proof.
  unfold enumerate. intros (i' & y & [= -> ->] & H)%elem_of_lookup_imap.
  done.
Qed.

(** The block of the tensor of a run that [fit] reads for one cell. *)
Lemma run_block (self : OccupancyCalibrator model) (all_info : ndarray5)
    (a b c : nat) :
  (calculate_oc_info simulate sample_occupancy self Returned).2
  = inr all_info →
  a < length (home_ranges (config self)) →
  b < length (niche_sizes (config self)) →
  c < length (nums (config self)) →
  ravel5 a b c all_info
  = inr (occupancies_of_cell simulate sample_occupancy self a b c).
Proof.
  intros Hrun Ha Hb Hc.
  destruct (calculate_oc_info_tensor self)
    as (all_info' & Hrun' & Hwf & Hshape & Hslice).
  assert (all_info' = all_info) by congruence. subst all_info'.
  destruct (lookup_lt_is_Some_2 _ a Ha) as [hr Hhr].
  destruct (lookup_lt_is_Some_2 _ b Hb) as [nsz Hnsz].
  destruct (lookup_lt_is_Some_2 _ c Hc) as [num Hnum].
  destruct (plane_of_slices all_info _ _ _ _ _ a b c Hwf Hshape Ha Hb Hc)
    as (plane & Hlen & Hravel & Hplane).
  rewrite Hravel. f_equal.
  unfold occupancies_of_cell. rewrite Hhr, Hnsz, Hnum.
  set (cell := λ w t,
         sample_occupancy
           (simulate ((a * length (niche_sizes (config self)) + b)
                      * num_worlds (config self) + w)
              nsz (range (config self)) (max_individuals (config self)) hr
              (season (config self)) (movement_model self)) c t num).
  assert (Hpl : plane
                = (λ w, cell w <$> xrange (trials_per_world (config self)))
                    <$> xrange (num_worlds (config self))).
  { apply list_eq. intros w. rewrite list_lookup_fmap.
    destruct (decide (w < num_worlds (config self))) as [Hw|Hw].
    - rewrite (Hplane w _ (Hslice a b w hr nsz Hhr Hnsz Hw)).
      rewrite xrange_lookup by done. simpl.
      unfold worker, _get_single_oc_info.
      by rewrite list_lookup_imap, Hnum.
    - rewrite (proj2 (lookup_ge_None plane w)) by lia.
      rewrite (proj2 (lookup_ge_None (xrange _) w)); [done |].
      rewrite xrange_length. lia. }
  rewrite Hpl, concat_fmap_bind.
  apply list_bind_ext; [| done]. intros w. apply fmap_as_bind.
Qed.

Lemma fit_loops_in_range (self : OccupancyCalibrator model)
    (i j k : nat) (nsz : R) (hr dens : xreal) :
  ((i, nsz), (j, hr), (k, dens)) ∈ fit_loops self →
  i < length (niche_sizes (config self)) ∧
  j < length (home_ranges (config self)) ∧
  k < length (nums (config self)).
Proof.
  unfold fit_loops.
  intros ([i' nsz'] & [j' hr'] & [k' dens'] & Hi%enumerate_elem_of
            & Hj%enumerate_elem_of & Hk%enumerate_elem_of
            & [= -> -> -> -> -> ->])%for3_elem_of.
  apply lookup_lt_Some in Hi, Hj, Hk.
  rewrite length_fmap in Hj. rewrite length_fmap in Hk. done.
Qed.

Lemma fit_loops_length (self : OccupancyCalibrator model) :
  length (fit_loops self)
  = length (niche_sizes (config self))
    * (length (home_ranges (config self)) * length (nums (config self))).
Proof.
  unfold fit_loops, enumerate.
  by rewrite for3_length, !length_imap, !length_fmap.
Qed.

Lemma run_then_fit_aux (self : OccupancyCalibrator model) :
  ∃ all_info,
    (calculate_oc_info simulate sample_occupancy self Returned).2
    = inr all_info ∧
    (∀ a b c,
       a < length (home_ranges (config self)) →
       b < length (niche_sizes (config self)) →
       c < length (nums (config self)) →
       ravel5 a b c all_info
       = inr (occupancies_of_cell simulate sample_occupancy self a b c)) ∧
    fit_samples self all_info
    = inr ((λ '((i, _), (j, _), (k, _)),
              occupancies_of_cell simulate sample_occupancy self j i k)
             <$> fit_loops self) ∧
    (home_ranges (config self) ≠ [] → niche_sizes (config self) ≠ [] →
     nums (config self) ≠ [] →
     ∃ X, fit_inputs self all_info
          = inr (X, (λ y, logit (Fin y))
                      <$> concat
                            ((λ '((i, _), (j, _), (k, _)),
                                occupancies_of_cell simulate sample_occupancy
                                  self j i k) <$> fit_loops self))).
Proof.
  destruct (calculate_oc_info_tensor self) as (all_info & Hrun & _).
  exists all_info. split; [done |].
  assert (Hblocks : ∀ a b c,
            a < length (home_ranges (config self)) →
            b < length (niche_sizes (config self)) →
            c < length (nums (config self)) →
            ravel5 a b c all_info
            = inr (occupancies_of_cell simulate sample_occupancy self a b c)).
  { intros a b c. by apply run_block. }
  split; [exact Hblocks |].
  assert (Hsamples : fit_samples self all_info
            = inr ((λ '((i, _), (j, _), (k, _)),
                      occupancies_of_cell simulate sample_occupancy self j i k)
                     <$> fit_loops self)).
  { unfold fit_samples. apply mapM_result_fmap.
    intros [[[i nsz] [j hr]] [k dens]] Hloop.
    apply fit_loops_in_range in Hloop as (Hi & Hj & Hk).
    by apply Hblocks. }
  split; [exact Hsamples |].
  intros Hhr Hnsz Hnums. rewrite fit_inputs_unfold, Hsamples.
  destruct (fit_loops self) as [|loop loops] eqn:Hloops.
  - exfalso. pose proof (fit_loops_length self) as Hl.
    rewrite Hloops in Hl. simpl in Hl.
    destruct (home_ranges (config self)); [done |].
    destruct (niche_sizes (config self)); [done |].
    destruct (nums (config self)); [done |]. simpl in Hl. lia.
  - rewrite fmap_cons. by eexists.
Qed.

(** X16: the tensor returned by an occupancy run that collects every
    result feeds [fit] as follows.  The block [data[a, b, c, :, :].ravel()]
    holds, world after world, the occupancies sampled by the task of the
    [a]-th home range, the [b]-th niche size and that world, for the [c]-th
    population size; [fit] reads one such block per iteration of its loops
    over niche size [i], home range [j] and population size [k], at
    [data[j, i, k]]; and when no axis is empty the target vector of the
    regression is the logit of all these occupancies, in loop order. *)
Theorem run_then_fit (self : OccupancyCalibrator model) :
  ∃ all_info,
    (calculate_oc_info simulate sample_occupancy self Returned).2
    = inr all_info ∧
    (∀ a b c,
       a < length (home_ranges (config self)) →
       b < length (niche_sizes (config self)) →
       c < length (nums (config self)) →
       ravel5 a b c all_info
       = inr (occupancies_of_cell simulate sample_occupancy self a b c)) ∧
    fit_samples self all_info
    = inr ((λ '((i, _), (j, _), (k, _)),
              occupancies_of_cell simulate sample_occupancy self j i k)
             <$> fit_loops self) ∧
    (home_ranges (config self) ≠ [] → niche_sizes (config self) ≠ [] →
     nums (config self) ≠ [] →
     ∃ X, fit_inputs self all_info
          = inr (X, (λ y, logit (Fin y))
                      <$> concat
                            ((λ '((i, _), (j, _), (k, _)),
                                occupancies_of_cell simulate sample_occupancy
                                  self j i k) <$> fit_loops self))).
Proof. exact (run_then_fit_aux self). Qed.

End RunToFit.

Section RunToFitExample.
Import Effects Numpy NumpyFloat Occupancy OccupancyCell.

Lemma run_then_fit_witness :
  let self := mkOccupancyCalibrator
                (mkConfig 2 5 [0.5]%R [1; 2]%R 2 [10; 20] 90 (20, 20)%R) () in
  let simulate := λ (p : nat) (_ : R) (_ : R * R) (_ : nat) (_ : R)
                    (_ : nat) (_ : ()), p in
  let sample_occupancy := λ (mov n k num : nat), (1 / 2)%R in
  ∃ all_info,
    (calculate_oc_info simulate sample_occupancy self Returned).2
    = inr all_info ∧
    ravel5 1 0 1 all_info
    = inr (occupancies_of_cell simulate sample_occupancy self 1 0 1) ∧
    ∃ X, fit_inputs self all_info
         = inr (X, (λ y, logit (Fin y))
                     <$> concat
                           ((λ '((i, _), (j, _), (k, _)),
                               occupancies_of_cell simulate sample_occupancy
                                 self j i k) <$> fit_loops self)).
Proof.
  intros self simulate sample_occupancy.
  destruct (run_then_fit simulate sample_occupancy self)
    as (all_info & Hrun & Hblocks & _ & Hfit).
  exists all_info. split; [exact Hrun |]. split.
  - apply Hblocks; simpl; lia.
  - apply Hfit; done.
Defined.

End RunToFitExample.

(* ================================================================== *)
(** ** Errors of the fitting step *)

Section FitErrors.
Import Effects Numpy NumpyFloat Occupancy.
Context {model : Type}.

Lemma ravel5_error (a b c : nat) (data : ndarray5) (e : exn) :
  ravel5 a b c data = inl e → e = IndexError.
Proof.
  unfold ravel5. destruct (_ ≫= _); [done |]. congruence.
Qed.

Lemma mapM_result_first_error {A B} (f : A → result B) (l : list A)
    (e : exn) :
  (∀ x e', f x = inl e' → e' = e) →
  (∃ x, x ∈ l ∧ f x = inl e) → mapM f l = inl e.
Proof.
  intros Hone. induction l as [|x l IH]; intros (y & Hy & Hf).
  - by apply elem_of_nil in Hy.
  - rewrite mapM_result_cons.
    destruct (f x) as [e'|b] eqn:Hx.
    + by rewrite (Hone x e' Hx).
    + cbn [mbind result_bind].
      apply elem_of_cons in Hy as [->|Hy]; [congruence |].
      rewrite IH; [done |]. by exists y.
Qed.

(** X17: the two ways [fit] fails before the regression.  When one of the
    three axes of the configuration is empty it raises ValueError (nothing
    to concatenate), whatever the tensor; otherwise it raises IndexError as
    soon as the tensor lacks the block of one of its iterations. *)
Theorem fit_errors (self : OccupancyCalibrator model) (data : ndarray5) :
  (length (niche_sizes (config self))
   * (length (home_ranges (config self)) * length (nums (config self))) = 0 →
   fit_inputs self data = inl ValueError) ∧
  (∀ i nsz j hr k dens,
     ((i, nsz), (j, hr), (k, dens)) ∈ fit_loops self →
     ravel5 j i k data = inl IndexError →
     fit_inputs self data = inl IndexError).
Proof.
  split.
  - intros Hz. rewrite fit_inputs_unfold. unfold fit_samples.
    pose proof (fit_loops_length self) as Hl. rewrite Hz in Hl.
    apply length_zero_iff_nil in Hl. by rewrite Hl.
  - intros i nsz j hr k dens Hloop Hravel.
    rewrite fit_inputs_unfold. unfold fit_samples.
    rewrite (mapM_result_first_error _ _ IndexError); [done | |].
    + intros [[[i' ?] [j' ?]] [k' ?]] e'. apply ravel5_error.
    + by exists ((i, nsz), (j, hr), (k, dens)).
Qed.

End FitErrors.

Section FitErrorsExample.
Import Effects Numpy NumpyFloat Occupancy.

Lemma fit_errors_witness :
  fit_inputs
    (mkOccupancyCalibrator
       (mkConfig 1 5 [0.5]%R [1]%R 1 [] 90 (20, 20)%R) ())
    {| shape5 := (1, 1, 1, 1, 1); cells5 := [[[[[1%R]]]]] |}
  = inl ValueError ∧
  fit_inputs
    (mkOccupancyCalibrator
       (mkConfig 1 5 [0.5]%R [1; 2]%R 1 [10] 90 (20, 20)%R) ())
    {| shape5 := (1, 1, 1, 1, 1); cells5 := [[[[[1%R]]]]] |}
  = inl IndexError.
Proof.
  split.
  - apply (proj1 (fit_errors _ _)). reflexivity.
  - apply (proj2 (fit_errors _ _) 0 0.5%R 1
             (xdiv (Fin 2) (Fin (20 * 20))) 0
             (xdiv (Fin (INR 10)) (Fin (20 * 20)))).
    + unfold fit_loops. apply for3_elem_of.
      exists (0, 0.5%R), (1, xdiv (Fin 2) (Fin (20 * 20))),
        (0, xdiv (Fin (INR 10)) (Fin (20 * 20))).
      repeat split; apply list_elem_of_lookup; [by exists 0 | by exists 1
                                                | by exists 0].
    + reflexivity.
Defined.

End FitErrorsExample.

(* ================================================================== *)
(** ** From the velocity run to its regression *)

Section VelocityRunToFit.
Import Effects Numpy Calibration VelocityFit.
Context {model : Type}.

Lemma setitem4_keeps_wf (arr : ndarray4) (idx : nat * nat * nat)
    (res : list R) (arr' : ndarray4) :
  wf4 arr → setitem4 idx res arr = inr arr' → wf4 arr'.
Proof.
  intros Hwf Hset.
  assert (Hfit : ∃ w, fits4 (shape4 arr) idx res w).
  { unfold setitem4 in Hset. destruct idx as [[i j] k].
    destruct (shape4 arr) as [[[a b] c] d] eqn:Hs.
    destruct (decide (i < a ∧ j < b ∧ k < c)) as [Hin|]; [| done].
    destruct (broadcast d res) as [|w] eqn:Hb; [done |].
    exists w. simpl. tauto. }
  destruct Hfit as [w Hw].
  destruct (setitem4_fits arr idx res w Hwf Hw) as (arr'' & E & Hwf' & _).
  congruence.
Qed.

Lemma calculate_info_wf (self : Calibrator model)
    (worker : nat → Info model → list R) (all_info : ndarray4) :
  (calculate_info self Returned worker).2 = inr all_info → wf4 all_info.
Proof.
  rewrite calculate_info_returned. cbn [snd]. intros Hrun.
  eapply write_all_keeps; [apply setitem4_keeps_wf | | exact Hrun].
  apply zeros4_wf.
Qed.

(** The simulated velocities of one grid cell, as [fit] reads them. *)
Lemma velocity_block (self : Calibrator model)
    (worker : nat → Info model → list R) (velocity_info : ndarray4)
    (k n : nat) :
  (∀ p info, length (worker p info) = info_num info) →
  (calculate_info self Returned worker).2 = inr velocity_info →
  k < length (velocities self) → n < length (niche_sizes self) →
  ravel4 k n velocity_info = inr (simulated_velocities self worker k n).
Proof.
  intros Hlen Hrun Hk Hn.
  pose proof (calculate_info_wf self worker velocity_info Hrun) as Hwf.
  destruct (calculate_info_spec self worker Hlen)
    as (all_info & Hrun' & Hshape & Hget).
  assert (all_info = velocity_info) by congruence. subst all_info.
  destruct (lookup_lt_is_Some_2 _ k Hk) as [vel Hvel].
  destruct (lookup_lt_is_Some_2 _ n Hn) as [nsz Hnsz].
  unfold wf4 in Hwf. rewrite Hshape in Hwf. destruct Hwf as [Hcl Hall].
  destruct (lookup_lt_is_Some_2 (cells4 velocity_info) k) as [block Hblock];
    [lia |].
  pose proof (Forall_lookup_1 _ _ _ _ Hall Hblock) as [Hbl Hrows].
  destruct (lookup_lt_is_Some_2 block n) as [plane Hplane]; [lia |].
  pose proof (Forall_lookup_1 _ _ _ _ Hrows Hplane) as Hpl. simpl in Hpl.
  unfold ravel4. rewrite Hblock. cbn [mbind option_bind]. rewrite Hplane.
  f_equal. unfold simulated_velocities. rewrite Hvel, Hnsz.
  rewrite <- concat_fmap_bind. f_equal.
  apply list_eq. intros w. rewrite list_lookup_fmap.
  destruct (decide (w < num_worlds self)) as [Hw|Hw].
  - rewrite xrange_lookup by done. simpl.
    rewrite <- (Hget _ (k, n, w)
                  (mkInfo (movement_model self) vel nsz
                     (trials_per_world self) (range self))).
    + unfold getitem4. rewrite Hblock. cbn [mbind option_bind].
      by rewrite Hplane.
    + apply index_tuples_lookup; done.
    + by apply task_arguments_lookup.
  - rewrite (proj2 (lookup_ge_None plane w)) by lia.
    rewrite (proj2 (lookup_ge_None (xrange _) w)); [done |].
    rewrite xrange_length. lia.
Qed.

Lemma concat_fst_blocks {A} (blocks : list (list (R * A))) :
  (concat blocks).*1 = concat ((λ block, block.*1) <$> blocks).
Proof.
  induction blocks as [|block blocks IH]; [done |].
  rewrite fmap_cons. cbn [concat]. by rewrite fmap_app, IH.
Qed.

Lemma concat_snd_blocks {A} (blocks : list (list (A * R))) :
  (concat blocks).*2 = concat ((λ block, block.*2) <$> blocks).
Proof.
  induction blocks as [|block blocks IH]; [done |].
  rewrite fmap_cons. cbn [concat]. by rewrite fmap_app, IH.
Qed.

Lemma velocity_run_then_fit_aux (self : Calibrator model)
    (worker : nat → Info model → list R) :
  (∀ p info, length (worker p info) = info_num info) →
  ∃ velocity_info,
    (Velocity.calculate_velocity_info self Returned worker).2
    = inr velocity_info ∧
    (∀ k n, k < length (velocities self) → n < length (niche_sizes self) →
            ravel4 k n velocity_info
            = inr (simulated_velocities self worker k n)) ∧
    (∀ n, n < length (niche_sizes self) →
          velocities self = [] →
          fit_niche self velocity_info n = inl ValueError) ∧
    (∀ n, n < length (niche_sizes self) →
          velocities self ≠ [] →
          fit_niche self velocity_info n
          = inr (concat ((λ '(k, _), simulated_velocities self worker k n)
                           <$> Occupancy.enumerate (velocities self)),
                 concat ((λ '(k, vel),
                            (λ _, vel * 1)%R
                              <$> simulated_velocities self worker k n)
                           <$> Occupancy.enumerate (velocities self)))).
Proof.
  intros Hlen.
  destruct (calculate_info_spec self worker Hlen)
    as (velocity_info & Hrun & Hshape & _).
  exists velocity_info. split; [exact Hrun |].
  assert (Hblock : ∀ k n, k < length (velocities self) →
            n < length (niche_sizes self) →
            ravel4 k n velocity_info
            = inr (simulated_velocities self worker k n)).
  { intros k n. by apply velocity_block. }
  split; [exact Hblock |].
  assert (Hslice : ∀ n, n < length (niche_sizes self) →
            niche_slice n velocity_info = inr ()).
  { intros n Hn. unfold niche_slice. rewrite Hshape.
    by rewrite decide_True. }
  assert (Hmap : ∀ n, n < length (niche_sizes self) →
            mapM (λ '(k, vel),
                    vdata ← ravel4 k n velocity_info;
                    mret (zip ((λ _, vel * 1)%R <$> vdata) vdata))
              (Occupancy.enumerate (velocities self))
            = inr ((λ '(k, vel),
                      zip ((λ _, vel * 1)%R
                             <$> simulated_velocities self worker k n)
                        (simulated_velocities self worker k n))
                     <$> Occupancy.enumerate (velocities self))).
  { intros n Hn. apply mapM_result_fmap. intros [k vel] Hin.
    apply enumerate_elem_of, lookup_lt_Some in Hin.
    by rewrite Hblock. }
  split.
  - intros n Hn Hnil. unfold fit_niche.
    rewrite Hslice, Hmap by done. by rewrite Hnil.
  - intros n Hn Hne. unfold fit_niche.
    rewrite Hslice, Hmap by done. cbn [mbind result_bind].
    destruct (velocities self) as [|vel0 rest] eqn:Hv; [done |].
    unfold Occupancy.enumerate. rewrite imap_cons, !fmap_cons.
    cbn [Occupancy.concatenate mbind result_bind mret result_ret].
    f_equal. f_equal.
    + rewrite concat_snd_blocks, fmap_cons. cbn [concat]. f_equal.
      * apply snd_zip. by rewrite length_fmap.
      * rewrite <- !list_fmap_compose. f_equal.
        apply list_fmap_ext. intros i [k vel] _. simpl.
        apply snd_zip. by rewrite length_fmap.
    + rewrite concat_fst_blocks, fmap_cons. cbn [concat]. f_equal.
      * apply fst_zip. by rewrite length_fmap.
      * rewrite <- !list_fmap_compose. f_equal.
        apply list_fmap_ext. intros i [k vel] _. simpl.
        apply fst_zip. by rewrite length_fmap.
Qed.

(** X18: the tensor returned by a velocity run that collects every result
    feeds [fit] as follows.  For the [n]-th niche size and the [k]-th
    velocity, [fit] reads the velocities returned by the tasks of that grid
    cell, world after world; the regression of the [n]-th niche size gets
    these simulated velocities, for all target velocities in order, as its
    input [X], and as its target [Y] the target velocity of each sample.
    With no velocity at all the iteration raises ValueError. *)
Theorem velocity_run_then_fit (self : Calibrator model)
    (worker : nat → Info model → list R) :
  (∀ p info, length (worker p info) = info_num info) →
  ∃ velocity_info,
    (Velocity.calculate_velocity_info self Returned worker).2
    = inr velocity_info ∧
    (∀ k n, k < length (velocities self) → n < length (niche_sizes self) →
            ravel4 k n velocity_info
            = inr (simulated_velocities self worker k n)) ∧
    (∀ n, n < length (niche_sizes self) →
          velocities self = [] →
          fit_niche self velocity_info n = inl ValueError) ∧
    (∀ n, n < length (niche_sizes self) →
          velocities self ≠ [] →
          fit_niche self velocity_info n
          = inr (concat ((λ '(k, _), simulated_velocities self worker k n)
                           <$> Occupancy.enumerate (velocities self)),
                 concat ((λ '(k, vel),
                            (λ _, vel * 1)%R
                              <$> simulated_velocities self worker k n)
                           <$> Occupancy.enumerate (velocities self)))).
Proof. exact (velocity_run_then_fit_aux self worker). Qed.

End VelocityRunToFit.

Section VelocityRunToFitExample.
Import Effects Numpy Calibration VelocityFit.

Lemma velocity_run_then_fit_witness :
  let self := Velocity.VelocityCalibrator () [0.1; 0.3]%R [0.2]%R 1 2 20%R in
  let worker := λ (p : nat) (info : Info ()),
                  replicate (info_num info) (INR p) in
  ∃ velocity_info,
    (Velocity.calculate_velocity_info self Returned worker).2
    = inr velocity_info ∧
    ravel4 1 0 velocity_info = inr (simulated_velocities self worker 1 0) ∧
    fit_niche self velocity_info 0
    = inr (concat ((λ '(k, _), simulated_velocities self worker k 0)
                     <$> Occupancy.enumerate (velocities self)),
           concat ((λ '(k, vel),
                      (λ _, vel * 1)%R
                        <$> simulated_velocities self worker k 0)
                     <$> Occupancy.enumerate (velocities self))).
Proof.
  intros self worker.
  destruct (velocity_run_then_fit self worker)
    as (velocity_info & Hrun & Hblock & _ & Hfit).
  { intros p info. apply length_replicate. }
  exists velocity_info. split; [exact Hrun |]. split.
  - apply Hblock; simpl; lia.
  - apply Hfit; [simpl; lia | done].
Defined.

End VelocityRunToFitExample.
